(** * unexw32: dumping the running image into a new PE executable

    A shallow embedding of [src/unexw32.c]: the section locator
    [find_section], the offset relocator [relocate_offset], the analyzer
    [get_section_info], the copier [copy_executable_and_dump_data] and the
    driver [unexec] with [open_output_file].  The resource lookup of
    [src/w32reg.c] and the POP part of [lib-src/movemail.c] follow the
    definitions for the dumper.

    Representation.  A mapped executable is kept as the header structures
    the code overlays on the view ([IMAGE_NT_HEADERS] with its section
    table) together with the bytes of the view, a function from file
    offsets to byte values.  Pointers into a view are file offsets,
    pointers to section headers are indices into the section table and
    [NULL] is [None].  [DWORD] values wrap at 32 bits and [DWORD_PTR]
    values at the pointer width of the target. *)

From Stdlib Require Import ZArith Lia Bool Ascii String.
From stdpp Require Import base option list gmap strings.

Local Open Scope Z_scope.

(** ** Machine integers *)

Definition wrap (bits n : Z) : Z := n mod 2 ^ bits.

(** [DWORD] is [unsigned long], 32 bits on every Windows target. *)
Definition DWORD (n : Z) : Z := wrap 32 n.

Variant target := Win32 | Win64.

Definition ptr_bits (t : target) : Z :=
  match t with Win32 => 32 | Win64 => 64 end.

Definition DWORD_PTR (t : target) (n : Z) : Z := wrap (ptr_bits t) n.

(** Modelled from the spec: the macro [ROUND_UP] (declared in a header
    that is not part of the sources at hand); the spec has it round a
    value up to the file's alignment boundary. *)
Definition ROUND_UP (p align : Z) : Z := (p + align - 1) / align * align.

(** ** Section headers *)

(** [IMAGE_SECTION_HEADER] (40 bytes): the fields in declaration order. *)
Record IMAGE_SECTION_HEADER := {
  Name : list Z;                (* BYTE Name[8] *)
  VirtualSize : Z;              (* Misc.VirtualSize *)
  VirtualAddress : Z;
  SizeOfRawData : Z;
  PointerToRawData : Z;
  PointerToRelocations : Z;
  PointerToLinenumbers : Z;
  NumberOfRelocations : Z;      (* WORD *)
  NumberOfLinenumbers : Z;      (* WORD *)
  Characteristics : Z
}.

Definition IMAGE_SCN_CNT_INITIALIZED_DATA : Z := 0x40.
Definition IMAGE_SCN_CNT_UNINITIALIZED_DATA : Z := 0x80.

Definition set_PointerToRawData (v : Z) (s : IMAGE_SECTION_HEADER) :=
  {| Name := Name s; VirtualSize := VirtualSize s;
     VirtualAddress := VirtualAddress s; SizeOfRawData := SizeOfRawData s;
     PointerToRawData := v;
     PointerToRelocations := PointerToRelocations s;
     PointerToLinenumbers := PointerToLinenumbers s;
     NumberOfRelocations := NumberOfRelocations s;
     NumberOfLinenumbers := NumberOfLinenumbers s;
     Characteristics := Characteristics s |}.

Definition set_SizeOfRawData (v : Z) (s : IMAGE_SECTION_HEADER) :=
  {| Name := Name s; VirtualSize := VirtualSize s;
     VirtualAddress := VirtualAddress s; SizeOfRawData := v;
     PointerToRawData := PointerToRawData s;
     PointerToRelocations := PointerToRelocations s;
     PointerToLinenumbers := PointerToLinenumbers s;
     NumberOfRelocations := NumberOfRelocations s;
     NumberOfLinenumbers := NumberOfLinenumbers s;
     Characteristics := Characteristics s |}.

Definition set_PointerToLinenumbers (v : Z) (s : IMAGE_SECTION_HEADER) :=
  {| Name := Name s; VirtualSize := VirtualSize s;
     VirtualAddress := VirtualAddress s; SizeOfRawData := SizeOfRawData s;
     PointerToRawData := PointerToRawData s;
     PointerToRelocations := PointerToRelocations s;
     PointerToLinenumbers := v;
     NumberOfRelocations := NumberOfRelocations s;
     NumberOfLinenumbers := NumberOfLinenumbers s;
     Characteristics := Characteristics s |}.

Definition set_Characteristics (v : Z) (s : IMAGE_SECTION_HEADER) :=
  {| Name := Name s; VirtualSize := VirtualSize s;
     VirtualAddress := VirtualAddress s; SizeOfRawData := SizeOfRawData s;
     PointerToRawData := PointerToRawData s;
     PointerToRelocations := PointerToRelocations s;
     PointerToLinenumbers := PointerToLinenumbers s;
     NumberOfRelocations := NumberOfRelocations s;
     NumberOfLinenumbers := NumberOfLinenumbers s;
     Characteristics := v |}.

(** ** The section table as it lies in memory *)

(** Little-endian bytes of an [n]-byte field. *)
Definition le_bytes (n : nat) (v : Z) : list Z :=
  map (fun k => Z.land (Z.shiftr v (8 * Z.of_nat k)) 255) (seq 0 n).

(** The eight bytes of the name field. *)
Definition name_field (s : IMAGE_SECTION_HEADER) : list Z :=
  take 8 (Name s ++ replicate 8 0).

Definition section_bytes (s : IMAGE_SECTION_HEADER) : list Z :=
  name_field s ++ le_bytes 4 (VirtualSize s) ++ le_bytes 4 (VirtualAddress s)
  ++ le_bytes 4 (SizeOfRawData s) ++ le_bytes 4 (PointerToRawData s)
  ++ le_bytes 4 (PointerToRelocations s) ++ le_bytes 4 (PointerToLinenumbers s)
  ++ le_bytes 2 (NumberOfRelocations s) ++ le_bytes 2 (NumberOfLinenumbers s)
  ++ le_bytes 4 (Characteristics s).

Definition section_table_bytes (l : list IMAGE_SECTION_HEADER) : list Z :=
  concat (map section_bytes l).

Definition bytes_of_string (s : string) : list Z :=
  map (fun c => Z.of_N (N_of_ascii c)) (list_ascii_of_string s).

(** ** [strcmp] and [find_section] *)

(** [strcmp a b] on the memory that starts at the two pointers: the
    difference of the first pair of bytes that differ, 0 when both strings
    end together, and [None] when the comparison runs off the memory
    given. *)
Fixpoint strcmp (a b : list Z) : option Z :=
  match a, b with
  | x :: a', y :: b' =>
      if x =? y then (if x =? 0 then Some 0 else strcmp a' b')
      else Some (x - y)
  | _, _ => None
  end.

(** The loop of [find_section]: [mem] is the memory from the name field
    of section [i] on, [n] the number of sections still to visit. *)
Fixpoint find_section_loop (name mem : list Z) (i n : nat)
  : option (option nat) :=
  match n with
  | O => Some None
  | S n' =>
      match strcmp mem (name ++ [0]) with
      | None => None
      | Some c =>
          if c =? 0 then Some (Some i)
          else find_section_loop name (drop 40 mem) (S i) n'
      end
  end.

(** [find_section name nt_header]: [sections] is the section table and
    [after] the bytes that follow it in the view.  The outer [option] is
    [None] when the code reads outside the view. *)
Definition find_section (name : list Z) (sections : list IMAGE_SECTION_HEADER)
    (after : list Z) : option (option nat) :=
  find_section_loop name (section_table_bytes sections ++ after) 0
    (length sections).

(** The locator of the claim: the first section whose eight-byte name
    field equals the queried name (zero-padded to the width of the
    field). *)
Definition padded_name (name : list Z) : list Z :=
  name ++ replicate (8 - length name) 0.

Definition name_matches (name : list Z) (s : IMAGE_SECTION_HEADER) : bool :=
  bool_decide (name_field s = padded_name name).

Fixpoint first_index {A} (p : A -> bool) (l : list A) (i : nat) : option nat :=
  match l with
  | [] => None
  | x :: r => if p x then Some i else first_index p r (S i)
  end.

Definition locate_by_name_field (name : list Z)
    (sections : list IMAGE_SECTION_HEADER) : option nat :=
  first_index (name_matches name) sections 0.

(** ** [relocate_offset] *)

(** [while (s->PointerToRawData == 0) s--;] from index [i]; [None] when
    the scan leaves the table. *)
Fixpoint last_raw_from (l : list IMAGE_SECTION_HEADER) (i : nat)
  : option IMAGE_SECTION_HEADER :=
  match l !! i with
  | None => None
  | Some s =>
      if PointerToRawData s =? 0 then
        match i with
        | O => None
        | S j => last_raw_from l j
        end
      else Some s
  end.

(** The section a pointer [first + n - 1] designates. *)
Definition last_raw (l : list IMAGE_SECTION_HEADER) : option IMAGE_SECTION_HEADER :=
  match length l with
  | O => None
  | S j => last_raw_from l j
  end.

Definition raw_end (s : IMAGE_SECTION_HEADER) : Z :=
  DWORD (PointerToRawData s + SizeOfRawData s).

(** The [while] loop of [relocate_offset] at section index [i]. *)
Fixpoint relocate_loop (t : target) (offset : Z)
    (src dst : list IMAGE_SECTION_HEADER) (i fuel : nat) : option Z :=
  match fuel with
  | O => None
  | S fuel' =>
      s ← src !! i;
      if (PointerToRawData s <=? offset) && negb (offset <? raw_end s) then
        if bool_decide (S i = length src) then
          (* offsets after the last section *)
          d ← last_raw dst;
          s' ← last_raw_from src i;
          Some (DWORD_PTR t (offset + raw_end d - raw_end s'))
        else relocate_loop t offset src dst (S i) fuel'
      else
        d ← dst !! i;
        Some (DWORD_PTR t
                (offset + DWORD (PointerToRawData d - PointerToRawData s)))
  end.

Definition relocate_offset (t : target) (offset : Z)
    (src dst : list IMAGE_SECTION_HEADER) : option Z :=
  relocate_loop t offset src dst 0 (length src).

(** ** Images, files and the running process *)

Definition IMAGE_DOS_SIGNATURE : Z := 0x5A4D.
Definition IMAGE_NT_SIGNATURE : Z := 0x00004550.

(** The fields of [IMAGE_NT_HEADERS] the code reads or writes, and the
    section table that follows the optional header
    ([IMAGE_FIRST_SECTION]); [NumberOfSections] is the length of the
    table. *)
Record IMAGE_NT_HEADERS := {
  Signature : Z;
  PointerToSymbolTable : Z;       (* FileHeader *)
  SizeOfOptionalHeader : Z;       (* FileHeader *)
  SizeOfInitializedData : Z;      (* OptionalHeader, as the next six *)
  SizeOfUninitializedData : Z;
  ImageBase : Z;
  FileAlignment : Z;
  SizeOfHeaders : Z;
  CheckSum : Z;
  DebugDirectory : Z * Z;         (* DataDirectory[IMAGE_DIRECTORY_ENTRY_DEBUG] *)
  sections : list IMAGE_SECTION_HEADER
}.

Definition NumberOfSections (h : IMAGE_NT_HEADERS) : nat := length (sections h).

Definition with_sections (l : list IMAGE_SECTION_HEADER) (h : IMAGE_NT_HEADERS) :=
  {| Signature := Signature h; PointerToSymbolTable := PointerToSymbolTable h;
     SizeOfOptionalHeader := SizeOfOptionalHeader h;
     SizeOfInitializedData := SizeOfInitializedData h;
     SizeOfUninitializedData := SizeOfUninitializedData h;
     ImageBase := ImageBase h; FileAlignment := FileAlignment h;
     SizeOfHeaders := SizeOfHeaders h; CheckSum := CheckSum h;
     DebugDirectory := DebugDirectory h; sections := l |}.

Definition set_SizeOfHeaders (v : Z) (h : IMAGE_NT_HEADERS) :=
  {| Signature := Signature h; PointerToSymbolTable := PointerToSymbolTable h;
     SizeOfOptionalHeader := SizeOfOptionalHeader h;
     SizeOfInitializedData := SizeOfInitializedData h;
     SizeOfUninitializedData := SizeOfUninitializedData h;
     ImageBase := ImageBase h; FileAlignment := FileAlignment h;
     SizeOfHeaders := v; CheckSum := CheckSum h;
     DebugDirectory := DebugDirectory h; sections := sections h |}.

Definition set_data_sizes (i u : Z) (h : IMAGE_NT_HEADERS) :=
  {| Signature := Signature h; PointerToSymbolTable := PointerToSymbolTable h;
     SizeOfOptionalHeader := SizeOfOptionalHeader h;
     SizeOfInitializedData := i;
     SizeOfUninitializedData := u;
     ImageBase := ImageBase h; FileAlignment := FileAlignment h;
     SizeOfHeaders := SizeOfHeaders h; CheckSum := CheckSum h;
     DebugDirectory := DebugDirectory h; sections := sections h |}.

Definition set_PointerToSymbolTable (v : Z) (h : IMAGE_NT_HEADERS) :=
  {| Signature := Signature h; PointerToSymbolTable := v;
     SizeOfOptionalHeader := SizeOfOptionalHeader h;
     SizeOfInitializedData := SizeOfInitializedData h;
     SizeOfUninitializedData := SizeOfUninitializedData h;
     ImageBase := ImageBase h; FileAlignment := FileAlignment h;
     SizeOfHeaders := SizeOfHeaders h; CheckSum := CheckSum h;
     DebugDirectory := DebugDirectory h; sections := sections h |}.

Definition set_CheckSum (v : Z) (h : IMAGE_NT_HEADERS) :=
  {| Signature := Signature h; PointerToSymbolTable := PointerToSymbolTable h;
     SizeOfOptionalHeader := SizeOfOptionalHeader h;
     SizeOfInitializedData := SizeOfInitializedData h;
     SizeOfUninitializedData := SizeOfUninitializedData h;
     ImageBase := ImageBase h; FileAlignment := FileAlignment h;
     SizeOfHeaders := SizeOfHeaders h; CheckSum := v;
     DebugDirectory := DebugDirectory h; sections := sections h |}.

(** A mapped view: the DOS header fields the code reads, the NT headers
    found at [e_lfanew], and the bytes of the view by file offset.  The
    fields of the records are what the view holds where they lie (the
    entries of the section table fill its 40 bytes each): a write to a
    field changes the record, and [contents] is not looked at there. *)
Record image := {
  e_magic : Z;
  e_lfanew : Z;
  nt_headers : IMAGE_NT_HEADERS;
  contents : Z -> Z
}.

(** [file_data]: [file] is the handle (the identity of the file object),
    [file_base] the mapped view and [base_address] the address at which it
    is mapped. *)
Record file_data := {
  name : string;
  size : Z;
  file : nat;
  base_address : Z;
  file_base : image
}.

(** The running process: its module handle, the addresses of the symbols
    that bound the data and bss areas, and its memory. *)
Record process := {
  module_handle : Z;              (* GetModuleHandle (NULL) *)
  my_begdata : Z;
  my_edata : Z;
  my_begbss : Z;
  my_endbss : Z;
  my_begbss_static : Z;
  my_endbss_static : Z;
  memory : Z -> Z
}.

(** Build parameters: the pointer width, whether [_ALPHA_] is defined, and
    the file-name conversion [filename_to_ansi], a function of the
    program that is not among these sources. *)
Record config := {
  cfg_target : target;
  cfg_alpha : bool;
  filename_to_ansi : string -> string
}.

(** The cached globals that [get_section_info] fills in. *)
Record section_info := {
  data_section : option nat;
  data_start : Z;
  data_size : Z;
  bss_section : option nat;
  bss_start : Z;
  bss_size : Z;
  extra_bss_size : Z;
  bss_section_static : option nat;
  bss_start_static : Z;
  bss_size_static : Z;
  extra_bss_size_static : Z
}.

(** Modelled from the spec: [rva_to_section], a function of the program
    that is not among these sources; the spec has it locate a section by
    scanning which section's address range contains a given virtual
    address. *)
Definition rva_in_section (rva : Z) (s : IMAGE_SECTION_HEADER) : bool :=
  (VirtualAddress s <=? rva) && (rva <? VirtualAddress s + VirtualSize s).

Definition rva_to_section (rva : Z) (l : list IMAGE_SECTION_HEADER) : option nat :=
  first_index (rva_in_section rva) l 0.

Definition PTR_TO_RVA (t : target) (p : process) (ptr : Z) : Z :=
  DWORD_PTR t (ptr - module_handle p).

Definition RVA_TO_SECTION_OFFSET (t : target) (rva : Z) (s : IMAGE_SECTION_HEADER) : Z :=
  DWORD_PTR t (rva - VirtualAddress s).

Definition RVA_TO_OFFSET (t : target) (rva : Z) (s : IMAGE_SECTION_HEADER) : Z :=
  DWORD_PTR t (PointerToRawData s + DWORD_PTR t (rva - VirtualAddress s)).

(** Offset of the section table from the NT headers
    ([IMAGE_FIRST_SECTION]) and the size of one entry. *)
Definition first_section_offset (h : IMAGE_NT_HEADERS) : Z :=
  24 + SizeOfOptionalHeader h.

Definition sizeof_section_header : Z := 40.

Definition section_table_end (im : image) : Z :=
  e_lfanew im + first_section_offset (nt_headers im)
  + sizeof_section_header * Z.of_nat (NumberOfSections (nt_headers im)).

(** The bytes [lo .. hi) of a view, as a list. *)
Definition view_bytes (m : Z -> Z) (lo hi : Z) : list Z :=
  map (fun k => m (lo + Z.of_nat k)) (seq 0 (Z.to_nat (hi - lo))).

(** ** The environment: standard output and the file system *)

(** One constructor per [printf] of the program; the arguments are those
    of the format. *)
Variant diagnostic :=
| Unknown_EXE_header (file_name : string)
    (* "Unknown EXE header in %s...bailing.\n" *)
| Failed_to_find_IMAGE_NT_HEADER (file_name : string)
    (* "Failed to find IMAGE_NT_HEADER in %s...bailing.\n" *)
| Invalid_IMAGE_NT_SIGNATURE (signature : Z) (file_name : string)
    (* "Invalid IMAGE_NT_SIGNATURE 0x%lx in %s...bailing.\n" *)
| Initialized_data_not_in_a_single_section
    (* "Initialized data is not in a single section...bailing\n" *)
| Uninitialized_data_not_in_a_single_section
    (* "Uninitialized data is not in a single section...bailing\n" *)
| Uninitialized_static_data_not_in_a_single_section
    (* "Uninitialized static data is not in a single section...bailing\n" *)
| BSS_data_not_in_a_single_section
    (* "BSS data not in a single section...bailing\n" *)
| Dumping_from (file_name : string)
    (* "Dumping from %s\n" *)
| Dumping_to (file_name : string)
    (* "          to %s\n" *)
| Failed_to_open (file_name : string) (last_error : Z)
    (* "Failed to open %s (%lu)...bailing.\n" *)
| Chunk_message (message : string)
    (* "%s\n", the first line of a chunk in the verbose mode *)
| Offset_in_input_file (offset : Z)
    (* a tab, the offset in hexadecimal, " Offset in input file.\n" *)
| Offset_in_output_file (offset : Z)
    (* ... " Offset in output file.\n" *)
| Size_in_bytes (count : Z)
    (* ... " Size in bytes.\n" *)
| Address_in_process (address : Z)
    (* ... " Address in process.\n" *)
| Base_output_file (address : Z)
    (* ... " Base       output file.\n" *)
| Offset__in_output_file (offset : Z)
    (* ... " Offset  in output file.\n" *)
| Address_in_output_file (address : Z).
    (* ... " Address in output file.\n" *)

(** A file object of the file system.  [f_protected] stands for whatever
    makes Windows refuse both to delete the file and to open it for
    writing (a read-only attribute, a handle another process holds). *)
Record file_object := {
  f_image : image;
  f_length : Z;
  f_protected : bool
}.

(** The directory maps a file name to the file object it links to;
    several names may link to one object (hard links). *)
Record world := {
  stdout : list diagnostic;
  directory : gmap string nat;
  disk : gmap nat file_object;
  module_file_name : option string;           (* GetModuleFileNameA (NULL, ...) *)
  CheckSumMappedFile : option (image -> Z -> Z); (* GetProcAddress (imagehlp.dll) *)
  last_error : Z;                               (* GetLastError () *)
  environment : gmap string string              (* the environment variables *)
}.

Definition with_stdout (o : list diagnostic) (w : world) : world :=
  {| stdout := o; directory := directory w; disk := disk w;
     module_file_name := module_file_name w;
     CheckSumMappedFile := CheckSumMappedFile w; last_error := last_error w;
     environment := environment w |}.

Definition with_files (d : gmap string nat) (k : gmap nat file_object)
    (w : world) : world :=
  {| stdout := stdout w; directory := d; disk := k;
     module_file_name := module_file_name w;
     CheckSumMappedFile := CheckSumMappedFile w; last_error := last_error w;
     environment := environment w |}.

(** How a run of the program, or of one of its functions, ends. *)
Inductive outcome (A : Type) : Type :=
| Done (a : A)
| Exited (status : Z)         (* exit (status) *)
| Aborted                     (* abort () *)
| Undefined.                  (* a read or write the C code may not do *)

Arguments Done {A} a.
Arguments Exited {A} status.
Arguments Aborted {A}.
Arguments Undefined {A}.

Definition M (A : Type) : Type := world -> world * outcome A.

Definition ret {A} (a : A) : M A := fun w => (w, Done a).

Definition bind {A B} (m : M A) (k : A -> M B) : M B :=
  fun w =>
    match m w with
    | (w', Done a) => k a w'
    | (w', Exited s) => (w', Exited s)
    | (w', Aborted) => (w', Aborted)
    | (w', Undefined) => (w', Undefined)
    end.

Declare Scope unexec_scope.
Delimit Scope unexec_scope with unexec.
Notation "'do' x <- m ; k" := (bind m (fun x => k))
  (at level 10, x name, m at level 100, k at level 200,
   format "'[v' 'do'  x  <-  m ; '/' k ']'") : unexec_scope.
Notation "m ;; k" := (bind m (fun _ => k))
  (at level 100, k at level 200, right associativity) : unexec_scope.

Definition printf (d : diagnostic) : M unit :=
  fun w => (with_stdout (stdout w ++ [d]) w, Done tt).

Definition exit {A} (status : Z) : M A := fun w => (w, Exited status).
Definition abort {A} : M A := fun w => (w, Aborted).
Definition undefined {A} : M A := fun w => (w, Undefined).

(** A read through a pointer that may be [NULL] or outside the view. *)
Definition deref {A} (o : option A) : M A :=
  match o with
  | Some a => ret a
  | None => undefined
  end.

Definition GetLastError : M Z := fun w => (w, Done (last_error w)).

(** [GetEnvironmentVariable (name, NULL, 0)]: the size of the buffer that
    the value of the variable needs, 0 when there is no such variable. *)
Definition GetEnvironmentVariable (name : string) : M Z :=
  fun w =>
    (w, Done (match environment w !! name with
              | Some value => Z.of_nat (String.length value) + 1
              | None => 0
              end)).

(** ** [get_section_info] *)

Local Open Scope unexec_scope.

(** The test [a != b] on two section pointers. *)
Definition same_section (a b : option nat) : bool := bool_decide (a = b).

(** How much the raw data of the section grows so as to hold the bss
    area that ends at [endp]. *)
Definition bss_growth (t : target) (p : process) (endp : Z)
    (s : IMAGE_SECTION_HEADER) (align : Z) : Z :=
  DWORD_PTR t
    (ROUND_UP (RVA_TO_SECTION_OFFSET t (PTR_TO_RVA t p endp) s) align
     - SizeOfRawData s).

(** The test that opens "Combine the bss sections into one if they
    overlap". *)
Definition bss_overlap (c : config) (bss_start bss_size bss_start_static
    bss_size_static : Z) : bool :=
  let t := cfg_target c in
  if bss_start <? bss_start_static then
    if bss_start_static <? DWORD_PTR t (bss_start + bss_size) then true
    else cfg_alpha c
  else
    if bss_start <? DWORD_PTR t (bss_start_static + bss_size_static) then true
    else cfg_alpha c.

Definition get_section_info (c : config) (p : process) (p_infile : file_data)
  : M section_info :=
  let t := cfg_target c in
  let dos_header := file_base p_infile in
  if negb (e_magic dos_header =? IMAGE_DOS_SIGNATURE) then
    printf (Unknown_EXE_header (name p_infile)) ;; exit 1
  else
  if DWORD_PTR t (base_address p_infile + e_lfanew dos_header) =? 0 then
    printf (Failed_to_find_IMAGE_NT_HEADER (name p_infile)) ;; exit 1
  else
  let nt_header := nt_headers dos_header in
  if negb (Signature nt_header =? IMAGE_NT_SIGNATURE) then
    printf (Invalid_IMAGE_NT_SIGNATURE (Signature nt_header) (name p_infile)) ;;
    exit 1
  else
  let table := sections nt_header in
  let align := FileAlignment nt_header in
  do found <- deref (find_section (bytes_of_string "EMDATA") table
                       (view_bytes (contents dos_header)
                          (section_table_end dos_header) (size p_infile)));
  do data <-
    match found with
    | Some k =>
        do s <- deref (table !! k);
        ret (Some k, DWORD_PTR t (ImageBase nt_header + VirtualAddress s),
             VirtualSize s)
    | None =>
        (* the old method *)
        let data_section := rva_to_section (PTR_TO_RVA t p (my_begdata p)) table in
        if negb (same_section data_section
                   (rva_to_section (PTR_TO_RVA t p (my_edata p)) table)) then
          printf Initialized_data_not_in_a_single_section ;; exit 1
        else
          ret (data_section, my_begdata p,
               DWORD_PTR t (my_edata p - my_begdata p))
    end;
  let '(data_section, data_start, data_size) := data in
  let bss_start := my_begbss p in
  let bss_size := DWORD_PTR t (my_endbss p - my_begbss p) in
  let bss_section := rva_to_section (PTR_TO_RVA t p (my_begbss p)) table in
  if negb (same_section bss_section
             (rva_to_section (PTR_TO_RVA t p (my_endbss p)) table)) then
    printf Uninitialized_data_not_in_a_single_section ;; exit 1
  else
  do bs <- deref (bss_section ≫= (table !!.));
  let extra_bss_size := bss_growth t p (my_endbss p) bs align in
  let bss_start_static := my_begbss_static p in
  let bss_size_static := DWORD_PTR t (my_endbss_static p - my_begbss_static p) in
  let bss_section_static :=
    rva_to_section (PTR_TO_RVA t p (my_begbss_static p)) table in
  if negb (same_section bss_section_static
             (rva_to_section (PTR_TO_RVA t p (my_endbss_static p)) table)) then
    printf Uninitialized_static_data_not_in_a_single_section ;; exit 1
  else
  do bss <- deref (bss_section_static ≫= (table !!.));
  let extra_bss_size_static := bss_growth t p (my_endbss_static p) bss align in
  if bss_overlap c bss_start bss_size bss_start_static bss_size_static then
    if negb (same_section bss_section bss_section_static) then
      printf BSS_data_not_in_a_single_section ;; exit 1
    else
      let bss_start' := Z.min bss_start bss_start_static in
      ret {| data_section := data_section; data_start := data_start;
             data_size := data_size;
             bss_section := bss_section;
             bss_start := bss_start';
             bss_size :=
               DWORD_PTR t (Z.max (my_endbss p) (my_endbss_static p) - bss_start');
             extra_bss_size := Z.max extra_bss_size extra_bss_size_static;
             bss_section_static := None;
             bss_start_static := bss_start_static;
             bss_size_static := bss_size_static;
             extra_bss_size_static := 0 |}
  else
    ret {| data_section := data_section; data_start := data_start;
           data_size := data_size;
           bss_section := bss_section; bss_start := bss_start;
           bss_size := bss_size; extra_bss_size := extra_bss_size;
           bss_section_static := bss_section_static;
           bss_start_static := bss_start_static;
           bss_size_static := bss_size_static;
           extra_bss_size_static := extra_bss_size_static |}.

(** ** The copier *)

Definition memcpy (m : Z -> Z) (d : Z) (src : Z -> Z) (s count : Z) : Z -> Z :=
  fun a => if (d <=? a) && (a <? d + count) then src (s + (a - d)) else m a.

Definition memset (m : Z -> Z) (d v count : Z) : Z -> Z :=
  fun a => if (d <=? a) && (a <? d + count) then v else m a.

(** One [COPY_CHUNK] or [COPY_PROC_CHUNK], with the arguments of the
    [printf] calls of its verbose branch.  The macros keep each chunk in
    the list [chunks]; [chunk_report] is what the verbose branch prints
    for it, and [copy_and_report] prints it. *)
Record chunk := {
  message : string;
  from_process : bool;
  source : Z;            (* offset in input file, or address in process *)
  destination : Z;       (* offset in output file *)
  count : Z              (* size in bytes *)
}.

(** The state the copy macros work on: the write cursor [dst] (as
    [DST_TO_OFFSET ()]), the view of the output file and the chunks copied
    so far. *)
Record copier := {
  dst : Z;
  view : Z -> Z;
  chunks : list chunk
}.

Definition set_dst (d : Z) (c : copier) : copier :=
  {| dst := d; view := view c; chunks := chunks c |}.

(** The two macros copy and keep the chunk; the [printf] calls of their
    verbose branch are made by [copy_and_report], from the chunk kept. *)
Definition COPY_CHUNK (t : target) (msg : string) (p_infile : Z -> Z)
    (src sz : Z) (c : copier) : copier :=
  let count := DWORD_PTR t sz in
  {| dst := dst c + count;
     view := memcpy (view c) (dst c) p_infile src count;
     chunks := chunks c ++ [{| message := msg; from_process := false;
                               source := src; destination := dst c;
                               count := count |}] |}.

Definition COPY_PROC_CHUNK (t : target) (msg : string) (p : process)
    (src sz : Z) (c : copier) : copier :=
  let count := DWORD_PTR t sz in
  {| dst := dst c + count;
     view := memcpy (view c) (dst c) (memory p) src count;
     chunks := chunks c ++ [{| message := msg; from_process := true;
                               source := src; destination := dst c;
                               count := count |}] |}.

Definition ROUND_UP_DST (align : Z) (c : copier) : copier :=
  set_dst (ROUND_UP (dst c) align) c.

Definition ROUND_UP_DST_AND_ZERO (align : Z) (c : copier) : copier :=
  let newdst := ROUND_UP (dst c) align in
  {| dst := newdst;
     view := memset (view c) (dst c) 0 (newdst - dst c);
     chunks := chunks c |}.

(** The name of a section as ["%.8s"] prints it. *)
Fixpoint until_nul (l : list Z) : list Z :=
  match l with
  | [] => []
  | x :: r => if x =? 0 then [] else x :: until_nul r
  end.

Definition name_string (s : IMAGE_SECTION_HEADER) : string :=
  string_of_list_ascii
    (map (fun b => ascii_of_N (Z.to_N b)) (until_nul (name_field s))).

(** "Dump contents of bss variables, adjusting the section's raw data size
    as necessary": the body shared, word for word, by the blocks for
    [bss_section] and [bss_section_static]. *)
Definition dump_bss (t : target) (p : process) (align : Z) (msg : string)
    (start sz : Z) (dst_save : Z) (dst_section : IMAGE_SECTION_HEADER)
    (c : copier) : IMAGE_SECTION_HEADER * copier :=
  let c1 := set_dst (dst_save
                     + RVA_TO_SECTION_OFFSET t (PTR_TO_RVA t p start) dst_section) c in
  let c2 := COPY_PROC_CHUNK t msg p start sz c1 in
  let c3 := ROUND_UP_DST align c2 in
  let d1 := set_PointerToRawData (DWORD dst_save) dst_section in
  (* Determine new size of raw data area.  *)
  let c4 := set_dst (Z.max (dst c3) (dst_save + SizeOfRawData d1)) c3 in
  let d2 := set_SizeOfRawData (DWORD (dst c4 - dst_save)) d1 in
  let d3 := set_Characteristics
              (Z.land (Characteristics d2)
                 (Z.lnot IMAGE_SCN_CNT_UNINITIALIZED_DATA)) d2 in
  let d4 := set_Characteristics
              (Z.lor (Characteristics d3) IMAGE_SCN_CNT_INITIALIZED_DATA) d3 in
  (d4, c4).

(** One iteration of the loop over the sections: [section] is entry [i]
    of the source table, [dst_section] the entry of the destination table
    at the same index. *)
Definition copy_section (t : target) (p : process) (info : section_info)
    (p_infile : Z -> Z) (align : Z) (i : nat)
    (section dst_section : IMAGE_SECTION_HEADER) (c : copier)
  : IMAGE_SECTION_HEADER * copier :=
  let msg := ("Copying raw data for " +:+ name_string section +:+ "...")%string in
  let dst_save := dst c in
  let d1 := if PointerToRawData dst_section =? 0 then dst_section
            else set_PointerToRawData (DWORD (dst c)) dst_section in
  (* Can always copy the original raw data.  *)
  let c1 := COPY_CHUNK t msg p_infile (PointerToRawData section)
              (SizeOfRawData section) c in
  let c2 := ROUND_UP_DST_AND_ZERO align c1 in
  let c3 :=
    if bool_decide (Some i = data_section info) then
      let c' := set_dst (dst_save
                   + RVA_TO_SECTION_OFFSET t (PTR_TO_RVA t p (data_start info)) d1)
                  c2 in
      let c'' := COPY_PROC_CHUNK t "Dumping initialized data..." p
                   (data_start info) (data_size info) c' in
      set_dst (dst_save + SizeOfRawData d1) c''
    else c2 in
  let '(d2, c4) :=
    if bool_decide (Some i = bss_section info) then
      dump_bss t p align "Dumping bss data..." (bss_start info) (bss_size info)
        dst_save d1 c3
    else (d1, c3) in
  let '(d3, c5) :=
    if bool_decide (Some i = bss_section_static info) then
      dump_bss t p align "Dumping static bss data..." (bss_start_static info)
        (bss_size_static info) dst_save d2 c4
    else (d2, c4) in
  (* Align the section's raw data area.  *)
  (d3, ROUND_UP_DST align c5).

(** The loop: [section] and [dst_section] advance together. *)
Fixpoint copy_sections (t : target) (p : process) (info : section_info)
    (p_infile : Z -> Z) (align : Z) (i : nat)
    (src dsts : list IMAGE_SECTION_HEADER) (c : copier)
  : list IMAGE_SECTION_HEADER * copier :=
  match src, dsts with
  | section :: src', dst_section :: dsts' =>
      let '(d, c1) := copy_section t p info p_infile align i section dst_section c in
      let '(ds, c2) := copy_sections t p info p_infile align (S i) src' dsts' c1 in
      (d :: ds, c2)
  | _, _ => (dsts, c)
  end.

(** ** The header patcher *)

Definition ADJUST_OFFSET (t : target) (var : Z)
    (src dst : list IMAGE_SECTION_HEADER) : option Z :=
  if var =? 0 then Some var
  else DWORD <$> relocate_offset t var src dst.

Definition has_flag (flag : Z) (s : IMAGE_SECTION_HEADER) : bool :=
  negb (Z.land (Characteristics s) flag =? 0).

(** "Recompute data sizes for completeness" and adjust the line-number
    pointer, for the [n] entries of the destination table from index [i]
    on; the state is the destination table and the two totals. *)
Fixpoint patch_sections (t : target) (src : list IMAGE_SECTION_HEADER)
    (align : Z) (i n : nat) (st : list IMAGE_SECTION_HEADER * Z * Z)
  : option (list IMAGE_SECTION_HEADER * Z * Z) :=
  match n with
  | O => Some st
  | S n' =>
      let '(table, initialized, uninitialized) := st in
      d ← table !! i;
      let initialized' :=
        if has_flag IMAGE_SCN_CNT_INITIALIZED_DATA d
        then DWORD (initialized + ROUND_UP (VirtualSize d) align)
        else initialized in
      let uninitialized' :=
        if has_flag IMAGE_SCN_CNT_INITIALIZED_DATA d then uninitialized
        else if has_flag IMAGE_SCN_CNT_UNINITIALIZED_DATA d
        then DWORD (uninitialized + ROUND_UP (VirtualSize d) align)
        else uninitialized in
      v ← ADJUST_OFFSET t (PointerToLinenumbers d) src table;
      patch_sections t src align (S i) n'
        (<[i := set_PointerToLinenumbers v d]> table, initialized', uninitialized')
  end.

Definition get32 (m : Z -> Z) (a : Z) : Z :=
  m a + 2 ^ 8 * m (a + 1) + 2 ^ 16 * m (a + 2) + 2 ^ 24 * m (a + 3).

Definition set32 (m : Z -> Z) (a v : Z) : Z -> Z :=
  fun x => if (a <=? x) && (x <? a + 4)
           then Z.land (Z.shiftr v (8 * (x - a))) 255 else m x.

(** [IMAGE_DEBUG_DIRECTORY]: 28 bytes, [PointerToRawData] at offset 24. *)
Definition sizeof_debug_directory : Z := 28.
Definition debug_PointerToRawData : Z := 24.

(** "Update offsets in debug directory entries": the [n] entries from
    [debug_entry] on. *)
Fixpoint patch_debug_entries (t : target)
    (src dst : list IMAGE_SECTION_HEADER) (debug_entry : Z) (n : nat)
    (m : Z -> Z) : option (Z -> Z) :=
  match n with
  | O => Some m
  | S n' =>
      let field := debug_entry + debug_PointerToRawData in
      v ← ADJUST_OFFSET t (get32 m field) src dst;
      patch_debug_entries t src dst (debug_entry + sizeof_debug_directory) n'
        (set32 m field v)
  end.

Definition patch_debug_directory (t : target) (src : list IMAGE_SECTION_HEADER)
    (dst_nt_header : IMAGE_NT_HEADERS) (m : Z -> Z) : option (Z -> Z) :=
  let debug_dir := DebugDirectory dst_nt_header in
  match rva_to_section debug_dir.1 (sections dst_nt_header) with
  | Some k =>
      section ← sections dst_nt_header !! k;
      patch_debug_entries t src (sections dst_nt_header)
        (RVA_TO_OFFSET t debug_dir.1 section)
        (Z.to_nat (debug_dir.2 / sizeof_debug_directory)) m
  | None => Some m
  end.

(** ** [copy_executable_and_dump_data] *)

(** The result: the view of the output file with its headers, the value
    left in [p_outfile->size], and the chunks copied.  What the function
    reads from the environment and prints is in [copy_and_report]. *)
Definition copy_executable_and_dump_data (t : target) (p : process)
    (info : section_info) (p_infile p_outfile : file_data)
  : option (file_data * list chunk) :=
  let dos_header := file_base p_infile in
  let nt_header := nt_headers dos_header in
  let section := sections nt_header in
  let src := contents dos_header in
  let c := {| dst := 0; view := contents (file_base p_outfile); chunks := [] |} in
  let c := COPY_CHUNK t "Copying DOS header..." src 0 (e_lfanew dos_header) c in
  let c := COPY_CHUNK t "Copying NT header..." src (e_lfanew dos_header)
             (first_section_offset nt_header) c in
  let c := COPY_CHUNK t "Copying section table..." src
             (e_lfanew dos_header + first_section_offset nt_header)
             (Z.of_nat (NumberOfSections nt_header) * sizeof_section_header) c in
  (* the headers now in the output view are a copy of the source's *)
  let dst_nt_header := nt_header in
  let align := FileAlignment dst_nt_header in
  let c := ROUND_UP_DST_AND_ZERO align c in
  let dst_nt_header := set_SizeOfHeaders (DWORD (dst c)) dst_nt_header in
  let '(table, c) :=
    copy_sections t p info src align 0 section (sections dst_nt_header) c in
  let dst_nt_header := with_sections table dst_nt_header in
  (* Copy remainder of source image.  *)
  last ← last_raw section;
  let offset := ROUND_UP (raw_end last) (FileAlignment nt_header) in
  let c := COPY_CHUNK t "Copying remainder of executable..." src offset
             (size p_infile - offset) c in
  (* Final size for new image.  *)
  let out_size := DWORD (dst c) in
  (* Now patch up remaining file-relative offsets.  *)
  '(table, initialized, uninitialized) ←
    patch_sections t section align 0 (NumberOfSections dst_nt_header)
      (sections dst_nt_header, 0, 0);
  let dst_nt_header :=
    set_data_sizes initialized uninitialized (with_sections table dst_nt_header) in
  symtab ← ADJUST_OFFSET t (PointerToSymbolTable dst_nt_header) section
             (sections dst_nt_header);
  let dst_nt_header := set_PointerToSymbolTable symtab dst_nt_header in
  m ← patch_debug_directory t section dst_nt_header (view c);
  Some ({| name := name p_outfile; size := out_size; file := file p_outfile;
           base_address := base_address p_outfile;
           file_base := {| e_magic := e_magic dos_header;
                           e_lfanew := e_lfanew dos_header;
                           nt_headers := dst_nt_header;
                           contents := m |} |},
        chunks c).

(** The lines that the verbose branch of [COPY_CHUNK], or of
    [COPY_PROC_CHUNK], prints for a chunk. *)
Definition chunk_report (t : target) (p_outfile : file_data) (k : chunk)
  : list diagnostic :=
  if from_process k then
    [Chunk_message (message k);
     Address_in_process (source k);
     Base_output_file (base_address p_outfile);
     Offset__in_output_file (DWORD_PTR t (destination k));
     Address_in_output_file (DWORD_PTR t (base_address p_outfile + destination k));
     Size_in_bytes (count k)]
  else
    [Chunk_message (message k);
     Offset_in_input_file (DWORD_PTR t (source k));
     Offset_in_output_file (DWORD_PTR t (destination k));
     Size_in_bytes (count k)].

Definition print_lines (l : list diagnostic) : M unit :=
  fun w => (with_stdout (stdout w ++ l) w, Done tt).

(** [copy_executable_and_dump_data] in its environment.  The function
    starts with [be_verbose = GetEnvironmentVariable ("DEBUG_DUMP", NULL,
    0) > 0] and, when verbose, prints the lines of each chunk before it
    copies it; it prints nothing else, and nothing else is printed while
    it runs, so that the lines come out chunk after chunk as they are
    printed here.  A copy that is not defined is an undefined run. *)
Definition copy_and_report (t : target) (p : process) (info : section_info)
    (p_infile p_outfile : file_data) : M (file_data * list chunk) :=
  do size_needed <- GetEnvironmentVariable "DEBUG_DUMP";
  let be_verbose := 0 <? size_needed in
  do dumped <- deref (copy_executable_and_dump_data t p info p_infile p_outfile);
  (if be_verbose
   then print_lines (concat (map (chunk_report t p_outfile) dumped.2))
   else ret tt) ;;
  ret dumped.

(** ** The Win32 file calls *)

Definition blank_headers : IMAGE_NT_HEADERS :=
  {| Signature := 0; PointerToSymbolTable := 0; SizeOfOptionalHeader := 0;
     SizeOfInitializedData := 0; SizeOfUninitializedData := 0;
     ImageBase := 0; FileAlignment := 0; SizeOfHeaders := 0; CheckSum := 0;
     DebugDirectory := (0, 0); sections := [] |}.

(** The view of a file that has just been created: every byte is zero. *)
Definition blank_image : image :=
  {| e_magic := 0; e_lfanew := 0; nt_headers := blank_headers;
     contents := fun _ => 0 |}.

(** [DeleteFileA]: removes the name from the directory unless the file is
    protected; the result of the call is not looked at.  Other names
    linked to the same object keep it. *)
Definition DeleteFileA (filename : string) : M unit :=
  fun w =>
    match directory w !! filename with
    | Some id =>
        match disk w !! id with
        | Some f =>
            if f_protected f then (w, Done tt)
            else (with_files (delete filename (directory w)) (disk w) w, Done tt)
        | None => (with_files (delete filename (directory w)) (disk w) w, Done tt)
        end
    | None => (w, Done tt)
    end.

(** [CreateFileA (filename, GENERIC_READ | GENERIC_WRITE, 0, NULL,
    CREATE_ALWAYS, FILE_ATTRIBUTE_NORMAL, 0)]: an existing file is
    truncated in place (the same object, whatever other names link to
    it), a missing one is created as a new object; [None] is
    [INVALID_HANDLE_VALUE]. *)
Definition CreateFileA_CREATE_ALWAYS (filename : string) : M (option nat) :=
  fun w =>
    let empty := {| f_image := blank_image; f_length := 0; f_protected := false |} in
    match directory w !! filename with
    | Some id =>
        match disk w !! id with
        | Some f =>
            if f_protected f then (w, Done None)
            else (with_files (directory w) (<[id := empty]> (disk w)) w,
                  Done (Some id))
        | None => (w, Done None)
        end
    | None =>
        let id := fresh (dom (disk w)) in
        (with_files (<[filename := id]> (directory w)) (<[id := empty]> (disk w)) w,
         Done (Some id))
    end.

(** [CreateFileMapping (file, NULL, PAGE_READWRITE, 0, size, NULL)] grows
    the file to [size] bytes; a mapping of no bytes is refused. *)
Definition CreateFileMapping (file : nat) (sz : Z) : M (option nat) :=
  fun w =>
    match disk w !! file with
    | Some f =>
        if sz =? 0 then (w, Done None)
        else (with_files (directory w)
                (<[file := {| f_image := f_image f; f_length := sz;
                              f_protected := f_protected f |}]> (disk w)) w,
              Done (Some file))
    | None => (w, Done None)
    end.

(** [MapViewOfFile]: the view of the file object, mapped at
    [view_address]. *)
Definition view_address : Z := 0x10000.

Definition MapViewOfFile (file_mapping : nat) : M (option image) :=
  fun w => (w, Done (f_image <$> disk w !! file_mapping)).

(** ** [open_output_file] *)

(** [None] is the result [FALSE]. *)
Definition open_output_file (filename : string) (sz : Z) : M (option file_data) :=
  DeleteFileA filename ;;
  do file <- CreateFileA_CREATE_ALWAYS filename;
  match file with
  | None => ret None
  | Some file =>
      do file_mapping <- CreateFileMapping file sz;
      match file_mapping with
      | None => ret None
      | Some file_mapping =>
          do file_base <- MapViewOfFile file_mapping;
          match file_base with
          | None => ret None
          | Some file_base =>
              ret (Some {| name := filename; size := sz; file := file;
                           base_address := view_address;
                           file_base := file_base |})
          end
      end
  end.

(** Modelled from the spec: [open_input_file], a function of the program
    that is not among these sources; the spec has the source file opened
    read-only and mapped. *)
Definition open_input_file (filename : string) : M (option file_data) :=
  fun w =>
    match directory w !! filename ≫= (disk w !!.) with
    | Some f =>
        (w, Done (Some {| name := filename; size := f_length f;
                          file := default O (directory w !! filename);
                          base_address := view_address;
                          file_base := f_image f |}))
    | None => (w, Done None)
    end.

(** Modelled from the spec: [close_file_data], a function of the program
    that is not among these sources; the spec has it unmap the view and
    release the handle.  What was written through the view is the content
    of the file from then on. *)
Definition close_file_data (p_file : file_data) (writable : bool) : M unit :=
  fun w =>
    if writable then
      match disk w !! file p_file with
      | Some f =>
          (with_files (directory w)
             (<[file p_file := {| f_image := file_base p_file;
                                  f_length := f_length f;
                                  f_protected := f_protected f |}]> (disk w)) w,
           Done tt)
      | None => (w, Done tt)
      end
    else (w, Done tt).

(** ** [unexec] *)

Definition MAX_PATH : nat := 260.

(** The loop that turns every backslash of the file name into a slash
    (one [char] per character). *)
Fixpoint slashes (s : string) : string :=
  match s with
  | EmptyString => EmptyString
  | String a r =>
      String (if Ascii.eqb a "\"%char then "/"%char else a) (slashes r)
  end.

(** [strrchr (s, c)] as the index of the last [c] in [s]. *)
Fixpoint strrchr (s : string) (c : ascii) : option nat :=
  match s with
  | EmptyString => None
  | String a r =>
      match strrchr r c with
      | Some k => Some (S k)
      | None => if Ascii.eqb a c then Some O else None
      end
  end.

(** The string at [s + k], and the [k] characters before it. *)
Definition string_from (k : nat) (s : string) : string :=
  substring k (String.length s - k) s.

Definition string_upto (k : nat) (s : string) : string := substring 0 k s.

(** The name of the file [unexec] writes: the directory of the running
    executable, the base name asked for, and ".exe" unless the name ends
    in it.  [Undefined] where a buffer of [MAX_PATH] bytes is overrun or
    read before its start. *)
Definition output_filename (in_filename new_name_a : string) : outcome string :=
  let out_filename := in_filename in
  (* Change the base of the output filename to match the requested name.  *)
  match strrchr out_filename "/" with
  | None => Aborted
  | Some p =>
      match strrchr new_name_a "/" with
      | None => Aborted
      | Some q =>
          let out_filename :=
            (string_upto p out_filename +:+ string_from q new_name_a)%string in
          if bool_decide (MAX_PATH <= String.length out_filename)%nat then Undefined
          else if bool_decide (String.length out_filename < 4)%nat then Undefined
          else if String.eqb (string_from (String.length out_filename - 4) out_filename)
                    ".exe"
          then Done out_filename
          else if bool_decide (MAX_PATH <= String.length out_filename + 4)%nat
          then Undefined
          else Done (out_filename +:+ ".exe")%string
      end
  end.

Definition lift {A} (o : outcome A) : M A := fun w => (w, o).

Definition GetModuleFileNameA : M (option string) :=
  fun w => (w, Done (module_file_name w)).

Definition GetProcAddress_CheckSumMappedFile : M (option (image -> Z -> Z)) :=
  fun w => (w, Done (CheckSumMappedFile w)).

Definition with_nt_headers (h : IMAGE_NT_HEADERS) (im : image) : image :=
  {| e_magic := e_magic im; e_lfanew := e_lfanew im; nt_headers := h;
     contents := contents im |}.

Definition with_file_base (im : image) (f : file_data) : file_data :=
  {| name := name f; size := size f; file := file f;
     base_address := base_address f; file_base := im |}.

Definition unexec (c : config) (p : process) (new_name old_name : string)
  : M unit :=
  (* Ignore old_name, and get our actual location from the OS.  *)
  do got <- GetModuleFileNameA;
  match got with
  | None => abort
  | Some in_filename =>
      let in_filename := slashes in_filename in
      let new_name_a := filename_to_ansi c new_name in
      do out_filename <- lift (output_filename in_filename new_name_a);
      printf (Dumping_from in_filename) ;;
      printf (Dumping_to out_filename) ;;
      (* Open the undumped executable file.  *)
      do opened <- open_input_file in_filename;
      match opened with
      | None =>
          do e <- GetLastError;
          printf (Failed_to_open in_filename e) ;; exit 1
      | Some in_file =>
          (* Get the interesting section info, like start and size of .bss...  *)
          do info <- get_section_info c p in_file;
          let sz := DWORD (size in_file + extra_bss_size info
                           + extra_bss_size_static info) in
          do created <- open_output_file out_filename sz;
          match created with
          | None =>
              do e <- GetLastError;
              printf (Failed_to_open out_filename e) ;; exit 1
          | Some out_file =>
              do dumped <- copy_and_report (cfg_target c) p info in_file out_file;
              let out_file := dumped.1 in
              (* Patch up header fields; profiler is picky about this. *)
              let nt_header := set_CheckSum 0 (nt_headers (file_base out_file)) in
              let out_image := with_nt_headers nt_header (file_base out_file) in
              do pfnCheckSumMappedFile <- GetProcAddress_CheckSumMappedFile;
              let out_image :=
                match pfnCheckSumMappedFile with
                | Some f =>
                    with_nt_headers
                      (set_CheckSum (DWORD (f out_image (size out_file))) nt_header)
                      out_image
                | None => out_image
                end in
              close_file_data in_file false ;;
              close_file_data (with_file_base out_image out_file) true
          end
      end
  end.

(** * What the properties are stated with *)

(** A section whose name fills all eight bytes of the field. *)
Definition textbss : IMAGE_SECTION_HEADER :=
  {| Name := bytes_of_string ".textbss"; VirtualSize := 0x1234;
     VirtualAddress := 0x1000; SizeOfRawData := 0; PointerToRawData := 0;
     PointerToRelocations := 0; PointerToLinenumbers := 0;
     NumberOfRelocations := 0; NumberOfLinenumbers := 0;
     Characteristics := 0xE0000080 |}.

(** The raw-data range of a section covers a file offset. *)
Definition covers (offset : Z) (s : IMAGE_SECTION_HEADER) : Prop :=
  PointerToRawData s <= offset < PointerToRawData s + SizeOfRawData s.

(** The last section of a table that has raw data, by the words of the
    spec. *)
Definition last_with_raw_data (l : list IMAGE_SECTION_HEADER)
  : option IMAGE_SECTION_HEADER :=
  last (filter (fun s => PointerToRawData s <> 0) l).

(** The raw-data fields are [DWORD]s and the raw data ends within 4 GB. *)
Definition fits (s : IMAGE_SECTION_HEADER) : bool :=
  (0 <=? PointerToRawData s) && (0 <=? SizeOfRawData s)
  && (PointerToRawData s + SizeOfRawData s <? 2 ^ 32).

(** "Sections are laid out in the table in ascending file-offset order":
    the raw data of a section ends before the raw data of every later
    section that has some. *)
Fixpoint ascending (l : list IMAGE_SECTION_HEADER) : bool :=
  match l with
  | [] => true
  | s :: r =>
      forallb (fun s' => (SizeOfRawData s' =? 0)
                         || (PointerToRawData s + SizeOfRawData s
                             <=? PointerToRawData s')) r
      && ascending r
  end.

Definition layout_ok (l : list IMAGE_SECTION_HEADER) : bool :=
  forallb fits l && ascending l.

(** Two entries agree on where the raw data is and how long it is. *)
Definition same_raw_data (s d : IMAGE_SECTION_HEADER) : Prop :=
  PointerToRawData s = PointerToRawData d /\ SizeOfRawData s = SizeOfRawData d.



(** A small image and process: headers of 188 bytes (alignment 16), a
    code section, a data section, a bss section without raw data and a
    resource section, 6 bytes after the last raw data, and bss areas that
    overlap. *)
Definition example_section (n : string) (vsize va rsize rptr flags : Z)
  : IMAGE_SECTION_HEADER :=
  {| Name := bytes_of_string n; VirtualSize := vsize; VirtualAddress := va;
     SizeOfRawData := rsize; PointerToRawData := rptr;
     PointerToRelocations := 0; PointerToLinenumbers := 0;
     NumberOfRelocations := 0; NumberOfLinenumbers := 0;
     Characteristics := flags |}.

Definition example_sections : list IMAGE_SECTION_HEADER :=
  [example_section ".text" 32 0x1000 32 192 0x20;
   example_section ".data" 16 0x2000 16 224 0x40;
   example_section ".bss" 0x100 0x3000 0 0 0x80;
   example_section ".rsrc" 16 0x4000 16 240 0x40].

Definition example_headers : IMAGE_NT_HEADERS :=
  {| Signature := IMAGE_NT_SIGNATURE; PointerToSymbolTable := 258;
     SizeOfOptionalHeader := 0; SizeOfInitializedData := 32;
     SizeOfUninitializedData := 256; ImageBase := 0x400000;
     FileAlignment := 16; SizeOfHeaders := 192; CheckSum := 7;
     DebugDirectory := (0, 0); sections := example_sections |}.

Definition example_image : image :=
  {| e_magic := IMAGE_DOS_SIGNATURE; e_lfanew := 4;
     nt_headers := example_headers; contents := fun a => a mod 251 |}.

Definition example_process : process :=
  {| module_handle := 0x400000;
     my_begdata := 0x402000; my_edata := 0x40200f;
     my_begbss := 0x403000; my_endbss := 0x403020;
     my_begbss_static := 0x403010; my_endbss_static := 0x403030;
     memory := fun _ => 0xAA |}.

Definition example_config : config :=
  {| cfg_target := Win32; cfg_alpha := false; filename_to_ansi := fun s => s |}.

Definition example_file : file_data :=
  {| name := "C:/bin/temacs.exe"; size := 262; file := 0;
     base_address := view_address; file_base := example_image |}.

Definition example_world : world :=
  {| stdout := [];
     directory := {[ "C:/bin/temacs.exe"%string := 0%nat ]};
     disk := {[ 0%nat := {| f_image := example_image; f_length := 262;
                            f_protected := false |} ]};
     module_file_name := Some "C:\bin\temacs.exe"%string;
     CheckSumMappedFile := None; last_error := 0; environment := ∅ |}.


(** [open_output_file] from the call of [CreateFileA] on. *)
Definition create_and_map (filename : string) (sz : Z) : M (option file_data) :=
  bind (CreateFileA_CREATE_ALWAYS filename) (fun file =>
    match file with
    | None => ret None
    | Some file =>
        bind (CreateFileMapping file sz) (fun file_mapping =>
          match file_mapping with
          | None => ret None
          | Some file_mapping =>
              bind (MapViewOfFile file_mapping) (fun file_base =>
                match file_base with
                | None => ret None
                | Some file_base =>
                    ret (Some {| name := filename; size := sz; file := file;
                                 base_address := view_address;
                                 file_base := file_base |})
                end)
          end)
    end).

(** An address of the running process lies in the address range of a
    section; an area of the process, given by its first and last address,
    lies within one section of a table, or at least starts in one. *)
Definition lies_in (t : target) (p : process) (addr : Z)
    (s : IMAGE_SECTION_HEADER) : Prop :=
  rva_in_section (PTR_TO_RVA t p addr) s = true.

Definition within_one_section (t : target) (p : process)
    (table : list IMAGE_SECTION_HEADER) (area : Z * Z) : Prop :=
  exists k s, table !! k = Some s /\ lies_in t p area.1 s /\ lies_in t p area.2 s.

Definition starts_in_a_section (t : target) (p : process)
    (table : list IMAGE_SECTION_HEADER) (area : Z * Z) : Prop :=
  exists k s, table !! k = Some s /\ lies_in t p area.1 s.

(** The image has a section named EMDATA. *)
Definition has_EMDATA (p_infile : file_data) : bool :=
  let im := file_base p_infile in
  match find_section (bytes_of_string "EMDATA") (sections (nt_headers im))
          (view_bytes (contents im) (section_table_end im) (size p_infile)) with
  | Some (Some _) => true
  | _ => false
  end.

(** The areas of the process that the analyzer tracks by their bounding
    symbols; with a section EMDATA the data area is that section
    itself. *)
Definition tracked_regions (p : process) (p_infile : file_data) : list (Z * Z) :=
  (if has_EMDATA p_infile then [] else [(my_begdata p, my_edata p)])
  ++ [(my_begbss p, my_endbss p); (my_begbss_static p, my_endbss_static p)].

(** The diagnostics with which the analyzer gives up. *)
Definition bailing (d : diagnostic) : bool :=
  match d with
  | Unknown_EXE_header _ | Failed_to_find_IMAGE_NT_HEADER _
  | Invalid_IMAGE_NT_SIGNATURE _ _
  | Initialized_data_not_in_a_single_section
  | Uninitialized_data_not_in_a_single_section
  | Uninitialized_static_data_not_in_a_single_section
  | BSS_data_not_in_a_single_section => true
  | _ => false
  end.

(** The header signatures that the analyzer checks are the right ones. *)
Definition valid_headers (c : config) (p_infile : file_data) : bool :=
  (e_magic (file_base p_infile) =? IMAGE_DOS_SIGNATURE)
  && negb (DWORD_PTR (cfg_target c)
             (base_address p_infile + e_lfanew (file_base p_infile)) =? 0)
  && (Signature (nt_headers (file_base p_infile)) =? IMAGE_NT_SIGNATURE).

(** The data area is the section EMDATA, or else its two ends are in the
    same section. *)
Definition data_area_ok (c : config) (p : process) (p_infile : file_data) : bool :=
  let table := sections (nt_headers (file_base p_infile)) in
  has_EMDATA p_infile
  || same_section (rva_to_section (PTR_TO_RVA (cfg_target c) p (my_begdata p)) table)
       (rva_to_section (PTR_TO_RVA (cfg_target c) p (my_edata p)) table).






(** A file name with the suffix ".exe" appended unless it ends in it. *)
Definition with_exe_suffix (s : string) : string :=
  if String.eqb (string_from (String.length s - 4) s) ".exe" then s
  else (s +:+ ".exe")%string.

(** The part of a file name before its last slash, and the part from that
    slash on. *)
Definition directory_of (s : string) : string :=
  match strrchr s "/" with
  | Some k => string_upto k s
  | None => s
  end.

Definition base_name (s : string) : string :=
  match strrchr s "/" with
  | Some k => string_from k s
  | None => s
  end.

(** The value of [be_verbose] in a run of the copier, what a verbose
    copier prints for its chunks, and the world after a copier that has
    copied the chunks [l]. *)
Definition be_verbose (w : world) : bool :=
  0 <? match environment w !! "DEBUG_DUMP"%string with
       | Some value => Z.of_nat (String.length value) + 1
       | None => 0
       end.

Definition copier_report (t : target) (p_outfile : file_data) (l : list chunk)
  : list diagnostic :=
  concat (map (chunk_report t p_outfile) l).

Definition reported (t : target) (p_outfile : file_data) (l : list chunk)
    (w : world) : world :=
  if be_verbose w then with_stdout (stdout w ++ copier_report t p_outfile l) w
  else w.

(** The stages of a run of [unexec] in the world [w]: the name of the
    running executable as the system gives it and the name under which
    the run writes, the input file as it is opened, what the analyzer
    finds in it, the output file as it is opened, and the copy. *)
Definition stages (c : config) (p : process) (new_name : string) (w : world)
    (in_filename out_filename : string) (in_file : file_data)
    (info : section_info) (out_file : file_data)
    (dumped : file_data * list chunk) : Prop :=
  module_file_name w = Some in_filename
  /\ output_filename (slashes in_filename) (filename_to_ansi c new_name)
     = Done out_filename
  /\ (open_input_file (slashes in_filename) w).2 = Done (Some in_file)
  /\ (get_section_info c p in_file w).2 = Done info
  /\ (open_output_file out_filename
        (DWORD (size in_file + extra_bss_size info
                + extra_bss_size_static info)) w).2
     = Done (Some out_file)
  /\ copy_executable_and_dump_data (cfg_target c) p info in_file out_file
     = Some dumped.

(** A function that leaves the files alone, however it ends. *)
Definition keeps_files {A} (m : M A) : Prop :=
  forall w, directory (m w).1 = directory w /\ disk (m w).1 = disk w.

(** The copier after the headers and their alignment, and after the loop
    over the sections. *)
Definition after_headers (t : target) (p_infile p_outfile : file_data) : copier :=
  let dos_header := file_base p_infile in
  let nt_header := nt_headers dos_header in
  let src := contents dos_header in
  ROUND_UP_DST_AND_ZERO (FileAlignment nt_header)
    (COPY_CHUNK t "Copying section table..." src
       (e_lfanew dos_header + first_section_offset nt_header)
       (Z.of_nat (NumberOfSections nt_header) * sizeof_section_header)
       (COPY_CHUNK t "Copying NT header..." src (e_lfanew dos_header)
          (first_section_offset nt_header)
          (COPY_CHUNK t "Copying DOS header..." src 0 (e_lfanew dos_header)
             {| dst := 0; view := contents (file_base p_outfile);
                chunks := [] |}))).

Definition after_sections (t : target) (p : process) (info : section_info)
    (p_infile p_outfile : file_data) : list IMAGE_SECTION_HEADER * copier :=
  let nt_header := nt_headers (file_base p_infile) in
  copy_sections t p info (contents (file_base p_infile))
    (FileAlignment nt_header) 0 (sections nt_header) (sections nt_header)
    (after_headers t p_infile p_outfile).

(** The table has a section with raw data. *)
Definition has_raw_data (l : list IMAGE_SECTION_HEADER) : Prop :=
  exists s, s ∈ l /\ PointerToRawData s <> 0.

(** A source layout without gaps: from offset [pos] on, the raw data of
    each section that has some starts at the alignment boundary that
    follows the raw data of the section before; a section without raw
    data has no raw-data size either.  [compact_end] is where the raw
    data of the last section ends, rounded up. *)
Fixpoint compact (align pos : Z) (l : list IMAGE_SECTION_HEADER) : bool :=
  match l with
  | [] => true
  | s :: r =>
      (if PointerToRawData s =? 0 then SizeOfRawData s =? 0
       else PointerToRawData s =? pos)
      && (0 <=? SizeOfRawData s)
      && compact align (ROUND_UP (pos + SizeOfRawData s) align) r
  end.

Fixpoint compact_end (align pos : Z) (l : list IMAGE_SECTION_HEADER) : Z :=
  match l with
  | [] => pos
  | s :: r => compact_end align (ROUND_UP (pos + SizeOfRawData s) align) r
  end.

(** The offset of an address of the process from the start of a
    section. *)
Definition section_offset (t : target) (p : process)
    (s : IMAGE_SECTION_HEADER) (addr : Z) : Z :=
  RVA_TO_SECTION_OFFSET t (PTR_TO_RVA t p addr) s.

(** Where the bss area of [info] ends in its section, as the copier
    computes it. *)
Definition bss_end_offset (t : target) (p : process) (info : section_info)
    (s : IMAGE_SECTION_HEADER) : Z :=
  section_offset t p s (bss_start info) + DWORD_PTR t (bss_size info).


(** The section table of the example once its bss area of 48 bytes has
    been dumped, a process whose bss area runs from the bss section into
    the next one, and the output file as [unexec] opens it. *)
Definition dumped_sections : list IMAGE_SECTION_HEADER :=
  [example_section ".text" 32 0x1000 32 192 0x20;
   example_section ".data" 16 0x2000 16 224 0x40;
   example_section ".bss" 0x100 0x3000 48 240 0x40;
   example_section ".rsrc" 16 0x4000 16 288 0x40].

Definition spanning_process : process :=
  {| module_handle := 0x400000;
     my_begdata := 0x402000; my_edata := 0x40200f;
     my_begbss := 0x403000; my_endbss := 0x404008;
     my_begbss_static := 0x403010; my_endbss_static := 0x403030;
     memory := fun _ => 0xAA |}.

Definition example_output : file_data :=
  {| name := "C:/bin/emacs.exe"; size := 310; file := 1;
     base_address := view_address; file_base := blank_image |}.

Definition example_run : world * outcome unit :=
  unexec example_config example_process "D:/out/emacs" "" example_world.

(** The same run with the variable DEBUG_DUMP in the environment. *)
Definition verbose_world : world :=
  {| stdout := stdout example_world; directory := directory example_world;
     disk := disk example_world;
     module_file_name := module_file_name example_world;
     CheckSumMappedFile := CheckSumMappedFile example_world;
     last_error := last_error example_world;
     environment := {[ "DEBUG_DUMP"%string := "1"%string ]} |}.

Definition verbose_run : world * outcome unit :=
  unexec example_config example_process "D:/out/emacs" "" verbose_world.

(** What identifies a section in the table: every field but the raw-data
    offset and size, the line-number pointer and the characteristics. *)
Definition frame_fields (s : IMAGE_SECTION_HEADER) : list Z * Z * Z * Z * Z * Z :=
  (Name s, VirtualSize s, VirtualAddress s, PointerToRelocations s,
   NumberOfRelocations s, NumberOfLinenumbers s).

(** Section [i] owns one of the areas that are dumped; it owns a bss
    area, so that it may grow. *)
Definition owner (info : section_info) (i : nat) : Prop :=
  data_section info = Some i \/ bss_section info = Some i
  \/ bss_section_static info = Some i.

Definition grown (info : section_info) (i : nat) : Prop :=
  bss_section info = Some i \/ bss_section_static info = Some i.

(** The offset [a] of the output lies in the [PointerToRawData] field of
    an entry of the debug directory, as the patcher locates the
    directory through the headers [h] of the output. *)
Definition in_debug_field (t : target) (h : IMAGE_NT_HEADERS) (a : Z) : Prop :=
  match rva_to_section (DebugDirectory h).1 (sections h) ≫= (sections h !!.) with
  | Some section =>
      exists j, 0 <= j < Z.of_nat (Z.to_nat ((DebugDirectory h).2
                                             / sizeof_debug_directory))
        /\ let field := RVA_TO_OFFSET t (DebugDirectory h).1 section
                         + sizeof_debug_directory * j + debug_PointerToRawData in
           field <= a < field + 4
  | None => False
  end.

(** The copier after the remainder of the source has been copied. *)
Definition after_remainder (t : target) (p : process) (info : section_info)
    (p_infile p_outfile : file_data) (last : IMAGE_SECTION_HEADER) : copier :=
  let nt_header := nt_headers (file_base p_infile) in
  let offset := ROUND_UP (raw_end last) (FileAlignment nt_header) in
  COPY_CHUNK t "Copying remainder of executable..."
    (contents (file_base p_infile)) offset (size p_infile - offset)
    (after_sections t p info p_infile p_outfile).2.

(** The claim of C6 on the bytes between the section table and the first
    raw data: they are none of the fields and contents that the claim
    lets change, so they would be the same in the source and in the
    output. *)
Definition bytes_before_sections_unchanged (src out : image) : Prop :=
  forall a, section_table_end src <= a ->
    (forall s, s ∈ sections (nt_headers src) ++ sections (nt_headers out) ->
               PointerToRawData s = 0 \/ a < PointerToRawData s) ->
    contents out a = contents src a.

(** The image that the run of the example leaves under the new name. *)
Definition example_dumped_image : image :=
  match disk example_run.1 !! 1%nat with
  | Some f => f_image f
  | None => blank_image
  end.

(** The copier run on the example, with the areas that the analyzer
    finds in it. *)
Definition example_info : section_info :=
  match (get_section_info example_config example_process example_file
           example_world).2 with
  | Done info => info
  | _ => {| data_section := None; data_start := 0; data_size := 0;
            bss_section := None; bss_start := 0; bss_size := 0;
            extra_bss_size := 0; bss_section_static := None;
            bss_start_static := 0; bss_size_static := 0;
            extra_bss_size_static := 0 |}
  end.

Definition example_copy : option (file_data * list chunk) :=
  copy_executable_and_dump_data Win32 example_process example_info
    example_file example_output.

Definition example_out : file_data :=
  match example_copy with
  | Some (out, _) => out
  | None => example_output
  end.

Definition example_chunks : list chunk :=
  match example_copy with
  | Some (_, l) => l
  | None => []
  end.

(** The bss area ends within 4 GB of the start of the section that owns
    it, with room for the alignment. *)
Definition bss_area_fits (t : target) (p : process) (info : section_info)
    (align : Z) (l : list IMAGE_SECTION_HEADER) : Prop :=
  forall i s, l !! i = Some s -> bss_section info = Some i ->
    bss_end_offset t p info s + align <= 2 ^ 32.

(** The bytes of the NT headers in which the fields lie that the copier
    writes: [FileHeader.PointerToSymbolTable] (at offset 12 of the
    headers), and [SizeOfInitializedData], [SizeOfUninitializedData] and
    [SizeOfHeaders] of the optional header (at offsets 32, 36 and 84). *)
Definition in_patched_header_field (src : image) (a : Z) : Prop :=
  let o := a - e_lfanew src in
  12 <= o < 16 \/ 32 <= o < 40 \/ 84 <= o < 88.

(** The example with a gap of 16 bytes between the end of the headers,
    rounded up, and the first raw data. *)
Definition padded_sections : list IMAGE_SECTION_HEADER :=
  [example_section ".text" 32 0x1000 32 208 0x20;
   example_section ".data" 16 0x2000 16 240 0x40;
   example_section ".bss" 0x100 0x3000 0 0 0x80;
   example_section ".rsrc" 16 0x4000 16 256 0x40].

Definition padded_file : file_data :=
  {| name := "C:/bin/temacs.exe"; size := 278; file := 0;
     base_address := view_address;
     file_base := {| e_magic := IMAGE_DOS_SIGNATURE; e_lfanew := 4;
                     nt_headers := with_sections padded_sections example_headers;
                     contents := contents example_image |} |}.

Definition padded_copy : option (file_data * list chunk) :=
  copy_executable_and_dump_data Win32 example_process example_info
    padded_file example_output.

Definition padded_out : file_data :=
  match padded_copy with
  | Some (out, _) => out
  | None => example_output
  end.

Definition padded_chunks : list chunk :=
  match padded_copy with
  | Some (_, l) => l
  | None => []
  end.

(** A C string: no byte of it is the terminator. *)
Definition c_string (l : list Z) : Prop := Forall (fun b => b <> 0) l.

(** The total that "Recompute data sizes for completeness" adds up over a
    table: the virtual sizes, rounded up to the file alignment, of the
    sections that [counted] selects. *)
Definition aligned_virtual_sizes (align : Z)
    (counted : IMAGE_SECTION_HEADER -> bool) (l : list IMAGE_SECTION_HEADER) : Z :=
  foldr (fun d acc =>
           (if counted d then ROUND_UP (VirtualSize d) align else 0) + acc) 0 l.

(** How the loop classes a section: as initialized data when that flag
    is set, else as uninitialized data when that one is. *)
Definition counts_as_initialized (d : IMAGE_SECTION_HEADER) : bool :=
  has_flag IMAGE_SCN_CNT_INITIALIZED_DATA d.

Definition counts_as_uninitialized (d : IMAGE_SECTION_HEADER) : bool :=
  negb (has_flag IMAGE_SCN_CNT_INITIALIZED_DATA d)
  && has_flag IMAGE_SCN_CNT_UNINITIALIZED_DATA d.

(** A function that changes nothing of the world when it returns (it may
    print before it exits). *)
Definition returns_quietly {A} (m : M A) : Prop :=
  forall w w' a, m w = (w', Done a) -> w' = w.

(** The image that [unexec] leaves in the output file: that of the copier
    with the checksum field set, to 0 when [CheckSumMappedFile] cannot be
    had. *)
Definition checksum_of (f : option (image -> Z -> Z)) (out_file : file_data) : Z :=
  match f with
  | Some f =>
      DWORD (f (with_nt_headers (set_CheckSum 0 (nt_headers (file_base out_file)))
                  (file_base out_file))
               (size out_file))
  | None => 0
  end.

(** A function whose outcome does not depend on the world it runs in. *)
Definition blind {A} (m : M A) : Prop :=
  forall w w', (m w).2 = (m w').2.

(** The example with its data section named EMDATA. *)
Definition emdata_sections : list IMAGE_SECTION_HEADER :=
  [example_section ".text" 32 0x1000 32 192 0x20;
   example_section "EMDATA" 16 0x2000 16 224 0x40;
   example_section ".bss" 0x100 0x3000 0 0 0x80;
   example_section ".rsrc" 16 0x4000 16 240 0x40].

Definition emdata_file : file_data :=
  with_file_base
    (with_nt_headers (with_sections emdata_sections example_headers)
       example_image)
    example_file.

(** A process whose two bss areas lie apart, and the example built for
    the Alpha. *)
Definition apart_process : process :=
  {| module_handle := 0x400000;
     my_begdata := 0x402000; my_edata := 0x40200f;
     my_begbss := 0x403000; my_endbss := 0x403010;
     my_begbss_static := 0x403020; my_endbss_static := 0x403030;
     memory := fun _ => 0xAA |}.

Definition alpha_config : config :=
  {| cfg_target := Win32; cfg_alpha := true;
     filename_to_ansi := filename_to_ansi example_config |}.

(** An image with a debug directory: one entry at the start of the last
    section, whose raw-data pointer (at offset 24 of the entry) holds
    230, an offset within that section. *)
Definition debug_sections : list IMAGE_SECTION_HEADER :=
  [example_section ".text" 32 0x1000 32 192 0x20;
   example_section ".bss" 0x100 0x3000 0 0 0x80;
   example_section ".rdata" 32 0x4000 32 224 0x40].

Definition debug_image : image :=
  {| e_magic := IMAGE_DOS_SIGNATURE; e_lfanew := 4;
     nt_headers :=
       {| Signature := IMAGE_NT_SIGNATURE; PointerToSymbolTable := 0;
          SizeOfOptionalHeader := 44; SizeOfInitializedData := 32;
          SizeOfUninitializedData := 256; ImageBase := 0x400000;
          FileAlignment := 16; SizeOfHeaders := 192; CheckSum := 0;
          DebugDirectory := (0x4000, 28); sections := debug_sections |};
     contents := fun a => if a =? 248 then 230
                          else if (249 <=? a) && (a <=? 251) then 0
                          else a mod 251 |}.

Definition debug_file : file_data :=
  {| name := "C:/bin/temacs.exe"; size := 256; file := 0;
     base_address := view_address; file_base := debug_image |}.

Definition debug_info : section_info :=
  match (get_section_info example_config example_process debug_file
           example_world).2 with
  | Done info => info
  | _ => example_info
  end.

Definition debug_copy : option (file_data * list chunk) :=
  copy_executable_and_dump_data Win32 example_process debug_info debug_file
    example_output.

Definition debug_out : file_data :=
  match debug_copy with
  | Some (out, _) => out
  | None => example_output
  end.

Definition debug_chunks : list chunk :=
  match debug_copy with
  | Some (_, l) => l
  | None => []
  end.

(** An image whose only section has no raw data. *)
Definition bare_file : file_data :=
  with_file_base
    (with_nt_headers
       (with_sections [example_section ".bss" 0x100 0x3000 0 0 0x80]
          example_headers)
       example_image)
    example_file.

(** * w32reg: X resources from a resource string and the registry

    A shallow embedding of [src/w32reg.c].  Strings are the bytes they
    hold; a pointer into memory is the list of the bytes from it on, and
    a result is [None] when the code reads past the memory given. *)

(** [tolower] in the C locale. *)
Definition tolower (c : Z) : Z :=
  if (65 <=? c) && (c <=? 90) then c + 32 else c.

(** [strnicmp (a, b, n)]: at most [n] characters are compared, without
    regard to case. *)
Fixpoint strnicmp (a b : list Z) (n : nat) {struct n} : option Z :=
  match n with
  | O => Some 0
  | S n' =>
      match a, b with
      | x :: a', y :: b' =>
          if tolower x =? tolower y
          then (if x =? 0 then Some 0 else strnicmp a' b' n')
          else Some (tolower x - tolower y)
      | _, _ => None
      end
  end.

(** The string at a pointer, as [xstrdup] copies it. *)
Fixpoint string_at (mem : list Z) : option (list Z) :=
  match mem with
  | [] => None
  | x :: r => if x =? 0 then Some [] else (x ::.) <$> string_at r
  end.

(** [strchr (value, '\0') + 1]. *)
Fixpoint past_nul (mem : list Z) : option (list Z) :=
  match mem with
  | [] => None
  | x :: r => if x =? 0 then Some r else past_nul r
  end.

(** The loop of [w32_get_rdb_resource]: [resource] is the name asked
    for, without its terminator; each turn moves [value] on by one byte
    at least.  The inner [None] is [NULL]. *)
Fixpoint w32_get_rdb_resource_loop (fuel : nat) (value resource : list Z)
  : option (option (list Z)) :=
  match fuel with
  | O => None
  | S fuel' =>
      c ← head value;
      if c =? 0 then Some None
      else
        let len := length resource in
        d ← strnicmp value (resource ++ [0]) len;
        found ← (if d =? 0 then ch ← value !! len; Some (ch =? 58)
                 else Some false);
        if found : bool then Some <$> string_at (drop (S len) value)
        else
          value' ← past_nul value;
          w32_get_rdb_resource_loop fuel' value' resource
  end.

Definition w32_get_rdb_resource (rdb resource : list Z)
  : option (option (list Z)) :=
  w32_get_rdb_resource_loop (length rdb) rdb resource.

(** "Default system colors from the Display Control Panel settings": the
    strings that the literal [SYSTEM_DEFAULT_RESOURCES] strings together,
    and the literal, with the terminator that ends it. *)
Definition system_default_entries : list (list Z) :=
  map bytes_of_string
    ["emacs.foreground:SystemWindowText";
     "emacs.background:SystemWindow";
     "emacs.tooltip.attributeForeground:SystemInfoText";
     "emacs.tooltip.attributeBackground:SystemInfoWindow";
     "emacs.tool-bar.attributeForeground:SystemButtonText";
     "emacs.tool-bar.attributeBackground:SystemButtonFace";
     "emacs.tab-bar.attributeForeground:SystemButtonText";
     "emacs.tab-bar.attributeBackground:SystemButtonFace";
     "emacs.menu.attributeForeground:SystemMenuText";
     "emacs.menu.attributeBackground:SystemMenu";
     "emacs.scroll-bar.attributeForeground:SystemScrollbar"]%string.

Definition SYSTEM_DEFAULT_RESOURCES : list Z :=
  concat (map (fun e => e ++ [0]) system_default_entries) ++ [0].

(** The registry: under each hive, the values of the key
    [SOFTWARE\GNU\Emacs] if the key can be opened, each with its type and
    its data. *)
Variant HKEY := HKEY_CURRENT_USER | HKEY_LOCAL_MACHINE.

Definition registry_key : Type := list Z -> option (Z * list Z).
Definition registry : Type := HKEY -> option registry_key.

Definition REG_SZ : Z := 1.

(** [RegQueryValueEx (hrootkey, name, NULL, &dwType, NULL, &cbData)
    == ERROR_SUCCESS && dwType == dwexptype]. *)
Definition has_value_of_type (k : registry_key) (value_name : list Z)
    (dwexptype : Z) : bool :=
  match k value_name with
  | Some (dwType, _) => dwType =? dwexptype
  | None => false
  end.

(** One pass from [trykey]: the data read from a hive, [None] when [ok]
    is left [FALSE]. *)
Definition trykey (reg : registry) (hive : HKEY) (name class : list Z)
    (dwexptype : Z) : option (list Z) :=
  hrootkey ← reg hive;
  keyname ← (if has_value_of_type hrootkey name dwexptype then Some name
             else if has_value_of_type hrootkey class dwexptype then Some class
             else None);
  snd <$> hrootkey keyname.

Definition w32_get_string_resource_1 (reg : registry) (name class : list Z)
    (dwexptype : Z) : option (option (list Z)) :=
  match trykey reg HKEY_CURRENT_USER name class dwexptype with
  | Some lpvalue => Some (Some lpvalue)
  | None =>
      match trykey reg HKEY_LOCAL_MACHINE name class dwexptype with
      | Some lpvalue => Some (Some lpvalue)
      | None =>
          (* Check if there are Windows specific defaults defined.  *)
          w32_get_rdb_resource SYSTEM_DEFAULT_RESOURCES name
      end
  end.

(** [w32_get_string_resource]: [rdb] is the string that [v_rdb] points
    to, [None] for a null pointer. *)
Definition w32_get_string_resource (inhibit_x_resources : bool)
    (reg : registry) (rdb : option (list Z)) (name class : list Z)
  : option (option (list Z)) :=
  from_rdb ←
    match rdb with
    | Some rdb =>
        resource ← w32_get_rdb_resource rdb name;
        match resource with
        | Some v => Some (Some v)
        | None => w32_get_rdb_resource rdb class
        end
    | None => Some None
    end;
  match from_rdb with
  | Some v => Some (Some v)
  | None =>
      if inhibit_x_resources then Some None
      else w32_get_string_resource_1 reg name class REG_SZ
  end.

(** A resource string laid out as the code expects it: entries that each
    end in a terminator, and one more terminator after the last. *)
Definition rdb_of (entries : list (list Z)) : list Z :=
  concat (map (fun e => e ++ [0]) entries) ++ [0].

(** An entry is for a resource when it starts with the name of the
    resource, in whatever case, and a colon; its value is what follows
    the colon. *)
Definition entry_matches (resource e : list Z) : bool :=
  bool_decide (map tolower (take (length resource) e) = map tolower resource)
  && bool_decide (e !! length resource = Some 58).

Definition entry_value (resource e : list Z) : list Z :=
  drop (S (length resource)) e.

Definition first_match (resource : list Z) (entries : list (list Z))
  : option (list Z) :=
  entry_value resource <$> List.find (entry_matches resource) entries.

(** The data of a value of a hive, when the key can be opened and the
    value is there with the type asked for. *)
Definition typed_value (reg : registry) (hive : HKEY) (value_name : list Z)
    (dwexptype : Z) : option (list Z) :=
  hrootkey ← reg hive;
  v ← hrootkey value_name;
  if v.1 =? dwexptype then Some v.2 else None.

(** The first answer in a list of places to look in. *)
Fixpoint first_of {A} (l : list (option A)) : option A :=
  match l with
  | [] => None
  | Some a :: _ => Some a
  | None :: r => first_of r
  end.

(** The places in which a resource is looked for. *)
Definition lookup_order (inhibit_x_resources : bool) (reg : registry)
    (entries : option (list (list Z))) (name class : list Z)
  : list (option (list Z)) :=
  match entries with
  | Some entries => [first_match name entries; first_match class entries]
  | None => []
  end
  ++ (if inhibit_x_resources then []
      else [typed_value reg HKEY_CURRENT_USER name REG_SZ;
            typed_value reg HKEY_CURRENT_USER class REG_SZ;
            typed_value reg HKEY_LOCAL_MACHINE name REG_SZ;
            typed_value reg HKEY_LOCAL_MACHINE class REG_SZ;
            first_match name system_default_entries]).

(** A registry for the examples: a colour for the user, a font for the
    machine, and a value of another type. *)
Definition example_registry : registry :=
  fun hive =>
    match hive with
    | HKEY_CURRENT_USER =>
        Some (fun n =>
                if bool_decide (n = bytes_of_string "emacs.background")
                then Some (REG_SZ, bytes_of_string "black")
                else if bool_decide (n = bytes_of_string "emacs.font")
                then Some (4, [12])
                else None)
    | HKEY_LOCAL_MACHINE =>
        Some (fun n =>
                if bool_decide (n = bytes_of_string "emacs.font")
                then Some (REG_SZ, bytes_of_string "Courier")
                else None)
    end.

(** * movemail: fetching the mail from a POP server

    A shallow embedding of the POP part of [lib-src/movemail.c]:
    [mbx_write], [mbx_delimit_begin], [mbx_delimit_end], [pop_retr],
    [popmail] and the loop of [movemail_strftime].  What the code calls and cannot see into (the POP library,
    the C library on the mailbox file, [errno], the messages to stderr) is
    kept as calls: a program is the tree of the calls it makes, with one
    branch for each answer that a call may get.  The answers are not
    tied to each other ([read_errno] need not answer what [write_errno]
    has set), so that the runs of the program are among those of its
    tree. *)

Definition EXIT_SUCCESS : Z := 0.
Definition EXIT_FAILURE : Z := 1.
Definition EINVAL : Z := 22.

(** What differs between builds: whether [MOVEMAIL_QUOTE_POP_FROM_LINES]
    is defined, and the value of [EOVERFLOW]. *)
Record build := {
  MOVEMAIL_QUOTE_POP_FROM_LINES : bool;
  EOVERFLOW : Z
}.

(** The calls, each with the type of its answer.  A [bool] answer is
    [true] when the call did well: a server or a stream that is not null,
    a descriptor that is not negative, a status of 0, a result of [fputs]
    or [fputc] that is not negative.  [pop_stat] answers the number of
    messages when it does well; [pop_retrieve_next] its result and the
    line (the memory from the pointer on, [None] for a null pointer);
    [strftime] its result and what it has put in the buffer; [fwrite] the
    number of bytes written ([strftime] is [movemail_strftime] on
    MS-Windows).  [pop_open] is called with [POP_NO_GETPASS], [open] with
    [O_WRONLY | O_BINARY | O_CREAT | O_EXCL] and the mode 0666;
    [fstat_st_uid_is_getuid] is [true] when [fstat] does well and gives
    the user as the owner.  [fchown], [fstat_st_uid_is_getuid],
    [fdopen], [fsync] and [close] are calls on the descriptor of the
    mailbox file, the stream calls are calls on its stream.  [error]
    comes with its format and those of its arguments that the program
    holds; the texts of [pop_error] and [strerror] are the
    environment's. *)
Inductive call : Type -> Type :=
| pop_open (hostname : option (list Z)) (username : list Z)
    (password : option (list Z)) : call bool
| pop_stat : call (option Z)
| pop_close : call unit
| pop_retrieve_first (msgno : Z) : call bool
| pop_retrieve_next : call (Z * option (list Z))
| pop_delete (msgno : Z) : call bool
| pop_quit : call bool
| open_O_EXCL (file : list Z) : call bool
| fchown : call bool
| fstat_st_uid_is_getuid : call bool
| fdopen : call bool
| close : call unit
| unlink (file : list Z) : call unit
| localtime : call bool
| strftime (format : list Z) : call (Z * list Z)
| fputs (s : list Z) : call bool
| fputc (c : Z) : call bool
| fwrite (bytes : list Z) : call Z
| fflush : call bool
| fsync : call bool
| fclose : call bool
| read_errno : call Z
| write_errno (e : Z) : call unit
| error (format : string) (args : list (list Z)) : call unit.

(** A program: it returns, or makes a call and goes on with the answer.
    [Unsafe] is a read outside the line at hand, [More] stands for the
    turns of a loop beyond those looked at. *)
Inductive prog (R : Type) : Type :=
| Return (r : R)
| Call {X : Type} (c : call X) (k : X -> prog R)
| Unsafe
| More.

Arguments Return {R} r.
Arguments Call {R X} c k.
Arguments Unsafe {R}.
Arguments More {R}.

Fixpoint and_then {R S} (p : prog R) (k : R -> prog S) : prog S :=
  match p with
  | Return r => k r
  | Call c f => Call c (fun x => and_then (f x) k)
  | Unsafe => Unsafe
  | More => More
  end.

Declare Scope prog_scope.
Delimit Scope prog_scope with prog.
Notation "'ask' x <- c ; k" := (Call c (fun x => k))
  (at level 10, x name, c at level 100, k at level 200,
   format "'[v' 'ask'  x  <-  c ; '/' k ']'") : prog_scope.
Notation "'run' x <- p ; k" := (and_then p (fun x => k))
  (at level 10, x name, p at level 100, k at level 200,
   format "'[v' 'run'  x  <-  p ; '/' k ']'") : prog_scope.

Local Open Scope prog_scope.

(** [mbx_delimit_begin]: the "From " line that starts a message. *)
Definition from_line_format : list Z :=
  bytes_of_string "From movemail %a %b %e %T %Y" ++ [10].

Definition mbx_delimit_begin (b : build) : prog bool :=
  ask ltime <- localtime;
  if negb ltime then Return false
  else
    ask r <- strftime from_line_format;
    if r.1 =? 0 then
      ask _ <- write_errno (EOVERFLOW b);
      Return false
    else
      ask ok <- fputs r.2;
      Return ok.

Definition mbx_delimit_end : prog bool :=
  ask ok <- fputc 10;
  Return ok.

(** The macro [IS_FROM_LINE]: the characters are read one by one, up to
    the first that differs. *)
Fixpoint starts_with (a expected : list Z) : option bool :=
  match expected with
  | [] => Some true
  | e :: expected' =>
      match a with
      | [] => None
      | x :: a' => if x =? e then starts_with a' expected' else Some false
      end
  end.

Definition IS_FROM_LINE (a : list Z) : option bool :=
  starts_with a (bytes_of_string "From ").

(** [fwrite (line, 1, len, mbf) == len && 0 <= fputc ('\n', mbf)] *)
Definition write_line (line : list Z) (len : Z) : prog bool :=
  if (len <? 0) || (Z.of_nat (length line) <? len) then Unsafe
  else
    ask n <- fwrite (take (Z.to_nat len) line);
    if n =? len then
      ask ok <- fputc 10;
      Return ok
    else Return false.

Definition unquoted (line : list Z) (len : Z) : prog bool :=
  match line !! 0%nat with
  | None => Unsafe
  | Some c =>
      if c =? 31 then
        ask ok <- fputs (bytes_of_string "^_");
        if negb ok then Return false
        else write_line (drop 1 line) (len - 1)
      else write_line line len
  end.

Definition mbx_write (b : build) (line : list Z) (len : Z) : prog bool :=
  if MOVEMAIL_QUOTE_POP_FROM_LINES b then
    match IS_FROM_LINE line with
    | None => Unsafe
    | Some true =>
        ask ok <- fputc 62;
        if negb ok then Return false else unquoted line len
    | Some false => unquoted line len
    end
  else unquoted line len.

(** [pop_retr]: the loop over the lines of a message takes as many turns
    as the server sends lines; [turns] of them are looked at. *)
Definition pop_retr_end (ret : Z) : prog bool :=
  if ret =? 0 then Return true
  else
    ask _ <- error "Error from POP server: %s" [];
    ask _ <- write_errno 0;
    Return false.

Fixpoint pop_retr_loop (b : build) (turns : nat) : prog bool :=
  match turns with
  | O => More
  | S turns' =>
      ask r <- pop_retrieve_next;
      if r.1 <? 0 then pop_retr_end r.1
      else
        match r.2 with
        | None => pop_retr_end r.1
        | Some line =>
            run ok <- mbx_write b line r.1;
            if negb ok then
              ask saved <- read_errno;
              ask _ <- pop_close;
              ask _ <- write_errno saved;
              Return false
            else pop_retr_loop b turns'
        end
  end.

Definition pop_retr (b : build) (turns : nat) (msgno : Z) : prog bool :=
  ask ok <- pop_retrieve_first msgno;
  if negb ok then
    ask _ <- error "Error from POP server: %s" [];
    ask _ <- write_errno 0;
    Return false
  else pop_retr_loop b turns.

(** [popmail].  The mailbox is split at its first colon into the user
    and the host.  [turns] bounds the turns of each loop that are looked
    at. *)
Fixpoint strchr_colon (s : list Z) : option (list Z * list Z) :=
  match s with
  | [] => None
  | c :: r =>
      if c =? 58 then Some ([], r)
      else
        match strchr_colon r with
        | Some (u, h) => Some (c :: u, h)
        | None => None
        end
  end.

(** One message: [true] when it is in the mailbox file and flushed. *)
Definition retrieve_message (b : build) (turns : nat) (i : Z) : prog bool :=
  run begun <- mbx_delimit_begin b;
  if negb begun then Return false
  else
    run got <- pop_retr b turns i;
    if negb got then Return false
    else
      run ended <- mbx_delimit_end;
      if negb ended then Return false
      else
        ask flushed <- fflush;
        Return flushed.

(** [int] has 32 bits; arithmetic that leaves it is undefined. *)
Definition INT_MIN : Z := - 2 ^ 31.
Definition INT_MAX : Z := 2 ^ 31 - 1.

Definition is_int (z : Z) : bool := (INT_MIN <=? z) && (z <=? INT_MAX).

(** [for (i = start; i * increment <= end * increment; i += increment)],
    of which [n] turns are looked at; [false] when a message fails, after
    the clean-up of the loop. *)
Fixpoint retrieve_messages (b : build) (turns : nat) (n : nat)
    (i last increment : Z) : prog bool :=
  if negb (is_int (i * increment) && is_int (last * increment)) then Unsafe
  else if i * increment <=? last * increment then
    match n with
    | O => More
    | S n' =>
        run ok <- retrieve_message b turns i;
        if negb ok then
          ask e <- read_errno;
          run _ <- (if e =? 0 then Return tt
                    else ask _ <- error "Error in POP retrieving: %s" [];
                         Return tt);
          ask _ <- pop_close;
          ask _ <- fclose;
          Return false
        else if is_int (i + increment)
        then retrieve_messages b turns n' (i + increment) last increment
        else Unsafe
    end
  else Return true.

(** [for (i = 1; i <= nmsgs; i++)] with [pop_delete], of which [n] turns
    are looked at. *)
Fixpoint delete_messages (n : nat) (i nmsgs : Z) : prog bool :=
  if i <=? nmsgs then
    match n with
    | O => More
    | S n' =>
        ask deleted <- pop_delete i;
        if negb deleted then
          ask _ <- error "Error from POP server: %s" [];
          ask _ <- pop_close;
          Return false
        else if is_int (i + 1) then delete_messages n' (i + 1) nmsgs
        else Unsafe
    end
  else Return true.

Definition popmail (b : build) (turns : nat) (mailbox outfile : list Z)
    (preserve : bool) (password : option (list Z)) (reverse_order : bool)
  : prog Z :=
  let '(user, hostname) :=
    match strchr_colon mailbox with
    | Some (u, h) => (u, Some h)
    | None => (mailbox, None)
    end in
  ask server <- pop_open hostname user password;
  if negb server then
    ask _ <- error "Error connecting to POP server: %s" [];
    Return EXIT_FAILURE
  else
  ask stat <- pop_stat;
  match stat with
  | None =>
      ask _ <- error "Error getting message count from POP server: %s" [];
      Return EXIT_FAILURE
  | Some nmsgs =>
  if nmsgs =? 0 then
    ask _ <- pop_close;
    Return EXIT_SUCCESS
  else
  ask mbfi <- open_O_EXCL outfile;
  if negb mbfi then
    ask _ <- pop_close;
    ask _ <- error "Error in open: %s, %s" [outfile];
    Return EXIT_FAILURE
  else
  ask owned <- fchown;
  run ours <- (if owned then Return true
               else ask st <- fstat_st_uid_is_getuid; Return st);
  if negb ours then
    ask _ <- pop_close;
    ask _ <- error "Error in fchown: %s, %s" [outfile];
    Return EXIT_FAILURE
  else
  ask mbf <- fdopen;
  if negb mbf then
    ask _ <- pop_close;
    ask _ <- error "Error in fdopen: %s" [];
    ask _ <- close;
    ask _ <- unlink outfile;
    Return EXIT_FAILURE
  else
  let '(start, last, increment) :=
    if reverse_order then (nmsgs, 1, -1) else (1, nmsgs, 1) in
  run retrieved <- retrieve_messages b turns turns start last increment;
  if negb retrieved then Return EXIT_FAILURE
  else
  ask synced <- fsync;
  run sync_failed <- (if synced then Return false
                      else ask e <- read_errno; Return (negb (e =? EINVAL)));
  if sync_failed then
    ask _ <- error "Error in fsync: %s" [];
    ask _ <- fclose;
    Return EXIT_FAILURE
  else
  ask closed <- fclose;
  if negb closed then
    ask _ <- error "Error in fclose: %s" [];
    Return EXIT_FAILURE
  else
  run deleted <- (if preserve then Return true
                  else delete_messages turns 1 nmsgs);
  if negb deleted then Return EXIT_FAILURE
  else
  ask quit <- pop_quit;
  if negb quit then
    ask _ <- error "Error from POP server: %s" [];
    Return EXIT_FAILURE
  else Return EXIT_SUCCESS
  end.

Local Close Scope prog_scope.

(** ** Runs of a program *)

(** A call with the answer it got. *)
Inductive event : Type :=
| Ev {X : Type} (c : call X) (x : X).

(** The calls and answers of a run of the program from its start, up to
    any point of the run. *)
Fixpoint traces {R} (p : prog R) (tr : list event) : Prop :=
  match tr with
  | [] => True
  | e :: tr' =>
      match p with
      | Call c k => exists x, e = Ev c x /\ traces (k x) tr'
      | _ => False
      end
  end.

(** The calls and answers of a run that returns [r]. *)
Fixpoint returns {R} (p : prog R) (tr : list event) (r : R) : Prop :=
  match p with
  | Return r' => tr = [] /\ r' = r
  | Call c k =>
      match tr with
      | e :: tr' => exists x, e = Ev c x /\ returns (k x) tr' r
      | [] => False
      end
  | _ => False
  end.

(** [wp p inv post h]: in every run of [p] that follows the calls [h],
    [inv] holds of the calls made at each point and [post] of them and
    of the result when [p] returns. *)
Fixpoint wp {R} (p : prog R) (inv : list event -> Prop)
    (post : list event -> R -> Prop) (h : list event) : Prop :=
  inv h
  /\ match p with
     | Return r => post h r
     | Call c k => forall x, wp (k x) inv post (h ++ [Ev c x])
     | _ => True
     end.

(** What a run has written to the mailbox file: the bytes of the calls
    of [fputs], [fputc] and [fwrite]. *)
Definition written_by (e : event) : list Z :=
  match e with
  | Ev (fputs s) _ => s
  | Ev (fputc c) _ => [c]
  | Ev (fwrite bytes) _ => bytes
  | _ => []
  end.

Definition written (tr : list event) : list Z :=
  concat (map written_by tr).

(** A call on the stream of the mailbox file that did not do well. *)
Definition stream_failure (e : event) : bool :=
  match e with
  | Ev (fputs _) ok => negb ok
  | Ev (fputc _) ok => negb ok
  | Ev (fwrite bytes) n => negb (n =? Z.of_nat (length bytes))
  | Ev fflush ok => negb ok
  | _ => false
  end.

Definition is_pop_delete (e : event) : bool :=
  match e with Ev (pop_delete _) _ => true | _ => false end.

Definition is_open (e : event) : bool :=
  match e with Ev (open_O_EXCL _) _ => true | _ => false end.

Definition closed_well (e : event) : bool :=
  match e with Ev fclose ok => ok | _ => false end.

(** The numbers of the messages asked for, and of those deleted, in the
    order of the calls. *)
Definition retrieved_by (e : event) : list Z :=
  match e with Ev (pop_retrieve_first i) _ => [i] | _ => [] end.

Definition retrieved (tr : list event) : list Z :=
  concat (map retrieved_by tr).

Definition deleted_by (e : event) : list Z :=
  match e with Ev (pop_delete i) _ => [i] | _ => [] end.

Definition deleted (tr : list event) : list Z :=
  concat (map deleted_by tr).

(** The number of messages that the server has given. *)
Definition counted_by (e : event) : list Z :=
  match e with Ev pop_stat (Some n) => [n] | _ => [] end.

Definition counted (tr : list event) : list Z :=
  concat (map counted_by tr).

(** The numbers [first], [first + step], ... ([n] of them). *)
Fixpoint numbers (n : nat) (first step : Z) : list Z :=
  match n with
  | O => []
  | S n' => first :: numbers n' (first + step) step
  end.

(** A call that shows that fetching a message has gone wrong: a failed
    write or flush of the mailbox file, a failed retrieval, a "From "
    line that could not be made. *)
Definition went_wrong (e : event) : bool :=
  match e with
  | Ev (pop_retrieve_first _) ok => negb ok
  | Ev pop_retrieve_next r =>
      (r.1 <? 0) || (negb (r.1 =? 0) && bool_decide (r.2 = None))
  | Ev localtime ok => negb ok
  | Ev (strftime _) r => r.1 =? 0
  | _ => stream_failure e
  end.

(** The order in which [popmail] asks for the messages: upwards from 1,
    or downwards from the number of messages. *)
Definition retrieval_order (reverse_order : bool) (nmsgs : Z) (n : nat) : list Z :=
  if reverse_order then numbers n nmsgs (-1) else numbers n 1 1.

(** What holds of the calls of [popmail] at every point of a run. *)
Record protocol (outfile : list Z) (preserve reverse_order : bool)
    (h : list event) : Prop := {
  (* nothing is deleted before all messages are in the file, written
     and closed well, nor when the mail is to be preserved *)
  deletes_last : forall pre i ok post,
    h = pre ++ Ev (pop_delete i) ok :: post ->
    preserve = false
    /\ existsb went_wrong pre = false
    /\ existsb closed_well pre = true
    /\ exists nmsgs, counted pre = [nmsgs]
         /\ retrieved pre = retrieval_order reverse_order nmsgs (Z.to_nat nmsgs);
  (* the file is made once, when the server has given a number of
     messages that is not 0 *)
  opens_after_count : forall pre file ok post,
    h = pre ++ Ev (open_O_EXCL file) ok :: post ->
    file = outfile /\ existsb is_open pre = false
    /\ exists nmsgs, counted pre = [nmsgs] /\ nmsgs <> 0;
  (* the messages are asked for in order, and deleted in order *)
  retrieves_in_order :
    retrieved h = []
    \/ exists nmsgs, counted h = [nmsgs]
         /\ (length (retrieved h) <= Z.to_nat nmsgs)%nat
         /\ retrieved h = retrieval_order reverse_order nmsgs (length (retrieved h));
  deletes_in_order :
    deleted h = []
    \/ exists nmsgs, counted h = [nmsgs]
         /\ (length (deleted h) <= Z.to_nat nmsgs)%nat
         /\ deleted h = numbers (length (deleted h)) 1 1
}.

(** A call that is none of those that the protocol is about. *)
Definition plain (e : event) : Prop :=
  is_pop_delete e = false /\ is_open e = false /\ retrieved_by e = []
  /\ deleted_by e = [] /\ counted_by e = [] /\ closed_well e = false.

(** A part of the program that makes plain calls only, and that does not
    return a result that is [good] once something has gone wrong
    ([wrong] tells whether something has, before the part starts). *)
Fixpoint tidy {R} (good : R -> bool) (wrong : bool) (p : prog R) : Prop :=
  match p with
  | Return r => wrong = true -> good r = false
  | Call c k =>
      forall x, plain (Ev c x)
                /\ tidy good (wrong || went_wrong (Ev c x)) (k x)
  | _ => True
  end.

(** What the calls made so far come to: the counts taken, the messages
    asked for and deleted, whether something has gone wrong, whether the
    file has been closed well, whether it has been made. *)
Record gist := Gist {
  counts : list Z;
  asked : list Z;
  removed : list Z;
  wrong : bool;
  closed : bool;
  opened : bool
}.

Definition gist_of (h : list event) : gist :=
  Gist (counted h) (retrieved h) (deleted h) (existsb went_wrong h)
    (existsb closed_well h) (existsb is_open h).

(** The first number and the step of the loop over the messages. *)
Definition first_number (reverse_order : bool) (nmsgs : Z) : Z :=
  if reverse_order then nmsgs else 1.

Definition increment_of (reverse_order : bool) : Z :=
  if reverse_order then -1 else 1.

Definition last_number (reverse_order : bool) (nmsgs : Z) : Z :=
  if reverse_order then 1 else nmsgs.

(** A run of [popmail] that fetches the one message of a mailbox, of one
    line, and deletes it. *)
Definition example_build : build :=
  {| MOVEMAIL_QUOTE_POP_FROM_LINES := true; EOVERFLOW := 75 |}.

Definition example_mailbox : list Z := bytes_of_string "joe:pop.example.org".

Definition example_outfile : list Z := bytes_of_string "mbox".

Definition example_from_line : list Z :=
  bytes_of_string "From movemail Fri Oct 30 12:00:00 2026" ++ [10].

Definition example_line : list Z := bytes_of_string "From here" ++ [0].

Definition example_writes : list event :=
  [Ev (fputc 62) true;
   Ev (fwrite (bytes_of_string "From here")) 9;
   Ev (fputc 10) true].

Definition example_fetched : list event :=
  [Ev (pop_open (Some (bytes_of_string "pop.example.org"))
         (bytes_of_string "joe") None) true;
   Ev pop_stat (Some 1);
   Ev (open_O_EXCL example_outfile) true;
   Ev fchown true;
   Ev fdopen true;
   Ev localtime true;
   Ev (strftime from_line_format) (39, example_from_line);
   Ev (fputs example_from_line) true;
   Ev (pop_retrieve_first 1) true;
   Ev pop_retrieve_next (9, Some example_line)]
  ++ example_writes
  ++ [Ev pop_retrieve_next (0, None);
      Ev (fputc 10) true;
      Ev fflush true;
      Ev fsync true;
      Ev fclose true].

Definition example_fetch : list event :=
  example_fetched ++ [Ev (pop_delete 1) true; Ev pop_quit true].

(** ** [movemail_strftime]: the format that it builds

    [fmt] is an array of [size + 6] bytes that is not initialized: a byte
    of it is [None] until it is written.  [format] is the text of the
    format, up to its terminator. *)

(** [memcpy (q, bytes, n)], and [*q++ = c]: undefined outside the array. *)
Fixpoint store (fmt : list (option Z)) (q : nat) (bytes : list Z)
  : option (list (option Z)) :=
  match bytes with
  | [] => Some fmt
  | c :: bytes' =>
      if (q <? length fmt)%nat
      then store (<[q := Some c]> fmt) (S q) bytes'
      else None
  end.

(** The loop over [format]: the array and [q] when [*p] is the
    terminator.  [p[1]] is the terminator when [*p] is the last
    character. *)
Fixpoint movemail_strftime_fmt (format : list Z) (fmt : list (option Z))
    (q : nat) : option (list (option Z) * nat) :=
  match format with
  | [] => Some (fmt, q)
  | c :: rest =>
      let copy :=
        fmt' ← store fmt q [c];
        movemail_strftime_fmt rest fmt' (q + 1) in
      if c =? 37 then
        match rest with
        | d :: rest' =>
            if d =? 101 then
              fmt' ← store fmt q (bytes_of_string "%d");
              movemail_strftime_fmt rest' fmt' (q + 2)
            else if d =? 84 then
              fmt' ← store fmt q (bytes_of_string "%H:%M:%S");
              movemail_strftime_fmt rest' fmt' (q + 8)
            else if d =? 37 then
              fmt' ← store fmt q [c; d];
              movemail_strftime_fmt rest' fmt' (q + 2)
            else copy
        | [] => copy
        end
      else copy
  end.

(** [char fmt[size + 6]] *)
Definition fmt_array (size : nat) : list (option Z) :=
  replicate (size + 6) None.

(** * Properties *)

Local Close Scope unexec_scope.

(** ** Machine arithmetic *)

Lemma wrap_small bits n : 0 <= n < 2 ^ bits -> wrap bits n = n.
Proof. intros H. unfold wrap. apply Z.mod_small, H. Qed.

Lemma DWORD_small n : 0 <= n < 2 ^ 32 -> DWORD n = n.
Proof. apply wrap_small. Qed.

Lemma DWORD_PTR_small t n : 0 <= n < 2 ^ ptr_bits t -> DWORD_PTR t n = n.
Proof. apply wrap_small. Qed.

Lemma ptr_bits_ge t : 2 ^ 32 <= 2 ^ ptr_bits t.
Proof. destruct t; simpl; lia. Qed.

Lemma DWORD_PTR_of_dword t n : 0 <= n < 2 ^ 32 -> DWORD_PTR t n = n.
Proof. intros H. apply DWORD_PTR_small. pose proof (ptr_bits_ge t). lia. Qed.

Lemma DWORD_range n : 0 <= DWORD n < 2 ^ 32.
Proof. unfold DWORD, wrap. apply Z.mod_pos_bound. lia. Qed.

Lemma DWORD_PTR_range t n : 0 <= DWORD_PTR t n < 2 ^ ptr_bits t.
Proof. unfold DWORD_PTR, wrap. apply Z.mod_pos_bound. destruct t; simpl; lia. Qed.

Lemma ROUND_UP_ge p align : 0 < align -> p <= ROUND_UP p align.
Proof.
  intros H. unfold ROUND_UP.
  pose proof (Z.div_mod (p + align - 1) align ltac:(lia)) as E.
  pose proof (Z.mod_pos_bound (p + align - 1) align H) as B.
  nia.
Qed.

Lemma ROUND_UP_lt p align : 0 < align -> ROUND_UP p align < p + align.
Proof.
  intros H. unfold ROUND_UP.
  pose proof (Z.div_mod (p + align - 1) align ltac:(lia)) as E.
  pose proof (Z.mod_pos_bound (p + align - 1) align H) as B.
  nia.
Qed.

Lemma ROUND_UP_multiple p align : (align | ROUND_UP p align).
Proof. unfold ROUND_UP. apply Z.divide_factor_r. Qed.

Lemma ROUND_UP_aligned p align : 0 < align -> (align | p) -> ROUND_UP p align = p.
Proof.
  intros H [q ->]. unfold ROUND_UP.
  replace (q * align + align - 1) with (align - 1 + q * align) by lia.
  rewrite Z.div_add by lia. rewrite Z.div_small by lia. lia.
Qed.


(** ** The section locator *)

Lemma length_le_bytes n v : length (le_bytes n v) = n.
Proof. unfold le_bytes. by rewrite length_map, length_seq. Qed.

Lemma length_name_field s : length (name_field s) = 8%nat.
Proof.
  unfold name_field. rewrite length_take, length_app, length_replicate. lia.
Qed.

Lemma length_section_bytes s : length (section_bytes s) = 40%nat.
Proof.
  unfold section_bytes.
  rewrite !length_app, length_name_field, !length_le_bytes. reflexivity.
Qed.

Lemma strcmp_defined name mem :
  (length name < length mem)%nat -> is_Some (strcmp mem (name ++ [0])).
Proof.
  revert mem. induction name as [|x name IH]; intros [|y mem] Hlen;
    simpl in *; try lia.
  - destruct (y =? 0); eauto.
  - destruct (y =? x); [|eauto].
    destruct (y =? 0); [eauto|]. apply IH. lia.
Qed.

Lemma find_section_loop_defined name secs rest i :
  (length name < 40)%nat ->
  is_Some (find_section_loop name (section_table_bytes secs ++ rest) i
             (length secs)).
Proof.
  intros Hn. revert i. induction secs as [|s secs IH]; intros i; simpl.
  - eauto.
  - unfold section_table_bytes in *. simpl. rewrite <- app_assoc.
    destruct (strcmp_defined name (section_bytes s ++ concat (map section_bytes secs) ++ rest))
      as [c Hc].
    { rewrite length_app, length_section_bytes. lia. }
    rewrite Hc. destruct (c =? 0); [eauto|].
    rewrite drop_app_length'; [apply IH | by rewrite length_section_bytes].
Qed.

Lemma find_section_defined name secs rest :
  (length name < 40)%nat -> is_Some (find_section name secs rest).
Proof. apply find_section_loop_defined. Qed.

Lemma find_section_loop_bound name mem i n k :
  find_section_loop name mem i n = Some (Some k) -> (i <= k < i + n)%nat.
Proof.
  revert mem i. induction n as [|n IH]; intros mem i; simpl; [discriminate|].
  destruct (strcmp mem (name ++ [0])) as [c|]; [|discriminate].
  destruct (c =? 0).
  - intros [= <-]. lia.
  - intros H. apply IH in H. lia.
Qed.

Lemma find_section_bound name secs rest k :
  find_section name secs rest = Some (Some k) -> (k < length secs)%nat.
Proof. intros H. apply find_section_loop_bound in H. lia. Qed.

(** C9: the section locator is to return the first section whose
    eight-byte name field equals the queried name.  For the name
    ".textbss", which fills the field, and a table whose only section has
    exactly that name, the field comparison finds section 0, while
    [find_section] answers "not found": its [strcmp] goes on into the
    bytes of [VirtualSize] behind the field. *)
Theorem find_section_misses_full_width_name :
  locate_by_name_field (bytes_of_string ".textbss") [textbss] = Some 0%nat
  /\ find_section (bytes_of_string ".textbss") [textbss] [] = Some None.
Proof. split; vm_compute; reflexivity. Qed.

(** ** The offset relocator *)

Lemma last_raw_from_filter l i :
  (i < length l)%nat ->
  last_raw_from l i
  = last (filter (fun s => PointerToRawData s <> 0) (take (S i) l)).
Proof.
  induction i as [|i IH]; intros Hi;
    destruct (lookup_lt_is_Some_2 l _ Hi) as [s Hs];
    rewrite (take_S_r _ _ _ Hs), filter_app; simpl; rewrite Hs.
  - rewrite filter_cons, filter_nil.
    destruct (Z.eqb_spec (PointerToRawData s) 0) as [E|E];
      destruct (decide (PointerToRawData s <> 0)); try done.
  - rewrite filter_cons, filter_nil.
    destruct (Z.eqb_spec (PointerToRawData s) 0) as [E|E];
      destruct (decide (PointerToRawData s <> 0)); try done.
    + rewrite app_nil_r. apply IH. lia.
    + by rewrite last_snoc.
Qed.

Lemma last_raw_filter l : last_raw l = last_with_raw_data l.
Proof.
  unfold last_raw, last_with_raw_data. destruct (length l) as [|j] eqn:E.
  - apply length_zero_iff_nil in E. by subst.
  - rewrite last_raw_from_filter by lia. rewrite take_ge; [done | lia].
Qed.

Lemma last_raw_from_last l i :
  S i = length l -> last_raw_from l i = last_raw l.
Proof. intros E. unfold last_raw. by rewrite <- E. Qed.

Lemma last_raw_from_same src dst i s :
  Forall2 same_raw_data src dst ->
  last_raw_from src i = Some s ->
  exists d, last_raw_from dst i = Some d /\ same_raw_data s d.
Proof.
  intros HF. induction i as [|i IH]; simpl;
    destruct (src !! _) as [x|] eqn:Hx; try discriminate;
    destruct (Forall2_lookup_l _ _ _ _ _ HF Hx) as (y & Hy & [HP HS]);
    rewrite Hy, <- HP; destruct (PointerToRawData x =? 0); try discriminate.
  - intros [= <-]. exists y. split; [done | by split].
  - apply IH.
  - intros [= <-]. exists y. split; [done | by split].
Qed.

Lemma raw_end_same s d : same_raw_data s d -> raw_end s = raw_end d.
Proof. intros [HP HS]. unfold raw_end. by rewrite HP, HS. Qed.

Lemma relocate_loop_same t offset src dst fuel i :
  0 <= offset < 2 ^ ptr_bits t ->
  Forall2 same_raw_data src dst ->
  is_Some (last_with_raw_data src) ->
  (i + fuel = length src)%nat -> (0 < fuel)%nat ->
  relocate_loop t offset src dst i fuel = Some offset.
Proof.
  intros Hoff HF Hraw. revert i.
  induction fuel as [|fuel IH]; intros i Hlen Hpos; [lia|]. simpl.
  destruct (lookup_lt_is_Some_2 src i ltac:(lia)) as [s Hs]. rewrite Hs. simpl.
  destruct (Forall2_lookup_l _ _ _ _ _ HF Hs) as (d & Hd & Hsd).
  destruct ((PointerToRawData s <=? offset) && negb (offset <? raw_end s)).
  - case_bool_decide as HN.
    + destruct Hraw as [s' Hs']. rewrite <- last_raw_filter in Hs'.
      rewrite <- (last_raw_from_last _ _ HN) in Hs'.
      destruct (last_raw_from_same _ _ _ _ HF Hs') as (d' & Hd' & Hsd').
      rewrite (last_raw_from_last dst i) in Hd'
        by (rewrite <- (Forall2_length _ _ _ HF); exact HN).
      rewrite Hd', Hs'. simpl. rewrite (raw_end_same _ _ Hsd').
      f_equal. replace (offset + raw_end d' - raw_end d') with offset by lia.
      by apply DWORD_PTR_small.
    + apply IH; lia.
  - rewrite Hd. simpl. destruct Hsd as [-> _]. rewrite Z.sub_diag.
    f_equal. change (DWORD 0) with 0. rewrite Z.add_0_r.
    by apply DWORD_PTR_small.
Qed.

(** C7: if no section's raw-data offset or size differs between the
    source and the destination table, the relocator returns every offset
    unchanged.  The table has a section with raw data, as the code
    assumes ("at least one section in both src and dst images"). *)
Theorem relocate_offset_no_growth t offset src dst :
  0 <= offset < 2 ^ ptr_bits t ->
  Forall2 same_raw_data src dst ->
  is_Some (last_with_raw_data src) ->
  relocate_offset t offset src dst = Some offset.
Proof.
  intros Hoff HF Hraw. unfold relocate_offset.
  apply relocate_loop_same; try done.
  destruct src; [|simpl; lia].
  destruct Hraw as [? Hx]. discriminate Hx.
Qed.

Lemma fits_spec s :
  fits s = true ->
  0 <= PointerToRawData s /\ 0 <= SizeOfRawData s
  /\ raw_end s = PointerToRawData s + SizeOfRawData s.
Proof.
  unfold fits. rewrite !andb_true_iff, !Z.leb_le, Z.ltb_lt.
  intros [[HP HS] HE]. unfold raw_end. rewrite DWORD_small; lia.
Qed.

Lemma forallb_lookup {A} (f : A -> bool) (l : list A) i x :
  forallb f l = true -> l !! i = Some x -> f x = true.
Proof.
  revert i. induction l as [|y l IH]; intros [|i]; simpl; try discriminate;
    rewrite andb_true_iff; intros [Hy Hl].
  - by intros [= <-].
  - by apply IH.
Qed.

Lemma ascending_lookup l i j si sj :
  ascending l = true -> l !! i = Some si -> l !! j = Some sj -> (i < j)%nat ->
  SizeOfRawData sj <> 0 ->
  PointerToRawData si + SizeOfRawData si <= PointerToRawData sj.
Proof.
  revert i j. induction l as [|x l IH]; intros i j; simpl; [discriminate|].
  rewrite andb_true_iff. intros [Hx Hl] Hi Hj Hlt Hne.
  destruct i as [|i], j as [|j]; simpl in *; try lia.
  - injection Hi as <-.
    pose proof (forallb_lookup _ _ _ _ Hx Hj) as H. simpl in H.
    apply orb_true_iff in H as [H|H]; [apply Z.eqb_eq in H | apply Z.leb_le in H]; lia.
  - apply (IH i j); [done..|lia|done].
Qed.

Lemma relocate_loop_covered t offset src dst k s d fuel i :
  layout_ok src = true ->
  src !! k = Some s -> dst !! k = Some d -> covers offset s ->
  (i <= k < i + fuel)%nat ->
  relocate_loop t offset src dst i fuel
  = Some (DWORD_PTR t (offset + DWORD (PointerToRawData d - PointerToRawData s))).
Proof.
  unfold layout_ok. rewrite andb_true_iff. intros [Hfit Hasc] Hs Hd Hcov.
  revert i. induction fuel as [|fuel IH]; intros i Hik; [lia|]. simpl.
  destruct (decide (i = k)) as [->|Hne].
  - rewrite Hs. simpl.
    destruct (fits_spec _ (forallb_lookup _ _ _ _ Hfit Hs)) as (_ & _ & ->).
    destruct Hcov as [H1 H2].
    replace (offset <? PointerToRawData s + SizeOfRawData s) with true
      by (symmetry; apply Z.ltb_lt; lia).
    rewrite andb_false_r. by rewrite Hd.
  - pose proof (lookup_lt_Some _ _ _ Hs) as Hk.
    destruct (lookup_lt_is_Some_2 src i ltac:(lia)) as [si Hsi].
    rewrite Hsi. simpl.
    destruct (fits_spec _ (forallb_lookup _ _ _ _ Hfit Hsi)) as (HP & HS & ->).
    assert (PointerToRawData si + SizeOfRawData si <= PointerToRawData s) as Hle.
    { apply (ascending_lookup src i k); try done; [lia|].
      unfold covers in Hcov. lia. }
    unfold covers in Hcov.
    replace (PointerToRawData si <=? offset) with true
      by (symmetry; apply Z.leb_le; lia).
    replace (offset <? PointerToRawData si + SizeOfRawData si) with false
      by (symmetry; apply Z.ltb_ge; lia).
    simpl. rewrite bool_decide_eq_false_2 by lia. apply IH. lia.
Qed.

Lemma relocate_loop_trailing t offset src dst s d fuel i :
  forallb fits src = true ->
  Forall (fun x => PointerToRawData x + SizeOfRawData x <= offset) src ->
  last_raw src = Some s -> last_raw dst = Some d ->
  (i + fuel = length src)%nat -> (0 < fuel)%nat ->
  relocate_loop t offset src dst i fuel
  = Some (DWORD_PTR t (offset + raw_end d - raw_end s)).
Proof.
  intros Hfit Hall Hs Hd. revert i.
  induction fuel as [|fuel IH]; intros i Hlen Hpos; [lia|]. simpl.
  destruct (lookup_lt_is_Some_2 src i ltac:(lia)) as [si Hsi].
  rewrite Hsi. simpl.
  destruct (fits_spec _ (forallb_lookup _ _ _ _ Hfit Hsi)) as (HP & HS & ->).
  pose proof (proj1 (Forall_lookup _ _) Hall _ _ Hsi) as Hle. simpl in Hle.
  replace (PointerToRawData si <=? offset) with true
    by (symmetry; apply Z.leb_le; lia).
  replace (offset <? PointerToRawData si + SizeOfRawData si) with false
    by (symmetry; apply Z.ltb_ge; lia).
  simpl. case_bool_decide as HN.
  - rewrite Hd. simpl. rewrite (last_raw_from_last _ _ HN), Hs. done.
  - apply IH; lia.
Qed.

(** C2: on a source table laid out in ascending file-offset order, (1) an
    offset that the raw data of source section [k] covers is returned
    shifted by the raw-data start of destination section [k] minus that of
    source section [k]; (2) an offset at or past the end of every raw-data
    range is returned shifted by the raw-data end of the destination's
    last section with raw data minus that of the source's.  The sums are
    those of the C code ([DWORD] difference, [DWORD_PTR] sum); (3) where
    the destination start is not before the source start and the sum fits
    a pointer, the first is the plain sum of the offset and the
    difference. *)
Theorem relocate_offset_shift t offset src dst :
  layout_ok src = true ->
  (forall k s d, src !! k = Some s -> dst !! k = Some d -> covers offset s ->
     relocate_offset t offset src dst
     = Some (DWORD_PTR t (offset + DWORD (PointerToRawData d - PointerToRawData s))))
  /\ (forall s d,
        Forall (fun x => PointerToRawData x + SizeOfRawData x <= offset) src ->
        last_with_raw_data src = Some s -> last_with_raw_data dst = Some d ->
        relocate_offset t offset src dst
        = Some (DWORD_PTR t (offset + raw_end d - raw_end s)))
  /\ (forall s d,
        0 <= offset ->
        0 <= PointerToRawData s <= PointerToRawData d ->
        PointerToRawData d < 2 ^ 32 ->
        offset + (PointerToRawData d - PointerToRawData s) < 2 ^ ptr_bits t ->
        DWORD_PTR t (offset + DWORD (PointerToRawData d - PointerToRawData s))
        = offset + (PointerToRawData d - PointerToRawData s)).
Proof.
  intros Hok. split; [|split].
  - intros k s d Hs Hd Hcov. unfold relocate_offset.
    apply (relocate_loop_covered _ _ _ _ k); try done.
    pose proof (lookup_lt_Some _ _ _ Hs). lia.
  - intros s d Hall Hs Hd. unfold relocate_offset.
    apply andb_true_iff in Hok as [Hfit _].
    rewrite <- last_raw_filter in Hs, Hd.
    apply relocate_loop_trailing; try done.
    destruct src; [discriminate Hs | simpl; lia].
  - intros s d Hoff Hs Hd Hsum.
    rewrite DWORD_small by lia. apply DWORD_PTR_small. lia.
Qed.

(** ** The bss block of the copier *)




(** Both owners of a bss area go through that block. *)
Lemma copy_section_dumps_bss t p info src align i section dst_section c :
  bss_section info = Some i -> data_section info <> Some i ->
  bss_section_static info <> Some i ->
  let d1 := if PointerToRawData dst_section =? 0 then dst_section
            else set_PointerToRawData (DWORD (dst c)) dst_section in
  let c2 := ROUND_UP_DST_AND_ZERO align
              (COPY_CHUNK t ("Copying raw data for " +:+ name_string section +:+ "...")
                 src (PointerToRawData section) (SizeOfRawData section) c) in
  let r := dump_bss t p align "Dumping bss data..." (bss_start info)
             (bss_size info) (dst c) d1 c2 in
  copy_section t p info src align i section dst_section c
  = (r.1, ROUND_UP_DST align r.2).
Proof.
  intros Hb Hd Hs. unfold copy_section.
  rewrite (bool_decide_eq_false_2 (Some i = data_section info)) by congruence.
  rewrite (bool_decide_eq_true_2 (Some i = bss_section info)) by congruence.
  rewrite (bool_decide_eq_false_2 (Some i = bss_section_static info)) by congruence.
  simpl. reflexivity.
Qed.

(** ** Opening the output file *)

Lemma fresh_file_is_new (k : gmap nat file_object) : k !! fresh (dom k) = None.
Proof. apply not_elem_of_dom, is_fresh. Qed.

Lemma open_output_file_unfold filename sz :
  open_output_file filename sz
  = bind (DeleteFileA filename) (fun _ => create_and_map filename sz).
Proof. reflexivity. Qed.

(** Once the name is free, the file is a new object. *)
Lemma create_and_map_free filename sz w :
  directory w !! filename = None ->
  let id := fresh (dom (disk w)) in
  let r := create_and_map filename sz w in
  (forall id' f, disk w !! id' = Some f -> disk r.1 !! id' = Some f)
  /\ directory r.1 = <[filename := id]> (directory w)
  /\ (forall p_file, r.2 = Done (Some p_file) ->
        file p_file = id /\ file_base p_file = blank_image
        /\ disk r.1 !! id = Some {| f_image := blank_image; f_length := sz;
                                    f_protected := false |}).
Proof.
  intros Hfree id r.
  pose proof (fresh_file_is_new (disk w)) as Hnew. fold id in Hnew.
  assert (r = create_and_map filename sz w) as Hr by reflexivity. clearbody r.
  unfold create_and_map, bind, CreateFileA_CREATE_ALWAYS, CreateFileMapping,
    MapViewOfFile, ret in Hr.
  rewrite Hfree in Hr. fold id in Hr. simpl in Hr.
  rewrite lookup_insert_eq in Hr. simpl in Hr.
  destruct (sz =? 0); simpl in Hr.
  - subst r. simpl. repeat split; try discriminate.
    intros id' f Hf. rewrite lookup_insert_ne; [done | congruence].
  - rewrite lookup_insert_eq in Hr. simpl in Hr. subst r. simpl. repeat split.
    + intros id' f Hf. rewrite !lookup_insert_ne; [done | congruence..].
    + by injection H as <-.
    + by injection H as <-.
    + by rewrite lookup_insert_eq.
Qed.

Lemma open_output_file_new_object filename sz w :
  let r := open_output_file filename sz w in
  (forall id f, disk w !! id = Some f -> disk r.1 !! id = Some f)
  /\ (forall other, other <> filename ->
        directory r.1 !! other = directory w !! other)
  /\ (forall p_file, r.2 = Done (Some p_file) ->
        disk w !! file p_file = None
        /\ directory r.1 !! filename = Some (file p_file)
        /\ file_base p_file = blank_image
        /\ is_Some (disk r.1 !! file p_file)).
Proof.
  intros r.
  assert (forall w1 : world,
    directory w1 !! filename = None -> disk w1 = disk w ->
    (forall other, other <> filename ->
       directory w1 !! other = directory w !! other) ->
    r = create_and_map filename sz w1 ->
    (forall id f, disk w !! id = Some f -> disk r.1 !! id = Some f)
    /\ (forall other, other <> filename ->
          directory r.1 !! other = directory w !! other)
    /\ (forall p_file, r.2 = Done (Some p_file) ->
          disk w !! file p_file = None
          /\ directory r.1 !! filename = Some (file p_file)
          /\ file_base p_file = blank_image
          /\ is_Some (disk r.1 !! file p_file))) as Hfree.
  { intros w1 Hname Hdisk Hdir ->.
    destruct (create_and_map_free filename sz w1 Hname) as (H1 & H2 & H3).
    split; [|split].
    - intros id f Hf. apply H1. by rewrite Hdisk.
    - intros other Hne. rewrite H2, lookup_insert_ne by done. by apply Hdir.
    - intros p_file Hp. destruct (H3 _ Hp) as (-> & -> & Hnew).
      rewrite <- Hdisk, H2, lookup_insert_eq, Hnew.
      split; [apply fresh_file_is_new | eauto]. }
  assert (r = open_output_file filename sz w) as Hr by reflexivity. clearbody r.
  rewrite open_output_file_unfold in Hr. unfold bind, DeleteFileA in Hr.
  destruct (directory w !! filename) as [id|] eqn:Hname.
  - destruct (disk w !! id) as [f|] eqn:Hf.
    + destruct (f_protected f) eqn:Hprot.
      * (* the file can neither be deleted nor opened for writing *)
        unfold create_and_map, bind, CreateFileA_CREATE_ALWAYS, ret in Hr.
        rewrite Hname, Hf, Hprot in Hr. subst r. simpl.
        repeat split; try done.
      * eapply Hfree; [| |
          | exact Hr]; simpl; [apply lookup_delete_eq | done |].
        intros other Hne. by apply lookup_delete_ne.
    + eapply Hfree; [| | | exact Hr]; simpl; [apply lookup_delete_eq | done |].
      intros other Hne. by apply lookup_delete_ne.
  - by eapply Hfree; [| | | exact Hr].
Qed.


(** ** The analyzer *)

Lemma first_index_Some {A} (f : A -> bool) l i k :
  first_index f l i = Some k ->
  exists x, (i <= k)%nat /\ l !! (k - i)%nat = Some x /\ f x = true.
Proof.
  revert i. induction l as [|y l IH]; intros i; simpl; [discriminate|].
  destruct (f y) eqn:Hy.
  - intros [= <-]. exists y. rewrite Nat.sub_diag. auto.
  - intros H. destruct (IH _ H) as (x & Hle & Hx & Hfx).
    exists x. split; [lia|]. split; [|done].
    replace (k - i)%nat with (S (k - S i)) by lia. done.
Qed.

Lemma first_index_None {A} (f : A -> bool) l i x :
  first_index f l i = None -> x ∈ l -> f x = false.
Proof.
  revert i. induction l as [|y l IH]; intros i; simpl.
  - intros _ H. by apply elem_of_nil in H.
  - destruct (f y) eqn:Hy; [discriminate|].
    intros H Hin. apply elem_of_cons in Hin as [->|Hin]; [done|]. eauto.
Qed.

Lemma rva_to_section_Some rva table k :
  rva_to_section rva table = Some k ->
  exists s, table !! k = Some s /\ rva_in_section rva s = true.
Proof.
  intros H. apply first_index_Some in H as (x & _ & Hx & Hf).
  rewrite Nat.sub_0_r in Hx. eauto.
Qed.

Lemma rva_to_section_is_Some rva table k s :
  table !! k = Some s -> rva_in_section rva s = true ->
  is_Some (rva_to_section rva table).
Proof.
  intros Hk Hin. destruct (rva_to_section rva table) eqn:E; [eauto|].
  apply (first_index_None _ _ _ s) in E; [congruence|].
  by apply list_elem_of_lookup_2 in Hk.
Qed.

(** An area that starts in a section and whose two ends the scan puts in
    the same section lies within that section. *)
Lemma same_section_within t p table area :
  starts_in_a_section t p table area ->
  rva_to_section (PTR_TO_RVA t p area.1) table
  = rva_to_section (PTR_TO_RVA t p area.2) table ->
  within_one_section t p table area
  /\ is_Some (rva_to_section (PTR_TO_RVA t p area.1) table ≫= (table !!.)).
Proof.
  intros (k & s & Hk & Hin) Heq.
  destruct (rva_to_section_is_Some _ _ _ _ Hk Hin) as [j Hj].
  rewrite Hj in Heq. symmetry in Heq.
  destruct (rva_to_section_Some _ _ _ Hj) as (sj & Hsj & H1).
  destruct (rva_to_section_Some _ _ _ Heq) as (sj' & Hsj' & H2).
  assert (sj' = sj) as -> by congruence.
  split; [by exists j, sj|]. rewrite Hj. simpl. eauto.
Qed.

Lemma printf_exit d (w : world) :
  bind (printf d) (fun _ => exit 1) w
  = (with_stdout (stdout w ++ [d]) w, @Exited section_info 1).
Proof. reflexivity. Qed.

Lemma same_section_false a b : negb (same_section a b) = true -> a <> b.
Proof. unfold same_section. case_bool_decide; [discriminate | done]. Qed.

Lemma same_section_true a b : negb (same_section a b) = false -> a = b.
Proof. unfold same_section. case_bool_decide; [done | discriminate]. Qed.

Lemma bind_deref_Some {A B} (a : A) (k : A -> M B) w :
  bind (deref (Some a)) k w = k a w.
Proof. reflexivity. Qed.

Lemma bind_ret {A B} (a : A) (k : A -> M B) w : bind (ret a) k w = k a w.
Proof. reflexivity. Qed.

Lemma bind_bind {A B C} (m : M A) (k1 : A -> M B) (k2 : B -> M C) w :
  bind (bind m k1) k2 w = bind m (fun x => bind (k1 x) k2) w.
Proof. unfold bind. destruct (m w) as [w' []]; reflexivity. Qed.

Ltac bail := eexists; split; [|apply printf_exit]; reflexivity.

(** The tests on the two bss areas, which follow the data area whichever
    way that was found. *)
Ltac bss_tests Hstart Hspan :=
  let Eb := fresh "Eb" in let Es := fresh "Es" in
  let Hb := fresh "Hb" in let Hs := fresh "Hs" in
  apply Forall_cons in Hstart as [Hb Hstart];
  apply Forall_cons in Hstart as [Hs _];
  match goal with
  | |- context [negb (same_section ?a ?b)] =>
      destruct (negb (same_section a b)) eqn:Eb; [bail|]
  end;
  apply same_section_true in Eb;
  destruct (same_section_within _ _ _ _ Hb Eb) as [?Hwb [?bs ?Hbs]];
  simpl in Hbs; rewrite Hbs, bind_deref_Some; cbv beta;
  match goal with
  | |- context [negb (same_section ?a ?b)] =>
      destruct (negb (same_section a b)) eqn:Es; [bail|]
  end;
  apply same_section_true in Es;
  destruct (same_section_within _ _ _ _ Hs Es) as [?Hws _];
  exfalso; apply Exists_cons in Hspan as [Hspan|Hspan]; [done|];
  apply Exists_cons in Hspan as [Hspan|Hspan]; [done|];
  by apply Exists_nil in Hspan.

(** The analyzer gives up when a tracked area is not within one
    section. *)
Lemma get_section_info_bails c p p_infile w :
  let table := sections (nt_headers (file_base p_infile)) in
  Forall (starts_in_a_section (cfg_target c) p table) (tracked_regions p p_infile) ->
  Exists (fun area => ~ within_one_section (cfg_target c) p table area)
    (tracked_regions p p_infile) ->
  exists d, bailing d = true
    /\ get_section_info c p p_infile w
       = (with_stdout (stdout w ++ [d]) w, Exited 1).
Proof.
  intros table Hstart Hspan. unfold get_section_info.
  destruct (negb (e_magic _ =? _)); [bail|].
  destruct (DWORD_PTR _ _ =? 0); [bail|].
  destruct (negb (Signature _ =? _)); [bail|].
  unfold tracked_regions, has_EMDATA in *. fold table in Hstart, Hspan |- *.
  destruct (find_section_defined (bytes_of_string "EMDATA") table
              (view_bytes (contents (file_base p_infile))
                 (section_table_end (file_base p_infile)) (size p_infile)))
    as [found Hfound]; [vm_compute; lia|].
  rewrite Hfound in *. rewrite bind_deref_Some. cbv beta.
  destruct found as [k|].
  - destruct (lookup_lt_is_Some_2 table k) as [sk Hsk].
    { eapply find_section_bound, Hfound. }
    rewrite Hsk, bind_bind, bind_deref_Some. cbv beta.
    rewrite bind_ret. cbv beta iota zeta.
    simpl app in *. bss_tests Hstart Hspan.
  - simpl app in *. apply Forall_cons in Hstart as [Hd Hstart].
    match goal with
    | |- context [negb (same_section ?a ?b)] =>
        destruct (negb (same_section a b)) eqn:Ed; [bail|]
    end.
    apply same_section_true in Ed.
    destruct (same_section_within _ _ _ _ Hd Ed) as [Hwd _].
    apply Exists_cons in Hspan as [Hspan|Hspan]; [done|].
    rewrite bind_ret. cbv beta iota zeta. bss_tests Hstart Hspan.
Qed.

(** ** The driver *)

Lemma bind_GetModuleFileNameA {B} (k : option string -> M B) w :
  bind GetModuleFileNameA k w = k (module_file_name w) w.
Proof. reflexivity. Qed.

Lemma bind_lift_Done {A B} (a : A) (k : A -> M B) w :
  bind (lift (Done a)) k w = k a w.
Proof. reflexivity. Qed.

Lemma bind_printf {B} d (k : unit -> M B) w :
  bind (printf d) k w = k tt (with_stdout (stdout w ++ [d]) w).
Proof. reflexivity. Qed.

Lemma open_input_file_world filename w :
  open_input_file filename w = (w, (open_input_file filename w).2).
Proof.
  unfold open_input_file. by destruct (directory w !! filename ≫= _).
Qed.

Lemma open_input_file_stdout filename o w :
  (open_input_file filename (with_stdout o w)).2
  = (open_input_file filename w).2.
Proof.
  unfold open_input_file. simpl.
  by destruct (directory w !! filename ≫= _).
Qed.

Lemma bind_open_input_file {B} filename (k : option file_data -> M B) w a :
  (open_input_file filename w).2 = Done a ->
  bind (open_input_file filename) k w = k a w.
Proof.
  intros H. unfold bind. rewrite open_input_file_world, H. reflexivity.
Qed.

(** C5: when one of the tracked areas (each starts in a section of the
    source image) does not lie within one section, [unexec] ends with
    [exit (1)] after a diagnostic of the analyzer, and the file system is
    as it was before the run: no output file has been created, let alone
    written.  The run is one that gets as far as the analysis: the
    program finds its own file name, builds the output name and opens its
    executable. *)
Theorem region_across_sections_is_fatal c p new_name old_name w
    in_filename out_filename in_file :
  module_file_name w = Some in_filename ->
  output_filename (slashes in_filename) (filename_to_ansi c new_name)
  = Done out_filename ->
  (open_input_file (slashes in_filename) w).2 = Done (Some in_file) ->
  let table := sections (nt_headers (file_base in_file)) in
  Forall (starts_in_a_section (cfg_target c) p table) (tracked_regions p in_file) ->
  Exists (fun area => ~ within_one_section (cfg_target c) p table area)
    (tracked_regions p in_file) ->
  let r := unexec c p new_name old_name w in
  exists d, bailing d = true
    /\ r.2 = Exited 1
    /\ stdout r.1
       = stdout w ++ [Dumping_from (slashes in_filename);
                      Dumping_to out_filename; d]
    /\ directory r.1 = directory w
    /\ disk r.1 = disk w.
Proof.
  intros Hm Hout Hopen table Hstart Hspan r.
  assert (r = unexec c p new_name old_name w) as Hr by reflexivity. clearbody r.
  unfold unexec in Hr.
  rewrite bind_GetModuleFileNameA, Hm, Hout, bind_lift_Done in Hr.
  rewrite !bind_printf in Hr.
  erewrite bind_open_input_file in Hr
    by (rewrite !open_input_file_stdout; exact Hopen).
  set (w2 := with_stdout _ _) in Hr.
  destruct (get_section_info_bails c p in_file w2 Hstart Hspan) as (d & Hd & E).
  unfold bind in Hr. rewrite E in Hr. subst r. exists d. subst w2. simpl.
  repeat split; try done. by rewrite <- !app_assoc.
Qed.

(** ** Overlapping bss areas *)


Lemma same_section_refl a : negb (same_section a a) = false.
Proof. unfold same_section. by rewrite bool_decide_eq_true_2. Qed.








(** ** Where the output is written *)

Lemma keeps_files_ret {A} (a : A) : keeps_files (ret a).
Proof. by intros w. Qed.

Lemma keeps_files_exit {A} s : keeps_files (@exit A s).
Proof. by intros w. Qed.

Lemma keeps_files_deref {A} (o : option A) : keeps_files (deref o).
Proof. by destruct o; intros w. Qed.

Lemma keeps_files_printf d : keeps_files (printf d).
Proof. by intros w. Qed.

Lemma keeps_files_bind {A B} (m : M A) (k : A -> M B) :
  keeps_files m -> (forall a, keeps_files (k a)) -> keeps_files (bind m k).
Proof.
  intros Hm Hk w. unfold bind. destruct (Hm w) as [H1 H2].
  destruct (m w) as [w1 [a| | |]]; simpl in *; try done.
  destruct (Hk a w1) as [H3 H4]. split; congruence.
Qed.

Ltac keeps_files :=
  repeat first
    [ apply keeps_files_ret | apply keeps_files_exit | apply keeps_files_deref
    | apply keeps_files_printf
    | apply keeps_files_bind; [|intros ?]
    | match goal with
      | |- keeps_files (if ?b then _ else _) => destruct b
      | |- keeps_files (match ?x with _ => _ end) => destruct x
      | |- keeps_files (let (_, _) := ?x in _) => destruct x
      end ].

Lemma get_section_info_keeps_files c p p_infile :
  keeps_files (get_section_info c p p_infile).
Proof. unfold get_section_info. keeps_files. Qed.

Lemma open_output_file_Done filename sz w w1 p_file :
  open_output_file filename sz w = (w1, Done (Some p_file)) ->
  disk w !! file p_file = None
  /\ directory w1 !! filename = Some (file p_file)
  /\ (forall other, other <> filename ->
        directory w1 !! other = directory w !! other)
  /\ is_Some (disk w1 !! file p_file).
Proof.
  intros H.
  destruct (open_output_file_new_object filename sz w) as (_ & H2 & H3).
  rewrite H in H2, H3. simpl in H2, H3.
  destruct (H3 _ eq_refl) as (? & ? & _ & ?). done.
Qed.

Lemma output_filename_Done in_filename new_name_a out_filename :
  output_filename in_filename new_name_a = Done out_filename ->
  out_filename
  = with_exe_suffix (directory_of in_filename +:+ base_name new_name_a).
Proof.
  unfold output_filename, directory_of, base_name, with_exe_suffix.
  destruct (strrchr in_filename "/") as [p|]; [|discriminate].
  destruct (strrchr new_name_a "/") as [q|]; [|discriminate].
  repeat case_bool_decide; try discriminate;
    destruct (String.eqb _ ".exe"); congruence.
Qed.

Lemma bind_copy_and_report {B} t p info p_infile p_outfile
    (k : file_data * list chunk -> M B) w :
  bind (copy_and_report t p info p_infile p_outfile) k w
  = match copy_executable_and_dump_data t p info p_infile p_outfile with
    | Some dumped => k dumped (reported t p_outfile dumped.2 w)
    | None => (w, Undefined)
    end.
Proof.
  unfold copy_and_report, bind, GetEnvironmentVariable, reported, be_verbose,
    copier_report.
  destruct (copy_executable_and_dump_data _ _ _ _ _) as [dumped|]; [|done].
  simpl. by destruct (0 <? _).
Qed.

Lemma reported_world t p_outfile l w :
  directory (reported t p_outfile l w) = directory w
  /\ disk (reported t p_outfile l w) = disk w
  /\ CheckSumMappedFile (reported t p_outfile l w) = CheckSumMappedFile w
  /\ stdout (reported t p_outfile l w)
     = stdout w ++ (if be_verbose w then copier_report t p_outfile l else []).
Proof.
  unfold reported. destruct (be_verbose w); simpl; [done|].
  by rewrite app_nil_r.
Qed.

Lemma copier_file t p info p_infile p_outfile dumped :
  copy_executable_and_dump_data t p info p_infile p_outfile = Some dumped ->
  file dumped.1 = file p_outfile.
Proof.
  unfold copy_executable_and_dump_data. intros H.
  destruct (copy_sections _ _ _ _ _ _ _ _ _) as [table c1].
  destruct (last_raw _) as [last|]; [|discriminate]. simpl in H.
  destruct (patch_sections _ _ _ _ _ _) as [[[table' ini] unini]|];
    [|discriminate]. simpl in H.
  destruct (ADJUST_OFFSET _ _ _ _); [|discriminate]. simpl in H.
  destruct (patch_debug_directory _ _ _ _); [|discriminate]. simpl in H.
  by injection H as <-.
Qed.

Lemma close_file_data_input p_file w : close_file_data p_file false w = (w, Done tt).
Proof. reflexivity. Qed.

(** C8, amended: a run of [unexec] that completes has written the new
    executable under the directory of the running program's own
    executable and the base name of the requested output path, with
    ".exe" appended unless the name ends in it: that name links to a file
    object that did not exist before, and no other name of the directory
    has been linked or re-linked. *)
Theorem unexec_writes_beside_own_executable c p new_name old_name w w' :
  unexec c p new_name old_name w = (w', Done tt) ->
  exists in_filename id,
    module_file_name w = Some in_filename
    /\ let out_filename :=
         with_exe_suffix (directory_of (slashes in_filename)
                          +:+ base_name (filename_to_ansi c new_name)) in
       directory w' !! out_filename = Some id
       /\ disk w !! id = None
       /\ is_Some (disk w' !! id)
       /\ (forall other, other <> out_filename ->
             directory w' !! other = directory w !! other).
Proof.
  intros Hr. unfold unexec in Hr. rewrite bind_GetModuleFileNameA in Hr.
  destruct (module_file_name w) as [in_filename|] eqn:Hm; [|discriminate].
  destruct (output_filename (slashes in_filename) (filename_to_ansi c new_name))
    as [out_filename| | |] eqn:Hout; try discriminate.
  apply output_filename_Done in Hout.
  rewrite bind_lift_Done, !bind_printf in Hr.
  set (w2 := with_stdout _ _) in Hr.
  unfold bind at 1 in Hr. rewrite open_input_file_world in Hr.
  destruct ((open_input_file (slashes in_filename) w2).2)
    as [[in_file|]| | |] eqn:Hin; try discriminate.
  unfold bind at 1 in Hr.
  destruct (get_section_info_keeps_files c p in_file w2) as [Hd3 Hk3].
  destruct (get_section_info c p in_file w2) as [w3 [info| | |]] eqn:Hinfo;
    try discriminate. simpl in Hd3, Hk3.
  unfold bind at 1 in Hr.
  destruct (open_output_file out_filename _ w3) as [w4 [[out_file|]| | |]] eqn:Hopen;
    try discriminate.
  apply open_output_file_Done in Hopen as (Hnew & Hlink & Hother & [f Hf]).
  rewrite bind_copy_and_report in Hr.
  destruct (copy_executable_and_dump_data _ _ _ _ _) as [dumped|] eqn:Hcopy;
    [|discriminate].
  destruct (reported_world (cfg_target c) out_file dumped.2 w4)
    as (Hrd & Hrk & _ & _).
  unfold bind at 1 in Hr. unfold GetProcAddress_CheckSumMappedFile at 1 in Hr.
  cbv beta iota zeta in Hr. unfold bind in Hr.
  rewrite close_file_data_input in Hr.
  unfold close_file_data in Hr. simpl file in Hr.
  rewrite (copier_file _ _ _ _ _ _ Hcopy), Hrk, Hf in Hr.
  injection Hr as <-. simpl. rewrite ?Hrd, ?Hrk.
  exists in_filename, (file out_file). split; [done|]. rewrite <- Hout.
  split; [done|]. split; [by rewrite <- Hk3|].
  split; [rewrite lookup_insert_eq; eauto|].
  intros other Hne. rewrite <- Hd3. by apply Hother.
Qed.

(** ** The copier returns *)

Lemma last_raw_is_Some l : is_Some (last_raw l) <-> has_raw_data l.
Proof.
  rewrite last_raw_filter. unfold last_with_raw_data, has_raw_data. split.
  - intros [s Hs]. exists s. apply last_Some_elem_of in Hs.
    by apply list_elem_of_filter in Hs as [? ?].
  - intros (s & Hin & Hs).
    destruct (filter _ l) as [|x l'] eqn:E using rev_ind.
    + assert (s ∈ filter (fun s => PointerToRawData s <> 0) l) as H
        by (by apply list_elem_of_filter).
      rewrite E in H. by apply elem_of_nil in H.
    + rewrite last_snoc. eauto.
Qed.


Lemma relocate_loop_defined t offset src dst fuel i :
  length dst = length src ->
  has_raw_data src -> has_raw_data dst ->
  (i + fuel = length src)%nat -> (0 < fuel)%nat ->
  is_Some (relocate_loop t offset src dst i fuel).
Proof.
  intros Hlen Hs Hd. apply last_raw_is_Some in Hs as [s' Hs'].
  apply last_raw_is_Some in Hd as [d' Hd']. revert i.
  induction fuel as [|fuel IH]; intros i Hi Hpos; [lia|]. simpl.
  destruct (lookup_lt_is_Some_2 src i ltac:(lia)) as [s Hsi].
  destruct (lookup_lt_is_Some_2 dst i ltac:(lia)) as [d Hdi].
  rewrite Hsi. simpl.
  destruct ((PointerToRawData s <=? offset) && negb (offset <? raw_end s)).
  - case_bool_decide as HN.
    + rewrite Hd'. simpl. rewrite (last_raw_from_last _ _ HN), Hs'. simpl. eauto.
    + apply IH; lia.
  - rewrite Hdi. simpl. eauto.
Qed.






Lemma copier_unfold t p info p_infile p_outfile :
  copy_executable_and_dump_data t p info p_infile p_outfile
  = let dos_header := file_base p_infile in
    let nt_header := nt_headers dos_header in
    let align := FileAlignment nt_header in
    let dst_nt_header :=
      set_SizeOfHeaders (DWORD (dst (after_headers t p_infile p_outfile)))
        nt_header in
    let table := (after_sections t p info p_infile p_outfile).1 in
    let c := (after_sections t p info p_infile p_outfile).2 in
    let dst_nt_header := with_sections table dst_nt_header in
    last ← last_raw (sections nt_header);
    let offset := ROUND_UP (raw_end last) (FileAlignment nt_header) in
    let c := COPY_CHUNK t "Copying remainder of executable..."
               (contents dos_header) offset (size p_infile - offset) c in
    '(table, initialized, uninitialized) ←
      patch_sections t (sections nt_header) align 0
        (NumberOfSections dst_nt_header) (sections dst_nt_header, 0, 0);
    let dst_nt_header :=
      set_data_sizes initialized uninitialized
        (with_sections table dst_nt_header) in
    symtab ← ADJUST_OFFSET t (PointerToSymbolTable dst_nt_header)
               (sections nt_header) (sections dst_nt_header);
    let dst_nt_header := set_PointerToSymbolTable symtab dst_nt_header in
    m ← patch_debug_directory t (sections nt_header) dst_nt_header (view c);
    Some ({| name := name p_outfile; size := DWORD (dst c);
             file := file p_outfile; base_address := base_address p_outfile;
             file_base := {| e_magic := e_magic dos_header;
                             e_lfanew := e_lfanew dos_header;
                             nt_headers := dst_nt_header;
                             contents := m |} |},
          chunks c).
Proof.
  unfold copy_executable_and_dump_data, after_sections, after_headers.
  cbv zeta. simpl sections.
  by destruct (copy_sections _ _ _ _ _ _ _ _ _).
Qed.


(** ** The layout of the output *)

Lemma ROUND_UP_idempotent p align :
  0 < align -> ROUND_UP (ROUND_UP p align) align = ROUND_UP p align.
Proof. intros H. apply ROUND_UP_aligned; [done | apply ROUND_UP_multiple]. Qed.





Section Layout.
Variables (t : target) (p : process) (info : section_info) (src : Z -> Z).
Variables (align : Z) (k : nat) (sk : IMAGE_SECTION_HEADER) (R : Z).
Hypothesis Halign : 0 < align.
Hypothesis Hbss : bss_section info = Some k.
Hypothesis Hstatic : bss_section_static info = None.
Hypothesis HR : R = ROUND_UP (bss_end_offset t p info sk) align - SizeOfRawData sk.
Hypothesis HR0 : 0 <= R.
Hypothesis Hsk : (align | SizeOfRawData sk).




End Layout.

Lemma after_headers_dst t p_infile p_outfile :
  let im := file_base p_infile in
  0 <= e_lfanew im -> 0 <= SizeOfOptionalHeader (nt_headers im) ->
  section_table_end im < 2 ^ 32 ->
  dst (after_headers t p_infile p_outfile)
  = ROUND_UP (section_table_end im) (FileAlignment (nt_headers im)).
Proof.
  intros im H1 H2 H3. unfold after_headers, section_table_end in *. fold im.
  unfold first_section_offset, sizeof_section_header in *. simpl.
  pose proof (ptr_bits_ge t).
  rewrite !DWORD_PTR_small by lia. f_equal. lia.
Qed.






(** ** The theorems at work on the example *)

Lemma relocate_offset_no_growth_witness :
  relocate_offset Win32 200 example_sections example_sections = Some 200.
Proof.
  apply relocate_offset_no_growth.
  - simpl. lia.
  - repeat constructor.
  - eexists. vm_compute. reflexivity.
Defined.

Lemma relocate_offset_shift_witness :
  relocate_offset Win32 245 example_sections dumped_sections = Some 293
  /\ relocate_offset Win32 258 example_sections dumped_sections = Some 306.
Proof.
  split.
  - destruct (relocate_offset_shift Win32 245 example_sections dumped_sections
                eq_refl) as [H _].
    apply (H 3%nat _ _ eq_refl eq_refl). unfold covers. simpl. lia.
  - destruct (relocate_offset_shift Win32 258 example_sections dumped_sections
                eq_refl) as (_ & H & _).
    apply (H (example_section ".rsrc" 16 0x4000 16 240 0x40)
             (example_section ".rsrc" 16 0x4000 16 288 0x40));
      [|vm_compute; reflexivity..].
    repeat constructor; simpl; lia.
Defined.

Lemma example_has_no_EMDATA : has_EMDATA example_file = false.
Proof. vm_compute. reflexivity. Qed.

Lemma region_across_sections_is_fatal_witness :
  exists d, bailing d = true
    /\ (unexec example_config spanning_process "D:/out/emacs" "" example_world).2
       = Exited 1
    /\ stdout (unexec example_config spanning_process "D:/out/emacs" ""
                 example_world).1
       = [Dumping_from "C:/bin/temacs.exe"; Dumping_to "C:/bin/emacs.exe"; d]
    /\ directory (unexec example_config spanning_process "D:/out/emacs" ""
                    example_world).1 = directory example_world
    /\ disk (unexec example_config spanning_process "D:/out/emacs" ""
               example_world).1 = disk example_world.
Proof.
  apply (region_across_sections_is_fatal example_config spanning_process
           "D:/out/emacs" "" example_world "C:\bin\temacs.exe"
           "C:/bin/emacs.exe" example_file).
  - reflexivity.
  - vm_compute. reflexivity.
  - vm_compute. reflexivity.
  - unfold tracked_regions. rewrite example_has_no_EMDATA.
    repeat constructor.
    + exists 1%nat, (example_section ".data" 16 0x2000 16 224 0x40).
      split; [reflexivity | vm_compute; reflexivity].
    + exists 2%nat, (example_section ".bss" 0x100 0x3000 0 0 0x80).
      split; [reflexivity | vm_compute; reflexivity].
    + exists 2%nat, (example_section ".bss" 0x100 0x3000 0 0 0x80).
      split; [reflexivity | vm_compute; reflexivity].
  - unfold tracked_regions. rewrite example_has_no_EMDATA.
    apply Exists_cons_tl, Exists_cons_hd.
    intros (k & s & Hk & H1 & H2).
    destruct k as [|[|[|[|k]]]]; simpl in Hk; try discriminate;
      injection Hk as <-; vm_compute in H1, H2; discriminate.
Defined.



(** The claim of C8 fails as it stands: asked for "D:/out/emacs", a run
    that completes has linked no file to "D:/out/emacs.exe"; the new
    executable is "C:/bin/emacs.exe", next to the running one. *)
Lemma unexec_ignores_requested_directory :
  example_run.2 = Done tt
  /\ with_exe_suffix "D:/out/emacs" = "D:/out/emacs.exe"%string
  /\ directory example_run.1 !! "D:/out/emacs.exe"%string = None
  /\ directory example_run.1 !! "C:/bin/emacs.exe"%string = Some 1%nat.
Proof. vm_compute. repeat split. Qed.

Lemma unexec_writes_beside_own_executable_witness :
  exists in_filename id,
    module_file_name example_world = Some in_filename
    /\ directory example_run.1
       !! with_exe_suffix (directory_of (slashes in_filename)
                           +:+ base_name "D:/out/emacs") = Some id
    /\ disk example_world !! id = None
    /\ is_Some (disk example_run.1 !! id).
Proof.
  destruct (unexec_writes_beside_own_executable example_config example_process
              "D:/out/emacs" "" example_world example_run.1)
    as (in_filename & id & H1 & H2 & H3 & H4 & _).
  - change (example_run = (example_run.1, Done tt)).
    rewrite (surjective_pairing example_run) at 1.
    f_equal; vm_compute; reflexivity.
  - exists in_filename, id. repeat split; assumption.
Defined.

(** ** What the copier leaves as it was *)

Lemma copier_result t p info p_infile p_outfile out l :
  copy_executable_and_dump_data t p info p_infile p_outfile = Some (out, l) ->
  let src := file_base p_infile in
  let hs := nt_headers src in
  let table := (after_sections t p info p_infile p_outfile).1 in
  exists last table' ini unini symtab m,
    last_raw (sections hs) = Some last
    /\ patch_sections t (sections hs) (FileAlignment hs) 0 (length table)
         (table, 0, 0) = Some (table', ini, unini)
    /\ patch_debug_directory t (sections hs) (nt_headers (file_base out))
         (view (after_remainder t p info p_infile p_outfile last)) = Some m
    /\ size out = DWORD (dst (after_remainder t p info p_infile p_outfile last))
    /\ file_base out
       = {| e_magic := e_magic src; e_lfanew := e_lfanew src;
            nt_headers :=
              set_PointerToSymbolTable symtab
                (set_data_sizes ini unini
                   (with_sections table'
                      (set_SizeOfHeaders
                         (DWORD (dst (after_headers t p_infile p_outfile))) hs)));
            contents := m |}.
Proof.
  rewrite copier_unfold. cbv zeta. intros H.
  destruct (last_raw _) as [last|]; [|discriminate]. simpl in H.
  unfold NumberOfSections in H. simpl sections in H.
  destruct (patch_sections _ _ _ _ _ _) as [[[table' ini] unini]|] eqn:E1;
    [|discriminate]. simpl in H.
  destruct (ADJUST_OFFSET _ _ _ _) as [symtab|]; [|discriminate]. simpl in H.
  destruct (patch_debug_directory _ _ _ _) as [m|] eqn:E2; [|discriminate].
  simpl in H. injection H as <- <-. simpl.
  exists last, table', ini, unini, symtab, m. done.
Qed.

Lemma patch_sections_fields {B} (f : IMAGE_SECTION_HEADER -> B) t src align n :
  (forall v d, f (set_PointerToLinenumbers v d) = f d) ->
  forall i table ini unini table' ini' unini',
    patch_sections t src align i n (table, ini, unini)
    = Some (table', ini', unini') ->
    map f table' = map f table.
Proof.
  intros Hf. induction n as [|n IH]; intros i table ini unini table' ini' unini';
    simpl.
  - by intros [= <- _ _].
  - destruct (table !! i) as [d|] eqn:Hd; [|discriminate]. simpl.
    destruct (ADJUST_OFFSET _ _ _ _) as [v|]; [|discriminate]. simpl.
    intros H. apply IH in H. rewrite H.
    change (map f) with (fmap (M:=list) f).
    rewrite list_fmap_insert, Hf. apply list_insert_id.
    by rewrite list_lookup_fmap, Hd.
Qed.

Lemma copy_section_fields t p info src align i s d c :
  frame_fields (copy_section t p info src align i s d c).1 = frame_fields d
  /\ (~ grown info i ->
      SizeOfRawData (copy_section t p info src align i s d c).1 = SizeOfRawData d
      /\ Characteristics (copy_section t p info src align i s d c).1
         = Characteristics d).
Proof.
  unfold copy_section, grown.
  repeat case_bool_decide; destruct (PointerToRawData d =? 0); simpl;
    (split; [reflexivity | intros Hn; try done]);
    exfalso; apply Hn; auto.
Qed.

Lemma copy_sections_fields t p info src align l :
  forall dsts i c,
    let r := copy_sections t p info src align i l dsts c in
    map frame_fields r.1 = map frame_fields dsts
    /\ forall j d d', dsts !! j = Some d -> r.1 !! j = Some d' ->
         ~ grown info (i + j) ->
         SizeOfRawData d' = SizeOfRawData d /\ Characteristics d' = Characteristics d.
Proof.
  induction l as [|s l IH]; intros [|d dsts] i c; simpl;
    try (split; [done|]; intros j x y H1 H2; split; congruence).
  destruct (copy_section_fields t p info src align i s d c) as [F1 F2].
  destruct (copy_section t p info src align i s d c) as [d1 c1].
  destruct (IH dsts (S i) c1) as [G1 G2].
  destruct (copy_sections t p info src align (S i) l dsts c1) as [ds c2].
  simpl in *. split; [by rewrite F1, G1|].
  intros [|j] x y Hx Hy Hn; simpl in *.
  - injection Hx as <-. injection Hy as <-. rewrite Nat.add_0_r in Hn. auto.
  - apply (G2 j); try done. by rewrite Nat.add_succ_r in Hn.
Qed.

(** Facts on the terms [ROUND_UP _ align] and [DWORD_PTR t _] of the
    goal, for [lia]. *)
Ltac bounds Ha :=
  repeat match goal with
    | |- context [ROUND_UP ?x ?a] =>
        lazymatch goal with
        | _ : x <= ROUND_UP x a |- _ => fail
        | _ => pose proof (ROUND_UP_ge x a Ha)
        end
    | |- context [DWORD_PTR ?t ?x] =>
        lazymatch goal with
        | _ : 0 <= DWORD_PTR t x < _ |- _ => fail
        | _ => pose proof (DWORD_PTR_range t x)
        end
    | |- context [DWORD ?x] =>
        lazymatch goal with
        | _ : 0 <= DWORD x < _ |- _ => fail
        | _ => pose proof (DWORD_range x)
        end
    end.

(** The tests of [memcpy] and [memset] in the goal, decided by [lia]. *)
Ltac ranges :=
  repeat match goal with
    | |- context [(?a <=? ?b) && (?c <? ?d)] =>
        destruct (Z.leb_spec a b), (Z.ltb_spec c d); simpl; try lia
    end.

(** One iteration writes at or after the cursor it starts with, and
    leaves the cursor no lower. *)
Lemma copy_section_frame t p info src align i s d c :
  0 < align -> 0 <= SizeOfRawData d ->
  let r := copy_section t p info src align i s d c in
  dst c <= dst r.2 /\ forall a, a < dst c -> view r.2 a = view c a.
Proof.
  intros Ha HS. unfold copy_section, dump_bss.
  repeat case_bool_decide; destruct (PointerToRawData d =? 0); simpl;
    unfold memcpy, memset, RVA_TO_SECTION_OFFSET; simpl;
    bounds Ha; (split; [lia|]); intros a Hlt; bounds Ha; ranges; reflexivity.
Qed.

(** A section that owns none of the dumped areas: its raw data is copied
    to the cursor, zeros follow up to the next boundary, where the cursor
    is left. *)
Lemma copy_section_copies t p info src align i s d c :
  0 < align -> ~ owner info i ->
  let r := copy_section t p info src align i s d c in
  let n := DWORD_PTR t (SizeOfRawData s) in
  dst c + n <= dst r.2
  /\ (forall o, 0 <= o < n -> view r.2 (dst c + o) = src (PointerToRawData s + o))
  /\ (forall a, dst c + n <= a < dst r.2 -> view r.2 a = 0)
  /\ dst r.2 = ROUND_UP (dst c + n) align.
Proof.
  intros Ha Hown. unfold copy_section, owner in *.
  rewrite !bool_decide_eq_false_2 by (intros E; apply Hown; auto).
  simpl. unfold memcpy, memset. bounds Ha.
  rewrite ROUND_UP_idempotent by done. split; [lia|]. split; [|split].
  - intros o Ho. ranges; try (f_equal; lia).
  - intros a Hr. ranges; reflexivity.
  - reflexivity.
Qed.

Lemma copy_section_pointer t p info src align i s d c :
  PointerToRawData d <> 0 ->
  PointerToRawData (copy_section t p info src align i s d c).1 = DWORD (dst c).
Proof.
  intros HP. unfold copy_section, dump_bss.
  destruct (Z.eqb_spec (PointerToRawData d) 0); [done|].
  repeat case_bool_decide; reflexivity.
Qed.

(** The loop over the sections writes at or after the cursor it starts
    with; each section is placed at some offset [start] between that
    cursor and the last, which becomes its raw-data offset if it has raw
    data; and the raw data of a section that owns no dumped area lies
    there in the output as it does in the source. *)
Lemma copy_sections_view t p info src align l :
  0 < align -> Forall (fun s => 0 <= SizeOfRawData s < 2 ^ 32) l ->
  forall i c,
    let r := copy_sections t p info src align i l l c in
    dst c <= dst r.2
    /\ (forall a, a < dst c -> view r.2 a = view c a)
    /\ forall j s d, l !! j = Some s -> r.1 !! j = Some d ->
         exists start,
           dst c <= start <= dst r.2
           /\ (PointerToRawData s <> 0 -> PointerToRawData d = DWORD start)
           /\ (~ owner info (i + j) ->
               ROUND_UP (start + SizeOfRawData s) align <= dst r.2
               /\ (forall o, 0 <= o < SizeOfRawData s ->
                     view r.2 (start + o) = src (PointerToRawData s + o))
               /\ (forall a, start + SizeOfRawData s <= a
                               < ROUND_UP (start + SizeOfRawData s) align ->
                     view r.2 a = 0)).
Proof.
  intros Ha. induction l as [|s l IH]; intros Hall i c.
  - simpl. split; [lia|]. split; [done|]. intros j s d H. discriminate.
  - apply Forall_cons in Hall as [HS Hall]. simpl.
    destruct (copy_section_frame t p info src align i s s c Ha ltac:(lia))
      as [F1 F2].
    pose proof (copy_section_copies t p info src align i s s c Ha) as F3.
    pose proof (copy_section_pointer t p info src align i s s c) as F4.
    destruct (copy_section t p info src align i s s c) as [d1 c1].
    destruct (IH Hall (S i) c1) as (G1 & G2 & G3).
    destruct (copy_sections t p info src align (S i) l l c1) as [ds c2].
    simpl in *. split; [lia|]. split.
    { intros a Hlt. rewrite G2 by lia. by apply F2. }
    intros [|j] x y Hx Hy; simpl in *.
    + injection Hx as <-. injection Hy as <-. exists (dst c).
      split; [lia|]. split; [done|]. rewrite Nat.add_0_r. intros Hown.
      destruct (F3 Hown) as (H1 & H2 & H3 & H4).
      pose proof (ptr_bits_ge t).
      rewrite DWORD_PTR_small in H1, H2, H3, H4 by lia.
      pose proof (ROUND_UP_ge (dst c + SizeOfRawData s) align Ha).
      split; [lia|]. split.
      * intros o Ho. rewrite G2 by lia. by apply H2.
      * intros a Hr. rewrite G2 by lia. apply H3. lia.
    + destruct (G3 j x y Hx Hy) as (start & H1 & H2 & H3).
      exists start. split; [lia|]. split; [done|].
      by rewrite Nat.add_succ_r.
Qed.

Lemma after_headers_view t p_infile p_outfile :
  let im := file_base p_infile in
  let c := after_headers t p_infile p_outfile in
  0 < FileAlignment (nt_headers im) ->
  0 <= e_lfanew im -> 0 <= SizeOfOptionalHeader (nt_headers im) ->
  section_table_end im < 2 ^ 32 ->
  section_table_end im <= dst c
  /\ dst c = ROUND_UP (section_table_end im) (FileAlignment (nt_headers im))
  /\ (forall a, 0 <= a < section_table_end im -> view c a = contents im a)
  /\ (forall a, section_table_end im <= a < dst c -> view c a = 0).
Proof.
  intros im c Ha H1 H2 H3.
  pose proof (after_headers_dst t p_infile p_outfile H1 H2 H3) as Hdst.
  fold im c in Hdst.
  pose proof (ROUND_UP_ge (section_table_end im) _ Ha).
  split; [lia|]. split; [done|]. rewrite Hdst. subst c.
  unfold after_headers, section_table_end in *. fold im.
  unfold first_section_offset, sizeof_section_header in *. simpl.
  pose proof (ptr_bits_ge t). unfold memcpy, memset.
  rewrite !DWORD_PTR_small by lia.
  set (te := e_lfanew im + (24 + SizeOfOptionalHeader (nt_headers im))
             + 40 * Z.of_nat (NumberOfSections (nt_headers im))) in *.
  replace (0 + e_lfanew im + (24 + SizeOfOptionalHeader (nt_headers im))
           + Z.of_nat (NumberOfSections (nt_headers im)) * 40) with te
    by (subst te; lia).
  split.
  - intros a Hr. ranges; f_equal; lia.
  - intros a Hr. ranges; reflexivity.
Qed.

Lemma patch_debug_entries_frame t src dst n :
  forall entry m m' a,
    patch_debug_entries t src dst entry n m = Some m' ->
    (forall j, 0 <= j < Z.of_nat n ->
       ~ (entry + sizeof_debug_directory * j + debug_PointerToRawData <= a
          < entry + sizeof_debug_directory * j + debug_PointerToRawData + 4)) ->
    m' a = m a.
Proof.
  induction n as [|n IH]; intros entry m m' a; simpl.
  - by intros [= <-].
  - destruct (ADJUST_OFFSET _ _ _ _) as [v|]; [|discriminate]. simpl.
    intros H Hout. rewrite (IH _ _ _ a H).
    + unfold set32. specialize (Hout 0 ltac:(lia)).
      rewrite Z.mul_0_r, Z.add_0_r in Hout. ranges; reflexivity.
    + intros j Hj. specialize (Hout (j + 1) ltac:(lia)).
      unfold sizeof_debug_directory in *. lia.
Qed.

Lemma patch_debug_directory_frame t src h m m' a :
  patch_debug_directory t src h m = Some m' ->
  ~ in_debug_field t h a -> m' a = m a.
Proof.
  unfold patch_debug_directory, in_debug_field.
  destruct (rva_to_section _ _) as [k|]; simpl; [|by intros [= <-]].
  destruct (sections h !! k) as [section|]; simpl; [|discriminate].
  intros H Hout. apply (patch_debug_entries_frame _ _ _ _ _ _ _ _ H).
  intros j Hj Hr. apply Hout. exists j. split; [done|]. simpl. lia.
Qed.

Lemma lookup_map_eq {A B} (f : A -> B) (l' l : list A) i d :
  map f l' = map f l -> l' !! i = Some d ->
  exists d0, l !! i = Some d0 /\ f d0 = f d.
Proof.
  intros Hm Hd.
  assert ((f <$> l) !! i = Some (f d)) as H.
  { change (f <$> l) with (map f l). rewrite <- Hm.
    change (map f l') with (f <$> l'). by rewrite list_lookup_fmap, Hd. }
  rewrite list_lookup_fmap in H.
  destruct (l !! i) as [d0|]; [|discriminate]. injection H as H. eauto.
Qed.

(** The claim of C6 fails as it stands: in the run of the example the
    four bytes between the end of the section table (188) and the first
    raw data (192) are none of the fields or contents that the claim lets
    change, and the copier has put zeros there. *)
Lemma header_padding_not_copied :
  example_run.2 = Done tt
  /\ contents example_image 190 = 190
  /\ contents example_dumped_image 190 = 0
  /\ ~ bytes_before_sections_unchanged example_image example_dumped_image.
Proof.
  split; [vm_compute; reflexivity|]. split; [reflexivity|].
  assert (contents example_dumped_image 190 = 0) as H0
    by (vm_compute; reflexivity).
  split; [exact H0|]. intros H. specialize (H 190).
  rewrite H0 in H. discriminate H.
  - vm_compute. discriminate.
  - assert (sections (nt_headers example_dumped_image) = dumped_sections) as ->
      by (vm_compute; reflexivity).
    assert (Forall (fun s => PointerToRawData s = 0 \/ 190 < PointerToRawData s)
              (sections (nt_headers example_image) ++ dumped_sections)) as HF
      by (repeat constructor; simpl; lia).
    intros s Hs. by apply (proj1 (Forall_forall _ _) HF).
Qed.

(** ** Where the copier places the raw data *)

Lemma compact_end_sizes align l : forall l' pos,
  map SizeOfRawData l = map SizeOfRawData l' ->
  compact_end align pos l = compact_end align pos l'.
Proof.
  induction l as [|s l IH]; intros [|s' l'] pos H; simpl in *; try done.
  injection H as Hs Hl. rewrite Hs. by apply IH.
Qed.

Lemma compact_end_snoc align l s : forall pos,
  compact_end align pos (l ++ [s])
  = ROUND_UP (compact_end align pos l + SizeOfRawData s) align.
Proof. induction l as [|x l IH]; intros pos; simpl; [done|]. apply IH. Qed.

Lemma section_offset_same t p d s x :
  VirtualAddress d = VirtualAddress s ->
  section_offset t p d x = section_offset t p s x.
Proof. unfold section_offset, RVA_TO_SECTION_OFFSET. by intros ->. Qed.

(** The block that dumps a bss area leaves the cursor at the end of the
    area, rounded up, or at the end of the raw data that the section has
    so far, whichever is later. *)
Lemma dump_bss_cursor t p align msg start sz dst_save d c :
  let r := dump_bss t p align msg start sz dst_save d c in
  let extent :=
    Z.max (ROUND_UP (dst_save + section_offset t p d start + DWORD_PTR t sz)
             align)
          (dst_save + SizeOfRawData d) in
  dst r.2 = extent
  /\ SizeOfRawData r.1 = DWORD (extent - dst_save)
  /\ PointerToRawData r.1 = DWORD dst_save
  /\ VirtualAddress r.1 = VirtualAddress d.
Proof. done. Qed.

(** One turn of the loop leaves the cursor at the end of the raw data of
    the section, as the output has it, rounded up; the raw data is at the
    cursor that the turn starts with. *)
Lemma copy_section_cursor t p info src align i s c :
  0 < align -> 0 <= SizeOfRawData s < 2 ^ 32 -> 0 <= dst c ->
  (bss_section info = Some i -> bss_end_offset t p info s + align <= 2 ^ 32) ->
  let r := copy_section t p info src align i s s c in
  dst r.2 < 2 ^ 32 ->
  dst r.2 = ROUND_UP (dst c + SizeOfRawData r.1) align
  /\ (PointerToRawData s = 0 -> ~ grown info i -> PointerToRawData r.1 = 0)
  /\ (PointerToRawData s <> 0 \/ grown info i -> PointerToRawData r.1 = dst c).
Proof.
  intros Ha HS Hc Hfit r. subst r. unfold copy_section, grown.
  pose proof (ptr_bits_ge t) as Hbits.
  set (d1 := if PointerToRawData s =? 0 then s
             else set_PointerToRawData (DWORD (dst c)) s).
  assert (SizeOfRawData d1 = SizeOfRawData s
          /\ VirtualAddress d1 = VirtualAddress s
          /\ (PointerToRawData s = 0 -> PointerToRawData d1 = 0)
          /\ (PointerToRawData s <> 0 -> PointerToRawData d1 = DWORD (dst c)))
    as (Hd1 & Hva & Hp0 & Hp1)
    by (subst d1; destruct (Z.eqb_spec (PointerToRawData s) 0); done).
  clearbody d1.
  set (c3 := if bool_decide (Some i = data_section info) then _ else _).
  assert (ROUND_UP (dst c3) align = ROUND_UP (dst c + SizeOfRawData s) align)
    as Hc3.
  { subst c3. case_bool_decide; simpl.
    - by rewrite Hd1.
    - rewrite DWORD_PTR_small by lia. by apply ROUND_UP_idempotent. }
  clearbody c3.
  destruct (decide (bss_section info = Some i)) as [Hb|Hb];
    destruct (decide (bss_section_static info = Some i)) as [Hst|Hst].
  - rewrite !bool_decide_eq_true_2 by done.
    destruct (dump_bss_cursor t p align "Dumping bss data..." (bss_start info)
                (bss_size info) (dst c) d1 c3) as (E1 & E2 & E3 & E4).
    destruct (dump_bss t p align "Dumping bss data..." _ _ _ d1 c3)
      as [d2 c4]. simpl in E1, E2, E3, E4.
    destruct (dump_bss_cursor t p align "Dumping static bss data..."
                (bss_start_static info) (bss_size_static info) (dst c) d2 c4)
      as (F1 & F2 & F3 & F4).
    destruct (dump_bss t p align "Dumping static bss data..." _ _ _ d2 c4)
      as [d3 c5]. simpl in F1, F2, F3, F4 |- *.
    specialize (Hfit Hb). unfold bss_end_offset in Hfit.
    rewrite (section_offset_same t p d1 s) in E1, E2 by done.
    rewrite Hd1 in E1, E2.
    pose proof (ROUND_UP_lt (dst c + section_offset t p s (bss_start info)
                             + DWORD_PTR t (bss_size info)) align Ha).
    rewrite DWORD_small in E2 by lia. rewrite E2 in F1, F2.
    intros Hlt. pose proof (ROUND_UP_ge (dst c5) align Ha).
    rewrite DWORD_small in F2 by lia. rewrite F2, F3, DWORD_small by lia.
    split; [f_equal; lia|]. split; [intros _ Hn; destruct Hn; auto|done].
  - rewrite bool_decide_eq_true_2 by done.
    rewrite (bool_decide_eq_false_2 (Some i = bss_section_static info))
      by congruence.
    destruct (dump_bss_cursor t p align "Dumping bss data..." (bss_start info)
                (bss_size info) (dst c) d1 c3) as (E1 & E2 & E3 & E4).
    destruct (dump_bss t p align "Dumping bss data..." _ _ _ d1 c3)
      as [d2 c4]. simpl in E1, E2, E3, E4 |- *.
    intros Hlt. pose proof (ROUND_UP_ge (dst c4) align Ha).
    rewrite E2, E3, !DWORD_small by lia.
    split; [f_equal; lia|]. split; [intros _ Hn; destruct Hn; auto|done].
  - rewrite (bool_decide_eq_false_2 (Some i = bss_section info)) by congruence.
    rewrite bool_decide_eq_true_2 by done.
    destruct (dump_bss_cursor t p align "Dumping static bss data..."
                (bss_start_static info) (bss_size_static info) (dst c) d1 c3)
      as (E1 & E2 & E3 & E4).
    destruct (dump_bss t p align "Dumping static bss data..." _ _ _ d1 c3)
      as [d2 c4]. simpl in E1, E2, E3, E4 |- *.
    intros Hlt. pose proof (ROUND_UP_ge (dst c4) align Ha).
    rewrite E2, E3, !DWORD_small by lia.
    split; [f_equal; lia|]. split; [intros _ Hn; destruct Hn; auto|done].
  - rewrite (bool_decide_eq_false_2 (Some i = bss_section info)) by congruence.
    rewrite (bool_decide_eq_false_2 (Some i = bss_section_static info))
      by congruence.
    simpl. rewrite Hc3, Hd1. intros Hlt.
    pose proof (ROUND_UP_ge (dst c + SizeOfRawData s) align Ha).
    split; [done|]. split; [auto|].
    intros [Hp|[Hg|Hg]]; [|done|done].
    rewrite (Hp1 Hp). apply DWORD_small. lia.
Qed.

(** The loop places the raw data of each section that has some, or owns
    a bss area, at the end of the raw data of the sections before it. *)
Lemma copy_sections_placement t p info src align l :
  0 < align -> Forall (fun s => 0 <= SizeOfRawData s < 2 ^ 32) l ->
  forall i c,
    0 <= dst c ->
    (forall j s, l !! j = Some s -> bss_section info = Some (i + j)%nat ->
       bss_end_offset t p info s + align <= 2 ^ 32) ->
    let r := copy_sections t p info src align i l l c in
    dst r.2 < 2 ^ 32 ->
    dst r.2 = compact_end align (dst c) r.1
    /\ forall j s d, l !! j = Some s -> r.1 !! j = Some d ->
         (PointerToRawData s = 0 -> ~ grown info (i + j) ->
          PointerToRawData d = 0)
         /\ (PointerToRawData s <> 0 \/ grown info (i + j) ->
             PointerToRawData d = compact_end align (dst c) (take j r.1)).
Proof.
  intros Ha. induction l as [|s l IH]; intros Hall i c Hc Hfit.
  - simpl. intros _. split; [done|]. intros j s d H. discriminate.
  - apply Forall_cons in Hall as [HS Hall]. simpl.
    pose proof (copy_section_cursor t p info src align i s c Ha HS Hc) as F.
    destruct (copy_section_frame t p info src align i s s c Ha ltac:(lia))
      as [F1 _].
    destruct (copy_section t p info src align i s s c) as [d1 c1] eqn:E1.
    pose proof (copy_sections_view t p info src align l Ha Hall (S i) c1)
      as (G1 & _ & _).
    specialize (IH Hall (S i) c1).
    destruct (copy_sections t p info src align (S i) l l c1) as [ds c2].
    simpl in *. intros Hlt.
    destruct F as (FA & FB & FC); [|lia|].
    { intros Hb. apply (Hfit 0%nat s); [done|]. by rewrite Nat.add_0_r. }
    destruct IH as [IH1 IH2]; [lia| |done|].
    { intros j s' Hs' Hb. apply (Hfit (S j) s'); [done|].
      by rewrite Nat.add_succ_r. }
    rewrite <- FA. split; [done|].
    intros [|j] x y Hx Hy; simpl in *.
    + injection Hx as <-. injection Hy as <-. rewrite Nat.add_0_r. done.
    + rewrite Nat.add_succ_r, <- FA. by apply IH2.
Qed.

Lemma compact_lookup align l : forall pos i s,
  compact align pos l = true -> l !! i = Some s -> PointerToRawData s <> 0 ->
  PointerToRawData s = compact_end align pos (take i l).
Proof.
  induction l as [|x l IH]; intros pos i s; [done|].
  simpl. rewrite !andb_true_iff. intros [[HP HS] Hl].
  destruct i as [|i]; simpl.
  - intros [= <-] Hne. destruct (Z.eqb_spec (PointerToRawData x) 0); [done|].
    by apply Z.eqb_eq in HP.
  - by apply IH.
Qed.

Lemma take_sizes {A} (f : A -> Z) (l l' : list A) i :
  length l = length l' ->
  (forall j x y, (j < i)%nat -> l !! j = Some x -> l' !! j = Some y ->
     f x = f y) ->
  map f (take i l) = map f (take i l').
Proof.
  revert l' i. induction l as [|x l IH]; intros [|y l'] [|i] Hlen H;
    simpl in *; try done.
  f_equal.
  - apply (H 0%nat); [lia|done|done].
  - apply IH; [lia|]. intros j a b Hj. apply (H (S j)). lia.
Qed.

(** C6, amended: the output of a run of the copier is the source except
    for what the claim lists, except that the raw data is laid out anew,
    and except that alignment padding is filled with zeros instead of
    being copied.  (1) The DOS header fields and the NT header fields
    other than the header size, the two data sizes and the symbol-table
    pointer are the same.  (2) The section table has the same entries in
    the same order: name, virtual size and address, relocation fields and
    line-number count of each entry are the same, and so are the raw-data
    size and the characteristics of every section that owns no bss area.
    (3) The raw-data offset of a section that has no raw data and owns no
    bss area stays 0; that of every other section is where the raw data
    of the sections before it ends: from the end of the section table
    rounded up to the file alignment, the raw-data size that each of them
    has in the output is added and the sum rounded up ([compact_end]).
    (4) When the source is laid out in this way, the
    raw-data offset of a section with raw data is the same unless a
    section before it owns a bss area.  (5) Outside the raw-data pointers
    of the debug directory entries: every byte before the section table
    that lies in none of the header fields that the copier writes is the
    same, and the padding after the section table is zero; (6) the raw
    data of every section that owns no dumped area is the same, at the
    section's raw-data offset in the output, and the padding after it is
    zero; (7) the bytes after the raw data of the last section are the
    same, at the end of the output. *)
Theorem copier_changes_only_what_it_patches t p info p_infile p_outfile out l
    last :
  let src := file_base p_infile in
  let hs := nt_headers src in
  let hn := nt_headers (file_base out) in
  let new := contents (file_base out) in
  let align := FileAlignment hs in
  let rest := size p_infile - ROUND_UP (raw_end last) align in
  let first := ROUND_UP (section_table_end src) align in
  copy_executable_and_dump_data t p info p_infile p_outfile = Some (out, l) ->
  last_raw (sections hs) = Some last ->
  0 < align -> 0 <= e_lfanew src -> 0 <= SizeOfOptionalHeader hs ->
  Forall (fun s => 0 <= SizeOfRawData s < 2 ^ 32) (sections hs) ->
  0 <= size p_infile < 2 ^ 32 ->
  section_table_end src < 2 ^ 32 ->
  dst (after_remainder t p info p_infile p_outfile last) < 2 ^ 32 ->
  bss_area_fits t p info align (sections hs) ->
  (e_magic (file_base out) = e_magic src
   /\ e_lfanew (file_base out) = e_lfanew src
   /\ Signature hn = Signature hs
   /\ SizeOfOptionalHeader hn = SizeOfOptionalHeader hs
   /\ ImageBase hn = ImageBase hs /\ FileAlignment hn = FileAlignment hs
   /\ DebugDirectory hn = DebugDirectory hs /\ CheckSum hn = CheckSum hs)
  /\ (map frame_fields (sections hn) = map frame_fields (sections hs)
      /\ forall i s d, sections hs !! i = Some s -> sections hn !! i = Some d ->
           ~ grown info i ->
           SizeOfRawData d = SizeOfRawData s
           /\ Characteristics d = Characteristics s)
  /\ (forall i s d, sections hs !! i = Some s -> sections hn !! i = Some d ->
        (PointerToRawData s = 0 -> ~ grown info i -> PointerToRawData d = 0)
        /\ (PointerToRawData s <> 0 \/ grown info i ->
            PointerToRawData d
            = compact_end align first (take i (sections hn))))
  /\ (compact align first (sections hs) = true ->
      forall i s d, sections hs !! i = Some s -> sections hn !! i = Some d ->
        PointerToRawData s <> 0 ->
        (forall j, (j < i)%nat -> ~ grown info j) ->
        PointerToRawData d = PointerToRawData s)
  /\ (forall a, ~ in_debug_field t hn a ->
        (0 <= a < e_lfanew src + first_section_offset hs ->
         ~ in_patched_header_field src a -> new a = contents src a)
        /\ (section_table_end src <= a < first -> new a = 0))
  /\ (forall i s d, sections hs !! i = Some s -> sections hn !! i = Some d ->
        ~ owner info i -> PointerToRawData s <> 0 ->
        forall a, ~ in_debug_field t hn a ->
          let data_end := PointerToRawData d + SizeOfRawData s in
          (PointerToRawData d <= a < data_end ->
           new a = contents src (PointerToRawData s + (a - PointerToRawData d)))
          /\ (data_end <= a < ROUND_UP data_end align -> new a = 0))
  /\ (forall o, 0 <= o < rest -> ~ in_debug_field t hn (size out - rest + o) ->
        new (size out - rest + o) = contents src (size p_infile - rest + o)).
Proof.
  intros src hs hn new align rest first Hrun Hlast Ha Hlfa Hopt Hall Hsz Hte32
    Hfit Hareas.
  destruct (copier_result _ _ _ _ _ _ _ Hrun)
    as (last' & table' & ini & unini & symtab & m & Hlast' & Hpatch & Hdebug
        & Hsize & Hbase).
  fold src hs in Hlast', Hpatch, Hdebug, Hbase. fold hn in Hdebug.
  assert (last' = last) as -> by congruence.
  set (ct := after_remainder t p info p_infile p_outfile last) in *.
  assert (new = m) as Hnew by (subst new; by rewrite Hbase).
  assert (sections hn = table') as Hsec by (subst hn; by rewrite Hbase).
  (* the loop over the sections *)
  pose proof (copy_sections_fields t p info (contents src) align (sections hs)
                (sections hs) 0 (after_headers t p_infile p_outfile)) as [HF1 HF2].
  pose proof (copy_sections_view t p info (contents src) align (sections hs)
                Ha Hall 0 (after_headers t p_infile p_outfile)) as (HV1 & HV2 & HV3).
  pose proof (copy_sections_placement t p info (contents src) align
                (sections hs) Ha Hall 0 (after_headers t p_infile p_outfile))
    as HP.
  change (copy_sections t p info (contents src) align 0 (sections hs)
            (sections hs) (after_headers t p_infile p_outfile))
    with (after_sections t p info p_infile p_outfile)
    in HF1, HF2, HV1, HV2, HV3, HP.
  set (table := (after_sections t p info p_infile p_outfile).1) in *.
  set (c1 := (after_sections t p info p_infile p_outfile).2) in *.
  (* the remainder *)
  assert (dst c1 <= dst ct
          /\ (forall a, a < dst c1 -> view ct a = view c1 a)
          /\ (forall o, 0 <= o < rest ->
                dst ct = dst c1 + rest
                /\ view ct (dst c1 + o) = contents src (size p_infile - rest + o)))
    as (HT1 & HT2 & HT3).
  { subst ct. unfold after_remainder. fold src hs align c1 rest. simpl.
    unfold memcpy. pose proof (DWORD_PTR_range t rest). split; [lia|].
    split; [intros a Hlt; ranges; reflexivity|].
    intros o Ho. pose proof (ptr_bits_ge t).
    pose proof (ROUND_UP_ge (raw_end last) align Ha).
    pose proof (DWORD_range (PointerToRawData last + SizeOfRawData last)).
    unfold raw_end in *. rewrite DWORD_PTR_small by (subst rest; lia).
    split; [done|]. ranges. f_equal. subst rest. lia. }
  (* the headers *)
  assert (0 < section_table_end src) as Hte.
  { unfold section_table_end, first_section_offset, sizeof_section_header.
    fold hs. lia. }
  pose proof (after_headers_view t p_infile p_outfile Ha Hlfa Hopt Hte32)
    as (HH1 & HH2 & HH3 & HH4).
  fold src hs align in HH1, HH2, HH3, HH4.
  set (c0 := after_headers t p_infile p_outfile) in *.
  fold first in HH2.
  assert (0 <= dst ct < 2 ^ 32) as Hct by lia.
  (* below the cursor, the debug directory apart, nothing is written
     after the loop *)
  assert (forall a, ~ in_debug_field t hn a -> a < dst c1 -> new a = view c1 a)
    as Hlow.
  { intros a Hd Hlt.
    rewrite Hnew, (patch_debug_directory_frame _ _ _ _ _ _ Hdebug Hd).
    by apply HT2. }
  (* the entries of the table *)
  assert (map frame_fields (sections hn) = map frame_fields (sections hs)
          /\ forall i s d, sections hs !! i = Some s -> sections hn !! i = Some d ->
               ~ grown info i ->
               SizeOfRawData d = SizeOfRawData s
               /\ Characteristics d = Characteristics s) as Hentries.
  { split.
    - rewrite Hsec, <- HF1.
      apply (patch_sections_fields frame_fields _ _ _ _ ltac:(done) _ _ _ _ _ _ _
               Hpatch).
    - intros i s d Hs Hd Hg. rewrite Hsec in Hd.
      pose proof (patch_sections_fields
                    (fun x => (SizeOfRawData x, Characteristics x))
                    _ _ _ _ ltac:(done) _ _ _ _ _ _ _ Hpatch) as Hm.
      destruct (lookup_map_eq _ _ _ _ _ Hm Hd) as (d0 & Hd0 & E).
      injection E as E1 E2. rewrite <- E1, <- E2.
      by apply (HF2 i s d0). }
  (* the raw-data offsets *)
  assert (forall i s d, sections hs !! i = Some s -> sections hn !! i = Some d ->
            (PointerToRawData s = 0 -> ~ grown info i -> PointerToRawData d = 0)
            /\ (PointerToRawData s <> 0 \/ grown info i ->
                PointerToRawData d
                = compact_end align first (take i (sections hn)))) as Hoffsets.
  { assert (0 <= dst c0) as H0 by lia.
    specialize (HP H0 Hareas). cbv zeta in HP.
    destruct HP as [_ HP]; [change (dst c1 < 2 ^ 32); lia|].
    intros i s d Hs Hd. rewrite Hsec in Hd |- *.
    pose proof (patch_sections_fields PointerToRawData
                  _ _ _ _ ltac:(done) _ _ _ _ _ _ _ Hpatch) as Hm.
    pose proof (patch_sections_fields SizeOfRawData
                  _ _ _ _ ltac:(done) _ _ _ _ _ _ _ Hpatch) as Hm'.
    destruct (lookup_map_eq _ _ _ _ _ Hm Hd) as (d0 & Hd0 & E).
    destruct (HP i s d0 Hs Hd0) as [P0 P1]. rewrite <- E, <- HH2.
    split; [done|]. intros H. rewrite (P1 H).
    apply compact_end_sizes.
    change (map SizeOfRawData) with (fmap (M:=list) SizeOfRawData).
    rewrite !fmap_take. f_equal. symmetry. exact Hm'. }
  split.
  { subst hn. rewrite Hbase. repeat split; reflexivity. }
  split; [exact Hentries|].
  split; [exact Hoffsets|].
  split.
  { intros Hcompact i s d Hs Hd Hraw Hbefore.
    rewrite (proj2 (Hoffsets i s d Hs Hd) (or_introl Hraw)).
    rewrite (compact_lookup _ _ _ _ _ Hcompact Hs Hraw).
    apply compact_end_sizes, take_sizes.
    - destruct Hentries as [Hlen _].
      apply (f_equal length) in Hlen. by rewrite !length_map in Hlen.
    - intros j x y Hj Hx Hy.
      by destruct (proj2 Hentries j y x Hy Hx (Hbefore j Hj)) as [-> _]. }
  split.
  { intros a Hd. split.
    - intros Hr _.
      assert (0 <= a < section_table_end src) as Hr'.
      { unfold section_table_end, sizeof_section_header. fold hs. lia. }
      rewrite Hlow by (done || lia). rewrite HV2 by lia. by apply HH3.
    - intros Hr. rewrite Hlow by (done || lia). rewrite HV2 by lia.
      apply HH4. lia. }
  split.
  { intros i s d Hs Hd Hown Hraw a Hdbg data_end. rewrite Hsec in Hd.
    pose proof (patch_sections_fields PointerToRawData
                  _ _ _ _ ltac:(done) _ _ _ _ _ _ _ Hpatch) as Hm.
    destruct (lookup_map_eq _ _ _ _ _ Hm Hd) as (d0 & Hd0 & E).
    destruct (HV3 i s d0 Hs Hd0) as (start & Hst & Hptr & Hview).
    destruct (Hview Hown) as (Hend & Hdata & Hpad).
    assert (PointerToRawData d = start) as Hp.
    { rewrite <- E, (Hptr Hraw). apply DWORD_small. lia. }
    pose proof (proj1 (Forall_forall _ _) Hall s
                  (list_elem_of_lookup_2 _ _ _ Hs)) as Hsize'.
    pose proof (ROUND_UP_ge (start + SizeOfRawData s) align Ha).
    subst data_end. rewrite Hp. split; intros Hr.
    - rewrite Hlow by (done || lia).
      replace a with (start + (a - start)) at 1 by lia. apply Hdata. lia.
    - rewrite Hlow by (done || lia). by apply Hpad. }
  intros o Ho Hdbg. destruct (HT3 o Ho) as [Hd Hv].
  assert (size out - rest + o = dst c1 + o) as E.
  { rewrite Hsize, DWORD_small by lia. lia. }
  rewrite E in Hdbg |- *.
  by rewrite Hnew, (patch_debug_directory_frame _ _ _ _ _ _ Hdebug Hdbg).
Qed.

Lemma copier_changes_only_what_it_patches_witness :
  let s := example_section ".text" 32 0x1000 32 208 0x20 in
  let d := example_section ".text" 32 0x1000 32 192 0x20 in
  copy_executable_and_dump_data Win32 example_process example_info
    padded_file example_output = Some (padded_out, padded_chunks)
  /\ sections (nt_headers (file_base padded_file)) !! 0%nat = Some s
  /\ sections (nt_headers (file_base padded_out)) !! 0%nat = Some d
  /\ PointerToRawData d = 192
  /\ map frame_fields (sections (nt_headers (file_base padded_out)))
     = map frame_fields padded_sections
  /\ contents (file_base padded_out) 10 = contents example_image 10
  /\ contents (file_base padded_out) 190 = 0.
Proof.
  intros s d.
  assert (copy_executable_and_dump_data Win32 example_process example_info
            padded_file example_output = Some (padded_out, padded_chunks))
    as Hrun by (vm_compute; reflexivity).
  assert (sections (nt_headers (file_base padded_file)) !! 0%nat = Some s)
    as Hs by reflexivity.
  assert (sections (nt_headers (file_base padded_out)) !! 0%nat = Some d)
    as Hd by (vm_compute; reflexivity).
  split; [exact Hrun|]. split; [exact Hs|]. split; [exact Hd|].
  assert (forall a, ~ in_debug_field Win32
                        (nt_headers (file_base padded_out)) a) as Hdbg.
  { intros a H. vm_compute in H. exact H. }
  destruct (copier_changes_only_what_it_patches Win32 example_process
              example_info padded_file example_output padded_out
              padded_chunks (example_section ".rsrc" 16 0x4000 16 256 0x40))
    as (_ & [H2 _] & H3 & _ & H5 & _).
  - exact Hrun.
  - reflexivity.
  - simpl. lia.
  - simpl. lia.
  - simpl. lia.
  - repeat constructor; simpl; lia.
  - simpl. lia.
  - vm_compute. reflexivity.
  - vm_compute. reflexivity.
  - intros i x Hx Hb. vm_compute in Hb. injection Hb as <-.
    vm_compute in Hx. injection Hx as <-. vm_compute. discriminate.
  - destruct (H3 0%nat s d Hs Hd) as [_ H4].
    assert (PointerToRawData s <> 0) as Hne by (intros H; discriminate H).
    specialize (H4 (or_introl Hne)).
    split; [rewrite H4; vm_compute; reflexivity|].
    split; [exact H2|].
    split; [apply (H5 10 (Hdbg 10)) | apply (H5 190 (Hdbg 190))].
    + vm_compute. split; congruence.
    + intros H. vm_compute in H.
      destruct H as [[H _]|[[H _]|[H _]]]; apply H; reflexivity.
    + vm_compute. split; congruence.
Defined.

(** ** The section locator on names shorter than the field *)

Lemma strcmp_prefix name : forall mem,
  c_string name -> (length name < length mem)%nat ->
  exists c, strcmp mem (name ++ [0]) = Some c
    /\ (c = 0 <-> take (S (length name)) mem = name ++ [0]).
Proof.
  induction name as [|y name IH]; intros [|x mem] Hn Hlen; simpl in *; try lia.
  - destruct (x =? 0) eqn:E.
    + apply Z.eqb_eq in E as ->. exists 0. by rewrite take_0.
    + apply Z.eqb_neq in E. exists (x - 0). split; [done|].
      rewrite take_0. split; [lia|]. intros [= ->]. done.
  - apply Forall_cons in Hn as [Hy Hn].
    destruct (x =? y) eqn:E.
    + apply Z.eqb_eq in E as ->.
      destruct (y =? 0) eqn:E0; [apply Z.eqb_eq in E0; done|].
      destruct (IH mem Hn ltac:(lia)) as (c & Hc & Hiff).
      exists c. split; [done|]. rewrite Hiff. split; [congruence|].
      by intros [= ->].
    + apply Z.eqb_neq in E. exists (x - y). split; [done|].
      split; [lia|]. by intros [= -> _].
Qed.

Lemma padded_inj a b n m :
  c_string a -> c_string b ->
  a ++ replicate n 0 = b ++ replicate m 0 -> a = b.
Proof.
  revert b. induction a as [|x a IH]; intros [|y b] Ha Hb; simpl.
  - done.
  - apply Forall_cons in Hb as [Hy _]. destruct n; simpl; [done|].
    intros [= <- _]. done.
  - apply Forall_cons in Ha as [Hx _]. destruct m; simpl; [done|].
    intros [= -> _]. done.
  - apply Forall_cons in Ha as [_ Ha]. apply Forall_cons in Hb as [_ Hb].
    intros [= -> H]. f_equal. by apply IH.
Qed.

Lemma name_field_short s :
  (length (Name s) < 8)%nat -> name_field s = padded_name (Name s).
Proof.
  intros H. unfold name_field, padded_name.
  rewrite take_app_ge by lia. f_equal. rewrite take_replicate. f_equal. lia.
Qed.

Lemma name_field_long s :
  (8 <= length (Name s))%nat -> name_field s = take 8 (Name s).
Proof. intros H. unfold name_field. by rewrite take_app_le by lia. Qed.

Lemma name_matches_prefix name s rest :
  c_string name -> c_string (Name s) -> (length name < 8)%nat ->
  take (S (length name)) (name_field s ++ rest) = name ++ [0]
  <-> name_field s = padded_name name.
Proof.
  intros Hn Hs Hlen.
  rewrite take_app_le by (rewrite length_name_field; lia).
  destruct (decide (length (Name s) < 8)%nat) as [Hshort|Hlong].
  - rewrite name_field_short by done. unfold padded_name. split.
    + intros H.
      assert (Name s = name) as ->; [|done].
      replace (8 - length (Name s))%nat
        with (S (length name) - length (Name s)
              + (8 - length (Name s) - (S (length name) - length (Name s))))%nat
        in H by lia.
      destruct (decide (length (Name s) <= S (length name))%nat).
      * rewrite take_app_ge in H by lia.
        rewrite take_replicate in H.
        apply (padded_inj _ _ _ 1 Hs Hn H).
      * rewrite take_app_le in H by lia.
        assert (Forall (fun b => b <> 0) (name ++ [0])) as Hz.
        { rewrite <- H. by apply Forall_take. }
        apply Forall_app in Hz as [_ Hz]. apply Forall_cons in Hz as [Hz _].
        done.
    + intros H. apply padded_inj in H as ->; [|done..].
      rewrite take_app_ge by lia. f_equal.
      rewrite take_replicate. replace (_ `min` _)%nat with 1%nat by lia. done.
  - rewrite name_field_long by lia. split.
    + intros H.
      assert (Forall (fun b => b <> 0) (name ++ [0])) as Hz.
      { rewrite <- H. by do 2 apply Forall_take. }
      apply Forall_app in Hz as [_ Hz]. apply Forall_cons in Hz as [Hz _]. done.
    + intros H. unfold padded_name in H.
      assert (Forall (fun b => b <> 0) (name ++ replicate (8 - length name) 0))
        as Hz.
      { rewrite <- H. by apply Forall_take. }
      apply Forall_app in Hz as [_ Hz].
      destruct (8 - length name)%nat eqn:E; [lia|].
      apply Forall_cons in Hz as [Hz _]. done.
Qed.

Lemma find_section_loop_short name secs rest i :
  c_string name -> (length name < 8)%nat ->
  Forall (fun s => c_string (Name s)) secs ->
  find_section_loop name (section_table_bytes secs ++ rest) i (length secs)
  = Some (first_index (name_matches name) secs i).
Proof.
  intros Hn Hlen. revert i. induction secs as [|s secs IH]; intros i Hall; simpl.
  - done.
  - apply Forall_cons in Hall as [Hs Hall].
    unfold section_table_bytes in *. simpl. rewrite <- app_assoc.
    set (tail := concat (map section_bytes secs) ++ rest) in *.
    destruct (strcmp_prefix name (section_bytes s ++ tail) Hn) as (c & Hc & Hiff).
    { rewrite length_app, length_section_bytes. lia. }
    rewrite Hc. unfold section_bytes at 1 in Hiff. rewrite <- app_assoc in Hiff.
    rewrite (name_matches_prefix _ _ _ Hn Hs Hlen) in Hiff.
    unfold name_matches. destruct (c =? 0) eqn:E.
    + apply Z.eqb_eq in E. rewrite bool_decide_eq_true_2 by by apply Hiff.
      done.
    + apply Z.eqb_neq in E. rewrite bool_decide_eq_false_2 by (by rewrite <- Hiff).
      rewrite drop_app_length'; [by apply IH | by rewrite length_section_bytes].
Qed.

(** [find_section] on a name shorter than the field (as "EMDATA", the
    one name the program asks for): when the names in the table are C
    strings that the field pads with zeros, the locator returns the first
    section whose eight-byte name field is the name padded with zeros,
    and reads nothing outside the table. *)
Theorem find_section_short_name name secs rest :
  c_string name -> (length name < 8)%nat ->
  Forall (fun s => c_string (Name s)) secs ->
  find_section name secs rest = Some (locate_by_name_field name secs).
Proof. apply find_section_loop_short. Qed.

Lemma find_section_short_name_witness :
  find_section (bytes_of_string ".data") example_sections []
  = Some (Some 1%nat).
Proof.
  rewrite (find_section_short_name (bytes_of_string ".data") example_sections []).
  - reflexivity.
  - repeat constructor; simpl; lia.
  - simpl. lia.
  - repeat constructor; simpl; lia.
Defined.

(** ** The offset relocator: its scans, and the offsets between sections *)

(** [relocate_offset] stays inside the two section tables, and so returns
    an offset, whenever the tables have the same number of entries and
    each has a section with raw data: the condition under which its two
    backward scans for a section with raw data end within the table. *)
Theorem relocate_offset_stays_in_tables t offset src dst :
  length dst = length src -> has_raw_data src -> has_raw_data dst ->
  is_Some (relocate_offset t offset src dst).
Proof.
  intros Hlen Hs Hd. unfold relocate_offset.
  apply relocate_loop_defined; try done.
  destruct Hs as (s & Hin & _). destruct src; [by apply elem_of_nil in Hin|].
  simpl. lia.
Qed.

Lemma relocate_offset_stays_in_tables_witness :
  is_Some (relocate_offset Win32 5000 example_sections dumped_sections).
Proof.
  apply relocate_offset_stays_in_tables.
  - reflexivity.
  - exists (example_section ".text" 32 0x1000 32 192 0x20).
    split; [apply list_elem_of_here | simpl; lia].
  - exists (example_section ".text" 32 0x1000 32 192 0x20).
    split; [apply list_elem_of_here | simpl; lia].
Defined.

Lemma relocate_loop_before t offset src dst k s d fuel i :
  Forall (fun x => PointerToRawData x <= offset /\ raw_end x <= offset)
    (take k src) ->
  src !! k = Some s -> dst !! k = Some d -> offset < PointerToRawData s ->
  (i <= k < i + fuel)%nat ->
  relocate_loop t offset src dst i fuel
  = Some (DWORD_PTR t (offset + DWORD (PointerToRawData d - PointerToRawData s))).
Proof.
  intros Hall Hs Hd Hlt. revert i.
  induction fuel as [|fuel IH]; intros i Hik; [lia|]. simpl.
  destruct (decide (i = k)) as [->|Hne].
  - rewrite Hs. simpl.
    replace (PointerToRawData s <=? offset) with false
      by (symmetry; apply Z.leb_gt; lia).
    simpl. by rewrite Hd.
  - pose proof (lookup_lt_Some _ _ _ Hs) as Hk.
    destruct (lookup_lt_is_Some_2 src i ltac:(lia)) as [si Hsi].
    rewrite Hsi. simpl.
    assert (take k src !! i = Some si) as Hti
      by (rewrite lookup_take_lt by lia; done).
    destruct (proj1 (Forall_lookup _ _) Hall _ _ Hti) as [H1 H2].
    replace (PointerToRawData si <=? offset) with true
      by (symmetry; apply Z.leb_le; lia).
    replace (offset <? raw_end si) with false
      by (symmetry; apply Z.ltb_ge; lia).
    simpl. rewrite bool_decide_eq_false_2 by lia. apply IH. lia.
Qed.

(** An offset that no raw-data range covers and that is not past them
    all: it lies before the raw data of section [k], and at or after the
    start and the end of the raw data of every earlier section (in the
    headers when [k] is 0, else in a gap between sections).  The relocator
    shifts it by the displacement of section [k], the next section. *)
Theorem relocate_offset_between_sections t offset src dst k s d :
  Forall (fun x => PointerToRawData x <= offset /\ raw_end x <= offset)
    (take k src) ->
  src !! k = Some s -> dst !! k = Some d -> offset < PointerToRawData s ->
  relocate_offset t offset src dst
  = Some (DWORD_PTR t (offset + DWORD (PointerToRawData d - PointerToRawData s))).
Proof.
  intros Hall Hs Hd Hlt. unfold relocate_offset.
  apply (relocate_loop_before _ _ _ _ k); try done.
  pose proof (lookup_lt_Some _ _ _ Hs). lia.
Qed.

Lemma relocate_offset_between_sections_witness :
  relocate_offset Win32 230
    [example_section ".text" 32 0x1000 32 192 0x20;
     example_section ".rsrc" 16 0x4000 16 240 0x40]
    [example_section ".text" 32 0x1000 32 192 0x20;
     example_section ".rsrc" 16 0x4000 16 288 0x40]
  = Some 278.
Proof.
  rewrite (relocate_offset_between_sections Win32 230 _ _ 1
             (example_section ".rsrc" 16 0x4000 16 240 0x40)
             (example_section ".rsrc" 16 0x4000 16 288 0x40)).
  - reflexivity.
  - repeat constructor; vm_compute; discriminate.
  - reflexivity.
  - reflexivity.
  - simpl. lia.
Defined.

(** ** The copier: the header fields it recomputes *)

Lemma copier_inversion t p info p_infile p_outfile out l :
  copy_executable_and_dump_data t p info p_infile p_outfile = Some (out, l) ->
  let src := file_base p_infile in
  let hs := nt_headers src in
  let hn := nt_headers (file_base out) in
  let table := (after_sections t p info p_infile p_outfile).1 in
  let c1 := (after_sections t p info p_infile p_outfile).2 in
  patch_sections t (sections hs) (FileAlignment hs) 0 (length table) (table, 0, 0)
  = Some (sections hn, SizeOfInitializedData hn, SizeOfUninitializedData hn)
  /\ ADJUST_OFFSET t (PointerToSymbolTable hs) (sections hs) (sections hn)
     = Some (PointerToSymbolTable hn)
  /\ SizeOfHeaders hn = DWORD (dst (after_headers t p_infile p_outfile))
  /\ FileAlignment hn = FileAlignment hs
  /\ (forall a, ~ in_debug_field t hn a -> a < dst c1 ->
        contents (file_base out) a = view c1 a).
Proof.
  rewrite copier_unfold. cbv zeta. intros H.
  destruct (last_raw _) as [last|]; [|discriminate]. simpl in H.
  unfold NumberOfSections in H. simpl sections in H.
  destruct (patch_sections _ _ _ _ _ _) as [[[table' ini] unini]|] eqn:E1;
    [|discriminate]. simpl in H.
  destruct (ADJUST_OFFSET _ _ _ _) as [symtab|] eqn:E2; [|discriminate].
  simpl in H.
  destruct (patch_debug_directory _ _ _ _) as [m|] eqn:E3; [|discriminate].
  simpl in H. injection H as <- <-. simpl.
  split; [done|]. split; [done|]. split; [done|]. split; [done|].
  intros a Hd Hlt. rewrite (patch_debug_directory_frame _ _ _ _ _ _ E3 Hd).
  unfold memcpy. ranges; reflexivity.
Qed.

Lemma after_headers_nonneg t p_infile p_outfile :
  0 < FileAlignment (nt_headers (file_base p_infile)) ->
  0 <= dst (after_headers t p_infile p_outfile).
Proof.
  intros Ha. unfold after_headers. simpl. bounds Ha. lia.
Qed.

Lemma after_sections_first t p info p_infile p_outfile s l :
  sections (nt_headers (file_base p_infile)) = s :: l ->
  (after_sections t p info p_infile p_outfile).1 !! 0%nat
  = Some (copy_section t p info (contents (file_base p_infile))
            (FileAlignment (nt_headers (file_base p_infile))) 0 s s
            (after_headers t p_infile p_outfile)).1.
Proof.
  intros E. unfold after_sections. rewrite E. simpl.
  destruct (copy_section _ _ _ _ _ _ _ _ _) as [d c1].
  by destruct (copy_sections _ _ _ _ _ _ _ _ _).
Qed.

(** The header size that the copier records is the end of the section
    table rounded up to the file alignment, and the raw data of the first
    section, if it has any, is placed right there. *)
Theorem copier_sets_header_size t p info p_infile p_outfile out l :
  let src := file_base p_infile in
  let hs := nt_headers src in
  let hn := nt_headers (file_base out) in
  copy_executable_and_dump_data t p info p_infile p_outfile = Some (out, l) ->
  0 < FileAlignment hs -> 0 <= e_lfanew src -> 0 <= SizeOfOptionalHeader hs ->
  ROUND_UP (section_table_end src) (FileAlignment hs) < 2 ^ 32 ->
  SizeOfHeaders hn = ROUND_UP (section_table_end src) (FileAlignment hs)
  /\ forall s d, sections hs !! 0%nat = Some s -> sections hn !! 0%nat = Some d ->
       PointerToRawData s <> 0 -> PointerToRawData d = SizeOfHeaders hn.
Proof.
  intros src hs hn Hrun Ha Hlfa Hopt Hfit.
  destruct (copier_inversion _ _ _ _ _ _ _ Hrun) as (Hpatch & _ & HS & _).
  fold src hs hn in Hpatch, HS.
  pose proof (ROUND_UP_ge (section_table_end src) _ Ha) as Hup.
  assert (0 <= section_table_end src) as Hte0.
  { unfold section_table_end, first_section_offset, sizeof_section_header.
    fold hs. lia. }
  assert (section_table_end src < 2 ^ 32) as Hte by lia.
  pose proof (after_headers_dst t p_infile p_outfile Hlfa Hopt Hte) as Hdst.
  fold src hs in Hdst. rewrite HS.
  split; [rewrite Hdst; apply DWORD_small; lia|].
  intros s d Hs Hd HP.
  pose proof (patch_sections_fields PointerToRawData _ _ _ _ ltac:(done)
                _ _ _ _ _ _ _ Hpatch) as Hm.
  destruct (lookup_map_eq _ _ _ _ _ Hm Hd) as (d0 & Hd0 & E).
  destruct (sections hs) as [|s0 rest] eqn:Es; [discriminate|].
  injection Hs as ->.
  rewrite (after_sections_first _ _ _ _ _ _ _ Es) in Hd0. injection Hd0 as <-.
  rewrite <- E. by apply copy_section_pointer.
Qed.

Lemma example_copy_runs :
  copy_executable_and_dump_data Win32 example_process example_info
    example_file example_output = Some (example_out, example_chunks).
Proof. vm_compute. reflexivity. Qed.

Lemma copier_sets_header_size_witness :
  SizeOfHeaders (nt_headers (file_base example_out)) = 192.
Proof.
  destruct (copier_sets_header_size Win32 example_process example_info
              example_file example_output example_out example_chunks)
    as [H _].
  - exact example_copy_runs.
  - simpl. lia.
  - simpl. lia.
  - simpl. lia.
  - vm_compute. reflexivity.
  - rewrite H. vm_compute. reflexivity.
Defined.

Lemma DWORD_add_l a b : DWORD (DWORD a + b) = DWORD (a + b).
Proof. unfold DWORD, wrap. by rewrite Zplus_mod_idemp_l. Qed.

Lemma aligned_virtual_sizes_same align counted l l' :
  map VirtualSize l' = map VirtualSize l ->
  map counted l' = map counted l ->
  aligned_virtual_sizes align counted l' = aligned_virtual_sizes align counted l.
Proof.
  revert l'. induction l as [|d l IH]; intros [|d' l']; simpl; try done.
  intros [= -> H1] [= -> H2]. by rewrite (IH l').
Qed.

Lemma patch_sections_totals t src align n :
  forall i table ini unini table' ini' unini',
    patch_sections t src align i n (table, ini, unini)
    = Some (table', ini', unini') ->
    (i + n = length table)%nat ->
    DWORD ini'
    = DWORD (ini + aligned_virtual_sizes align counts_as_initialized
                     (drop i table))
    /\ DWORD unini'
       = DWORD (unini + aligned_virtual_sizes align counts_as_uninitialized
                          (drop i table))
    /\ (0 <= ini < 2 ^ 32 -> 0 <= ini' < 2 ^ 32)
    /\ (0 <= unini < 2 ^ 32 -> 0 <= unini' < 2 ^ 32).
Proof.
  induction n as [|n IH]; intros i table ini unini table' ini' unini'; simpl.
  - intros [= <- <- <-] Hlen. rewrite drop_ge by lia. simpl.
    by rewrite !Z.add_0_r.
  - destruct (table !! i) as [d|] eqn:Hd; [|discriminate]. simpl.
    destruct (ADJUST_OFFSET _ _ _ _) as [v|]; [|discriminate]. simpl.
    intros H Hlen. apply IH in H; [|rewrite length_insert; lia].
    destruct H as (H1 & H2 & H3 & H4).
    rewrite drop_insert_lt in H1, H2 by lia.
    rewrite (drop_S _ _ _ Hd). simpl.
    unfold counts_as_initialized, counts_as_uninitialized in *.
    destruct (has_flag IMAGE_SCN_CNT_INITIALIZED_DATA d); simpl in *.
    + rewrite DWORD_add_l in H1. rewrite H1, H2.
      split; [f_equal; lia|]. split; [f_equal; lia|].
      split; [|done]. intros _. apply H3, DWORD_range.
    + destruct (has_flag IMAGE_SCN_CNT_UNINITIALIZED_DATA d); simpl in *.
      * rewrite DWORD_add_l in H2. rewrite H1, H2.
        split; [f_equal; lia|]. split; [f_equal; lia|].
        split; [done|]. intros _. apply H4, DWORD_range.
      * rewrite H1, H2. split; [f_equal; lia|]. split; [f_equal; lia|]. done.
Qed.

(** The two aggregate sizes that the copier recomputes are sums over the
    section table of the output, taken as [DWORD]s: the initialized size
    adds up the virtual size, rounded up to the file alignment, of every
    section flagged as initialized data (those with a dumped bss area
    among them), the uninitialized size that of the sections flagged as
    uninitialized data and not as initialized data. *)
Theorem copier_recomputes_data_sizes t p info p_infile p_outfile out l :
  let hn := nt_headers (file_base out) in
  copy_executable_and_dump_data t p info p_infile p_outfile = Some (out, l) ->
  SizeOfInitializedData hn
  = DWORD (aligned_virtual_sizes (FileAlignment hn) counts_as_initialized
             (sections hn))
  /\ SizeOfUninitializedData hn
     = DWORD (aligned_virtual_sizes (FileAlignment hn) counts_as_uninitialized
                (sections hn)).
Proof.
  intros hn Hrun.
  destruct (copier_inversion _ _ _ _ _ _ _ Hrun) as (Hpatch & _ & _ & HA & _).
  fold hn in Hpatch, HA. rewrite HA.
  pose proof (patch_sections_fields VirtualSize _ _ _ _ ltac:(done)
                _ _ _ _ _ _ _ Hpatch) as HV.
  pose proof (patch_sections_fields counts_as_initialized _ _ _ _ ltac:(done)
                _ _ _ _ _ _ _ Hpatch) as HI.
  pose proof (patch_sections_fields counts_as_uninitialized _ _ _ _ ltac:(done)
                _ _ _ _ _ _ _ Hpatch) as HU.
  apply patch_sections_totals in Hpatch as (H1 & H2 & H3 & H4); [|done].
  rewrite drop_0 in H1, H2. simpl in H1, H2.
  rewrite <- (DWORD_small (SizeOfInitializedData hn)) by (apply H3; lia).
  rewrite <- (DWORD_small (SizeOfUninitializedData hn)) by (apply H4; lia).
  rewrite H1, H2.
  by rewrite (aligned_virtual_sizes_same _ _ _ _ HV HI),
             (aligned_virtual_sizes_same _ _ _ _ HV HU).
Qed.

Lemma copier_recomputes_data_sizes_witness :
  SizeOfInitializedData (nt_headers (file_base example_out)) = 288
  /\ SizeOfUninitializedData (nt_headers (file_base example_out)) = 0.
Proof.
  destruct (copier_recomputes_data_sizes Win32 example_process example_info
              example_file example_output example_out example_chunks
              example_copy_runs) as [H1 H2].
  rewrite H1, H2. split; vm_compute; reflexivity.
Defined.

(** ** The copier: the offsets it relocates *)

Lemma last_raw_from_ext dst dst' i :
  Forall2 same_raw_data dst dst' ->
  raw_end <$> last_raw_from dst i = raw_end <$> last_raw_from dst' i.
Proof.
  intros HF. induction i as [|i IH]; simpl;
    (destruct (dst !! _) as [x|] eqn:Hx;
     [ destruct (Forall2_lookup_l _ _ _ _ _ HF Hx) as (y & Hy & [HP HS]);
       rewrite Hy, <- HP; destruct (PointerToRawData x =? 0); try done;
       simpl; f_equal; by apply raw_end_same
     | apply lookup_ge_None in Hx; rewrite (Forall2_length _ _ _ HF) in Hx;
       apply lookup_ge_None in Hx; by rewrite Hx ]).
Qed.

Lemma last_raw_ext dst dst' :
  Forall2 same_raw_data dst dst' ->
  raw_end <$> last_raw dst = raw_end <$> last_raw dst'.
Proof.
  intros HF. unfold last_raw. rewrite <- (Forall2_length _ _ _ HF).
  destruct (length dst); [done|]. by apply last_raw_from_ext.
Qed.

Lemma relocate_loop_ext t offset src dst dst' fuel :
  Forall2 same_raw_data dst dst' ->
  forall i, relocate_loop t offset src dst i fuel
            = relocate_loop t offset src dst' i fuel.
Proof.
  intros HF. induction fuel as [|fuel IH]; intros i; simpl; [done|].
  destruct (src !! i) as [s|]; simpl; [|done].
  destruct ((PointerToRawData s <=? offset) && negb (offset <? raw_end s)).
  - case_bool_decide; [|apply IH].
    pose proof (last_raw_ext _ _ HF) as E.
    destruct (last_raw dst) as [d|], (last_raw dst') as [d'|]; simpl in *;
      try done.
    injection E as ->. done.
  - destruct (dst !! i) as [d|] eqn:Hd.
    + destruct (Forall2_lookup_l _ _ _ _ _ HF Hd) as (d' & -> & [HP _]).
      simpl. by rewrite HP.
    + apply lookup_ge_None in Hd. rewrite (Forall2_length _ _ _ HF) in Hd.
      apply lookup_ge_None in Hd. by rewrite Hd.
Qed.

Lemma ADJUST_OFFSET_ext t var src dst dst' :
  Forall2 same_raw_data dst dst' ->
  ADJUST_OFFSET t var src dst = ADJUST_OFFSET t var src dst'.
Proof.
  intros HF. unfold ADJUST_OFFSET, relocate_offset.
  by rewrite (relocate_loop_ext _ _ _ _ _ _ HF).
Qed.

Lemma map_eq_same_raw_data (l l' : list IMAGE_SECTION_HEADER) :
  map (fun d => (PointerToRawData d, SizeOfRawData d)) l'
  = map (fun d => (PointerToRawData d, SizeOfRawData d)) l ->
  Forall2 same_raw_data l l'.
Proof.
  revert l'. induction l as [|d l IH]; intros [|d' l']; simpl; try done.
  intros [= H1 H2 H3]. constructor; [by split | by apply IH].
Qed.

Lemma patch_sections_same_raw_data t src align i n table ini unini
    table' ini' unini' :
  patch_sections t src align i n (table, ini, unini)
  = Some (table', ini', unini') ->
  Forall2 same_raw_data table table'.
Proof.
  intros H. apply map_eq_same_raw_data.
  by apply (patch_sections_fields
              (fun d => (PointerToRawData d, SizeOfRawData d))
              _ _ _ _ ltac:(done) _ _ _ _ _ _ _ H).
Qed.

Lemma patch_sections_linenumbers t src align n :
  forall i table ini unini table' ini' unini',
    patch_sections t src align i n (table, ini, unini)
    = Some (table', ini', unini') ->
    forall j d d', table !! j = Some d -> table' !! j = Some d' ->
      if bool_decide (i <= j < i + n)%nat
      then ADJUST_OFFSET t (PointerToLinenumbers d) src table'
           = Some (PointerToLinenumbers d')
      else d' = d.
Proof.
  induction n as [|n IH]; intros i table ini unini table' ini' unini'; simpl.
  - intros [= <- _ _] j d d' Hd Hd'. rewrite bool_decide_eq_false_2 by lia.
    congruence.
  - destruct (table !! i) as [di|] eqn:Hdi; [|discriminate]. simpl.
    destruct (ADJUST_OFFSET _ _ _ _) as [v|] eqn:Hv; [|discriminate]. simpl.
    intros H j d d' Hd Hd'.
    pose proof (patch_sections_same_raw_data _ _ _ _ _ _ _ _ _ _ _ H) as HF.
    specialize (IH _ _ _ _ _ _ _ H j).
    destruct (decide (j = i)) as [->|Hne].
    + rewrite list_lookup_insert_eq in IH by (by eapply lookup_lt_Some).
      specialize (IH _ _ eq_refl Hd').
      rewrite bool_decide_eq_false_2 in IH by lia. subst d'.
      rewrite bool_decide_eq_true_2 by lia. simpl.
      assert (di = d) as -> by congruence. rewrite <- Hv.
      symmetry. apply ADJUST_OFFSET_ext.
      assert (Forall2 same_raw_data table
                (<[i := set_PointerToLinenumbers v d]> table)) as HF'.
      { apply map_eq_same_raw_data.
        change (map ?f) with (fmap (M:=list) f).
        rewrite list_fmap_insert. simpl. apply list_insert_id.
        by rewrite list_lookup_fmap, Hd. }
      apply Forall2_lookup. intros k.
      pose proof (proj1 (Forall2_lookup _ _ _) HF' k) as A.
      pose proof (proj1 (Forall2_lookup _ _ _) HF k) as B.
      destruct A as [x y [A1 A2]|]; inversion B as [y' z [B1 B2]|]; subst;
        constructor. split; congruence.
    + rewrite list_lookup_insert_ne in IH by done.
      specialize (IH _ _ Hd Hd').
      repeat case_bool_decide; try done; lia.
Qed.

Lemma copy_sections_linenumbers t p info src align l :
  forall dsts i c,
    map PointerToLinenumbers (copy_sections t p info src align i l dsts c).1
    = map PointerToLinenumbers dsts.
Proof.
  induction l as [|s l IH]; intros [|d dsts] i c; simpl; try done.
  assert (PointerToLinenumbers (copy_section t p info src align i s d c).1
          = PointerToLinenumbers d) as E.
  { unfold copy_section, dump_bss.
    repeat case_bool_decide; destruct (PointerToRawData d =? 0); reflexivity. }
  destruct (copy_section t p info src align i s d c) as [d1 c1].
  specialize (IH dsts (S i) c1).
  destruct (copy_sections t p info src align (S i) l dsts c1) as [ds c2].
  simpl in *. by rewrite E, IH.
Qed.

(** The offsets into the file that the headers hold are relocated one by
    one: the symbol-table pointer of the output and the line-number
    pointer of each of its sections are those of the source passed
    through [ADJUST_OFFSET] with the section table of the output, so that
    a pointer that is 0 stays 0 and any other is what [relocate_offset]
    returns for it, as a [DWORD]. *)
Theorem copier_relocates_header_offsets t p info p_infile p_outfile out l :
  let hs := nt_headers (file_base p_infile) in
  let hn := nt_headers (file_base out) in
  copy_executable_and_dump_data t p info p_infile p_outfile = Some (out, l) ->
  ADJUST_OFFSET t (PointerToSymbolTable hs) (sections hs) (sections hn)
  = Some (PointerToSymbolTable hn)
  /\ forall i s d, sections hs !! i = Some s -> sections hn !! i = Some d ->
       ADJUST_OFFSET t (PointerToLinenumbers s) (sections hs) (sections hn)
       = Some (PointerToLinenumbers d).
Proof.
  intros hs hn Hrun.
  destruct (copier_inversion _ _ _ _ _ _ _ Hrun) as (Hpatch & Hsym & _).
  fold hs hn in Hpatch, Hsym. split; [done|]. intros i s d Hs Hd.
  set (table := (after_sections t p info p_infile p_outfile).1) in *.
  pose proof (copy_sections_linenumbers t p info
                (contents (file_base p_infile)) (FileAlignment hs)
                (sections hs) (sections hs) 0
                (after_headers t p_infile p_outfile)) as HL.
  change (copy_sections _ _ _ _ _ _ _ _ _).1 with table in HL.
  destruct (lookup_map_eq PointerToLinenumbers _ _ i s (eq_sym HL) Hs)
    as (d0 & Hd0 & E).
  pose proof (patch_sections_linenumbers _ _ _ _ _ _ _ _ _ _ _ Hpatch
                i d0 d Hd0 Hd) as H.
  rewrite bool_decide_eq_true_2 in H
    by (pose proof (lookup_lt_Some _ _ _ Hd0); lia).
  by rewrite <- E.
Qed.

Lemma copier_relocates_header_offsets_witness :
  ADJUST_OFFSET Win32 (PointerToSymbolTable example_headers) example_sections
    (sections (nt_headers (file_base example_out)))
  = Some (PointerToSymbolTable (nt_headers (file_base example_out))).
Proof.
  exact (proj1 (copier_relocates_header_offsets Win32 example_process
                  example_info example_file example_output example_out
                  example_chunks example_copy_runs)).
Defined.

(** ** The copier: the areas of the process in the output *)

(** The loop over the sections taken apart at section [j]: the cursor
    [cj] it reaches before that section, the entry and the cursor that
    the iteration for it leaves, and what is kept of them to the end. *)
Lemma copy_sections_at t p info src align l :
  0 < align -> Forall (fun s => 0 <= SizeOfRawData s < 2 ^ 32) l ->
  forall i c j s, l !! j = Some s ->
    let r := copy_sections t p info src align i l l c in
    exists cj, dst c <= dst cj
      /\ let rj := copy_section t p info src align (i + j) s s cj in
         r.1 !! j = Some rj.1 /\ dst rj.2 <= dst r.2
         /\ forall a, a < dst rj.2 -> view r.2 a = view rj.2 a.
Proof.
  intros Ha. induction l as [|x l IH]; intros Hall i c j s Hs; [done|].
  apply Forall_cons in Hall as [Hx Hall]. simpl.
  destruct (copy_section_frame t p info src align i x x c Ha ltac:(lia))
    as [F1 F2].
  destruct (copy_section t p info src align i x x c) as [d1 c1] eqn:E1.
  pose proof (copy_sections_view t p info src align l Ha Hall (S i) c1)
    as (G1 & G2 & _).
  specialize (IH Hall (S i) c1).
  destruct (copy_sections t p info src align (S i) l l c1) as [ds c2].
  simpl in *. destruct j as [|j]; simpl in *.
  - injection Hs as <-. exists c. rewrite Nat.add_0_r, E1. simpl.
    split; [lia|]. split; [done|]. split; [done|]. intros a Hlt. by apply G2.
  - destruct (IH j s Hs) as (cj & H1 & H2 & H3 & H4).
    exists cj. rewrite Nat.add_succ_r. split; [lia|]. done.
Qed.

(** One iteration for the section that owns a bss area (the last of the
    areas dumped into it): the area lies in the output at its offset in
    the section, below the cursor that the iteration leaves, and the
    entry records the cursor it started with as the raw-data offset. *)
Lemma copy_section_bss_content t p info src align i s c start sz :
  0 < align ->
  bss_section info = Some i /\ bss_section_static info <> Some i
    /\ (start, sz) = (bss_start info, bss_size info)
  \/ bss_section_static info = Some i
     /\ (start, sz) = (bss_start_static info, bss_size_static info) ->
  let r := copy_section t p info src align i s s c in
  let at_ := dst c + section_offset t p s start in
  let n := DWORD_PTR t sz in
  at_ + n <= dst r.2
  /\ PointerToRawData r.1 = DWORD (dst c)
  /\ forall o, 0 <= o < n -> view r.2 (at_ + o) = memory p (start + o).
Proof.
  intros Ha Hown. unfold copy_section, dump_bss, section_offset.
  destruct Hown as [(Hb & Hs & [= -> ->])|(Hs & [= -> ->])].
  - rewrite (bool_decide_eq_true_2 (Some i = bss_section info)) by done.
    rewrite (bool_decide_eq_false_2 (Some i = bss_section_static info)) by done.
    case_bool_decide; destruct (PointerToRawData s =? 0); simpl;
      unfold memcpy, memset, RVA_TO_SECTION_OFFSET; simpl;
      bounds Ha; (split; [lia|]); (split; [done|]); intros o Ho;
      ranges; f_equal; lia.
  - rewrite (bool_decide_eq_true_2 (Some i = bss_section_static info)) by done.
    repeat case_bool_decide; destruct (PointerToRawData s =? 0); simpl;
      unfold memcpy, memset, RVA_TO_SECTION_OFFSET; simpl;
      bounds Ha; (split; [lia|]); (split; [done|]); intros o Ho;
      ranges; f_equal; lia.
Qed.

(** The same for the initialized data, in a section that owns no bss area
    and whose raw data holds the whole of the data area. *)
Lemma copy_section_data_content t p info src align i s c :
  0 < align ->
  data_section info = Some i -> ~ grown info i ->
  section_offset t p s (data_start info) + DWORD_PTR t (data_size info)
  <= SizeOfRawData s ->
  let r := copy_section t p info src align i s s c in
  let at_ := dst c + section_offset t p s (data_start info) in
  let n := DWORD_PTR t (data_size info) in
  at_ + n <= dst r.2
  /\ (PointerToRawData s <> 0 -> PointerToRawData r.1 = DWORD (dst c))
  /\ forall o, 0 <= o < n ->
       view r.2 (at_ + o) = memory p (data_start info + o).
Proof.
  intros Ha Hd Hg Hfit. unfold copy_section, section_offset, grown in *.
  rewrite (bool_decide_eq_true_2 (Some i = data_section info)) by done.
  rewrite !bool_decide_eq_false_2 by (intros E; apply Hg; auto).
  destruct (Z.eqb_spec (PointerToRawData s) 0); simpl;
    unfold memcpy, memset, RVA_TO_SECTION_OFFSET in *; simpl;
    bounds Ha; (split; [lia|]); (split; [done|]); intros o Ho;
    ranges; f_equal; lia.
Qed.

Lemma copier_places_section t p info p_infile p_outfile out l k s d :
  let src := file_base p_infile in
  let hs := nt_headers src in
  let hn := nt_headers (file_base out) in
  let align := FileAlignment hs in
  copy_executable_and_dump_data t p info p_infile p_outfile = Some (out, l) ->
  0 < align ->
  Forall (fun s => 0 <= SizeOfRawData s < 2 ^ 32) (sections hs) ->
  dst (after_sections t p info p_infile p_outfile).2 < 2 ^ 32 ->
  sections hs !! k = Some s -> sections hn !! k = Some d ->
  exists cj,
    let rj := copy_section t p info (contents src) align k s s cj in
    0 <= dst cj /\ dst rj.2 < 2 ^ 32
    /\ PointerToRawData d = PointerToRawData rj.1
    /\ VirtualAddress d = VirtualAddress s
    /\ forall a, ~ in_debug_field t hn a -> a < dst rj.2 ->
         contents (file_base out) a = view rj.2 a.
Proof.
  intros src hs hn align Hrun Ha Hall Hfit Hs Hd.
  destruct (copier_inversion _ _ _ _ _ _ _ Hrun) as (Hpatch & _ & _ & _ & Hlow).
  fold src hs hn in Hpatch, Hlow.
  destruct (copy_sections_at t p info (contents src) align (sections hs)
              Ha Hall 0 (after_headers t p_infile p_outfile) k s Hs)
    as (cj & H1 & H2 & H3 & H4).
  change (copy_sections t p info (contents src) align 0 (sections hs)
            (sections hs) (after_headers t p_infile p_outfile))
    with (after_sections t p info p_infile p_outfile) in H2, H3, H4.
  simpl in H2, H3, H4.
  pose proof (after_headers_nonneg t p_infile p_outfile Ha) as H0.
  pose proof (patch_sections_fields
                (fun x => (PointerToRawData x, VirtualAddress x))
                _ _ _ _ ltac:(done) _ _ _ _ _ _ _ Hpatch) as Hm.
  destruct (lookup_map_eq _ _ _ _ _ Hm Hd) as (d0 & Hd0 & E).
  rewrite H2 in Hd0. injection Hd0 as <-. injection E as E1 E2.
  destruct (copy_section_fields t p info (contents src) align k s s cj)
    as [F _].
  exists cj. split; [lia|]. split; [simpl; lia|]. split; [done|]. split.
  { rewrite <- E2. unfold frame_fields in F. by injection F. }
  intros a Hdbg Hlt. rewrite Hlow by (done || lia). by apply H4.
Qed.

(** The bss areas of the process are in the output: for the section that
    owns a bss area (for the area dumped last, if it owns both), every
    byte of the area stands in the output at the raw-data offset of the
    section plus the offset of the byte's address in the section, unless
    a debug-directory pointer is patched there afterwards. *)
Theorem copier_dumps_bss_contents t p info p_infile p_outfile out l k s d
    start sz :
  let hs := nt_headers (file_base p_infile) in
  let hn := nt_headers (file_base out) in
  copy_executable_and_dump_data t p info p_infile p_outfile = Some (out, l) ->
  0 < FileAlignment hs ->
  Forall (fun s => 0 <= SizeOfRawData s < 2 ^ 32) (sections hs) ->
  dst (after_sections t p info p_infile p_outfile).2 < 2 ^ 32 ->
  sections hs !! k = Some s -> sections hn !! k = Some d ->
  bss_section info = Some k /\ bss_section_static info <> Some k
    /\ (start, sz) = (bss_start info, bss_size info)
  \/ bss_section_static info = Some k
     /\ (start, sz) = (bss_start_static info, bss_size_static info) ->
  forall o, 0 <= o < DWORD_PTR t sz ->
    let a := PointerToRawData d + section_offset t p d start + o in
    ~ in_debug_field t hn a ->
    contents (file_base out) a = memory p (start + o).
Proof.
  intros hs hn Hrun Ha Hall Hfit Hs Hd Hown o Ho a Hdbg. subst hs hn.
  destruct (copier_places_section _ _ _ _ _ _ _ _ _ _ Hrun Ha Hall Hfit Hs Hd)
    as (cj & H0 & H1 & HP & HV & Hlow).
  destruct (copy_section_bss_content t p info
              (contents (file_base p_infile)) _ k s cj
              start sz Ha Hown) as (B1 & B2 & B3).
  simpl in H1, HP, Hlow, B1, B2, B3.
  assert (section_offset t p d start = section_offset t p s start) as Eo
    by (unfold section_offset, RVA_TO_SECTION_OFFSET; by rewrite HV).
  unfold section_offset, RVA_TO_SECTION_OFFSET in B1.
  pose proof (DWORD_PTR_range t (PTR_TO_RVA t p start - VirtualAddress s)).
  assert (a = dst cj + section_offset t p s start + o) as ->.
  { subst a. rewrite HP, B2, Eo, DWORD_small; lia. }
  rewrite Hlow; [by apply B3 | done |].
  unfold section_offset, RVA_TO_SECTION_OFFSET. lia.
Qed.

Lemma copier_dumps_bss_contents_witness :
  let d := example_section ".bss" 0x100 0x3000 48 240 0x40 in
  contents (file_base example_out)
    (PointerToRawData d + section_offset Win32 example_process d 0x403000 + 5)
  = memory example_process (0x403000 + 5).
Proof.
  refine (copier_dumps_bss_contents Win32 example_process example_info
            example_file example_output example_out example_chunks 2
            (example_section ".bss" 0x100 0x3000 0 0 0x80)
            (example_section ".bss" 0x100 0x3000 48 240 0x40)
            0x403000 0x30 example_copy_runs _ _ _ _ _ _ 5 _ _).
  - simpl. lia.
  - repeat constructor; simpl; lia.
  - vm_compute. reflexivity.
  - reflexivity.
  - vm_compute. reflexivity.
  - left. split; [vm_compute; reflexivity|].
    split; [vm_compute; discriminate | vm_compute; reflexivity].
  - vm_compute. split; congruence.
  - intros H. vm_compute in H. exact H.
Defined.

(** The initialized data of the process is in the output: when the
    section that owns the data area has raw data, owns no bss area, and
    its raw data holds the whole area, every byte of the area stands in
    the output at the raw-data offset of the section plus the offset of
    the byte's address in the section, unless a debug-directory pointer
    is patched there afterwards. *)
Theorem copier_dumps_data_contents t p info p_infile p_outfile out l k s d :
  let hs := nt_headers (file_base p_infile) in
  let hn := nt_headers (file_base out) in
  copy_executable_and_dump_data t p info p_infile p_outfile = Some (out, l) ->
  0 < FileAlignment hs ->
  Forall (fun s => 0 <= SizeOfRawData s < 2 ^ 32) (sections hs) ->
  dst (after_sections t p info p_infile p_outfile).2 < 2 ^ 32 ->
  sections hs !! k = Some s -> sections hn !! k = Some d ->
  data_section info = Some k -> ~ grown info k ->
  PointerToRawData s <> 0 ->
  section_offset t p s (data_start info) + DWORD_PTR t (data_size info)
  <= SizeOfRawData s ->
  forall o, 0 <= o < DWORD_PTR t (data_size info) ->
    let a := PointerToRawData d + section_offset t p d (data_start info) + o in
    ~ in_debug_field t hn a ->
    contents (file_base out) a = memory p (data_start info + o).
Proof.
  intros hs hn Hrun Ha Hall Hfit Hs Hd Hown Hg Hraw Hin o Ho a Hdbg.
  subst hs hn.
  destruct (copier_places_section _ _ _ _ _ _ _ _ _ _ Hrun Ha Hall Hfit Hs Hd)
    as (cj & H0 & H1 & HP & HV & Hlow).
  destruct (copy_section_data_content t p info
              (contents (file_base p_infile)) _ k s cj
              Ha Hown Hg Hin) as (B1 & B2 & B3).
  simpl in H1, HP, Hlow, B1, B2, B3.
  assert (section_offset t p d (data_start info)
          = section_offset t p s (data_start info)) as Eo
    by (unfold section_offset, RVA_TO_SECTION_OFFSET; by rewrite HV).
  unfold section_offset, RVA_TO_SECTION_OFFSET in B1.
  pose proof (DWORD_PTR_range t
                (PTR_TO_RVA t p (data_start info) - VirtualAddress s)).
  assert (a = dst cj + section_offset t p s (data_start info) + o) as ->.
  { subst a. rewrite HP, (B2 Hraw), Eo, DWORD_small; lia. }
  rewrite Hlow; [by apply B3 | done |].
  unfold section_offset, RVA_TO_SECTION_OFFSET. lia.
Qed.

Lemma copier_dumps_data_contents_witness :
  let d := example_section ".data" 16 0x2000 16 224 0x40 in
  contents (file_base example_out)
    (PointerToRawData d
     + section_offset Win32 example_process d (data_start example_info) + 3)
  = memory example_process (data_start example_info + 3).
Proof.
  refine (copier_dumps_data_contents Win32 example_process example_info
            example_file example_output example_out example_chunks 1
            (example_section ".data" 16 0x2000 16 224 0x40)
            (example_section ".data" 16 0x2000 16 224 0x40)
            example_copy_runs _ _ _ _ _ _ _ _ _ 3 _ _).
  - simpl. lia.
  - repeat constructor; simpl; lia.
  - vm_compute. reflexivity.
  - reflexivity.
  - vm_compute. reflexivity.
  - vm_compute. reflexivity.
  - intros [H|H]; vm_compute in H; discriminate.
  - simpl. lia.
  - vm_compute. discriminate.
  - vm_compute. split; congruence.
  - intros H. vm_compute in H. exact H.
Defined.

(** ** The driver: a run that completes *)

Lemma returns_quietly_ret {A} (a : A) : returns_quietly (ret a).
Proof. by intros w w' b [= <- _]. Qed.

Lemma returns_quietly_exit {A} s : returns_quietly (@exit A s).
Proof. intros w w' b. discriminate. Qed.

Lemma returns_quietly_deref {A} (o : option A) : returns_quietly (deref o).
Proof. destruct o; intros w w' b; [by intros [= <- _] | discriminate]. Qed.

Lemma returns_quietly_bail {A} d s : returns_quietly (bind (printf d) (fun _ => @exit A s)).
Proof. intros w w' b. discriminate. Qed.

Lemma returns_quietly_bind {A B} (m : M A) (k : A -> M B) :
  returns_quietly m -> (forall a, returns_quietly (k a)) ->
  returns_quietly (bind m k).
Proof.
  intros Hm Hk w w' b. unfold bind.
  destruct (m w) as [w1 [a| | |]] eqn:E; try discriminate.
  intros H. apply Hk in H. apply Hm in E. congruence.
Qed.

Lemma get_section_info_returns_quietly c p p_infile :
  returns_quietly (get_section_info c p p_infile).
Proof.
  unfold get_section_info.
  repeat first
    [ apply returns_quietly_ret | apply returns_quietly_bail
    | apply returns_quietly_deref
    | apply returns_quietly_bind; [|intros ?]
    | match goal with
      | |- returns_quietly (if ?b then _ else _) => destruct b
      | |- returns_quietly (match ?x with _ => _ end) => destruct x
      | |- returns_quietly (let (_, _) := ?x in _) => destruct x
      end ].
Qed.

Lemma open_output_file_environment filename sz w :
  stdout (open_output_file filename sz w).1 = stdout w
  /\ CheckSumMappedFile (open_output_file filename sz w).1 = CheckSumMappedFile w
  /\ environment (open_output_file filename sz w).1 = environment w.
Proof.
  unfold open_output_file, bind, DeleteFileA, CreateFileA_CREATE_ALWAYS,
    CreateFileMapping, MapViewOfFile, ret.
  repeat match goal with
    | |- context [match ?x with _ => _ end] =>
        lazymatch x with
        | context [match _ with _ => _ end] => fail
        | _ => destruct x eqn:?; simpl
        end
    end; done.
Qed.

(** What is on the standard output does not matter to
    [open_output_file]. *)
Lemma open_output_file_with_stdout o filename sz w :
  (open_output_file filename sz (with_stdout o w)).2
  = (open_output_file filename sz w).2
  /\ directory (open_output_file filename sz (with_stdout o w)).1
     = directory (open_output_file filename sz w).1
  /\ disk (open_output_file filename sz (with_stdout o w)).1
     = disk (open_output_file filename sz w).1.
Proof.
  unfold open_output_file, bind, DeleteFileA, CreateFileA_CREATE_ALWAYS,
    CreateFileMapping, MapViewOfFile, ret. simpl.
  repeat match goal with
    | |- context [match ?x with _ => _ end] =>
        lazymatch x with
        | context [match _ with _ => _ end] => fail
        | _ => destruct x eqn:?; simpl
        end
    end; done.
Qed.

(** What a run of [unexec] that completes has gone through. *)
Lemma unexec_Done_inversion c p new_name old_name w w' :
  unexec c p new_name old_name w = (w', Done tt) ->
  exists in_filename out_filename in_file info w4 out_file dumped f,
    module_file_name w = Some in_filename
    /\ output_filename (slashes in_filename) (filename_to_ansi c new_name)
       = Done out_filename
    /\ let w2 := with_stdout
                   ((stdout w ++ [Dumping_from (slashes in_filename)])
                    ++ [Dumping_to out_filename]) w in
       (open_input_file (slashes in_filename) w).2 = Done (Some in_file)
       /\ get_section_info c p in_file w2 = (w2, Done info)
       /\ open_output_file out_filename
            (DWORD (size in_file + extra_bss_size info
                    + extra_bss_size_static info)) w2
          = (w4, Done (Some out_file))
       /\ copy_executable_and_dump_data (cfg_target c) p info in_file out_file
          = Some dumped
       /\ disk w4 !! file out_file = Some f
       /\ w' = with_files (directory w4)
                 (<[file out_file :=
                      {| f_image :=
                           with_nt_headers
                             (set_CheckSum
                                (checksum_of (CheckSumMappedFile w) dumped.1)
                                (nt_headers (file_base dumped.1)))
                             (file_base dumped.1);
                         f_length := f_length f;
                         f_protected := f_protected f |}]> (disk w4))
                 (reported (cfg_target c) out_file dumped.2 w4).
Proof.
  intros Hr. unfold unexec in Hr. rewrite bind_GetModuleFileNameA in Hr.
  destruct (module_file_name w) as [in_filename|] eqn:Hm; [|discriminate].
  destruct (output_filename (slashes in_filename) (filename_to_ansi c new_name))
    as [out_filename| | |] eqn:Hout; try discriminate.
  rewrite bind_lift_Done, !bind_printf in Hr.
  set (w2 := with_stdout _ _) in Hr.
  unfold bind at 1 in Hr. rewrite open_input_file_world in Hr.
  destruct ((open_input_file (slashes in_filename) w2).2)
    as [[in_file|]| | |] eqn:Hin; try discriminate.
  unfold bind at 1 in Hr.
  destruct (get_section_info c p in_file w2) as [w3 [info| | |]] eqn:Hinfo;
    try discriminate.
  pose proof (get_section_info_returns_quietly _ _ _ _ _ _ Hinfo) as ->.
  unfold bind at 1 in Hr.
  destruct (open_output_file_environment out_filename
              (DWORD (size in_file + extra_bss_size info
                      + extra_bss_size_static info)) w2) as (_ & Hsum & _).
  destruct (open_output_file out_filename _ w2) as [w4 [[out_file|]| | |]] eqn:Hopen;
    try discriminate.
  pose proof (open_output_file_Done _ _ _ _ _ Hopen) as (_ & _ & _ & [f Hf]).
  rewrite bind_copy_and_report in Hr.
  destruct (copy_executable_and_dump_data _ _ _ _ _) as [dumped|] eqn:Hcopy;
    [|discriminate].
  destruct (reported_world (cfg_target c) out_file dumped.2 w4)
    as (Hrd & Hrk & Hrs & _).
  unfold bind at 1 in Hr. unfold GetProcAddress_CheckSumMappedFile at 1 in Hr.
  cbv beta iota zeta in Hr. unfold bind in Hr.
  rewrite close_file_data_input in Hr.
  unfold close_file_data in Hr. simpl file in Hr.
  rewrite (copier_file _ _ _ _ _ _ Hcopy), Hrk, Hf in Hr.
  injection Hr as <-.
  exists in_filename, out_filename, in_file, info, w4, out_file, dumped, f.
  split; [done|]. split; [done|]. cbv zeta. fold w2.
  split; [by rewrite <- Hin; subst w2; rewrite !open_input_file_stdout|].
  split; [done|]. split; [done|]. split; [done|]. split; [done|].
  simpl in Hsum. rewrite Hrd, Hrs, Hsum. unfold checksum_of. simpl.
  by destruct (CheckSumMappedFile w).
Qed.

Lemma example_run_completes : example_run = (example_run.1, Done tt).
Proof.
  rewrite (surjective_pairing example_run) at 1.
  f_equal; vm_compute; reflexivity.
Qed.

(** ** The driver: what no run does, and the runs that fail *)

(** However a run of [unexec] ends, it has changed no file object that
    existed before it (the executable it reads among them), and it has
    linked or re-linked no name but the output name. *)
Theorem unexec_touches_only_the_output c p new_name old_name w :
  let r := unexec c p new_name old_name w in
  (forall id f, disk w !! id = Some f -> disk r.1 !! id = Some f)
  /\ (forall other,
        (forall in_filename, module_file_name w = Some in_filename ->
           output_filename (slashes in_filename) (filename_to_ansi c new_name)
           <> Done other) ->
        directory r.1 !! other = directory w !! other).
Proof.
  intros r.
  assert (r = unexec c p new_name old_name w) as Hr by reflexivity. clearbody r.
  unfold unexec in Hr. rewrite bind_GetModuleFileNameA in Hr.
  destruct (module_file_name w) as [in_filename|] eqn:Hm;
    [|by subst r].
  destruct (output_filename (slashes in_filename) (filename_to_ansi c new_name))
    as [out_filename| | |] eqn:Hout; try by subst r.
  rewrite bind_lift_Done, !bind_printf in Hr.
  set (w2 := with_stdout _ _) in Hr.
  unfold bind at 1 in Hr. rewrite open_input_file_world in Hr.
  destruct ((open_input_file (slashes in_filename) w2).2)
    as [[in_file|]| | |] eqn:Hin; try by subst r.
  unfold bind at 1 in Hr.
  destruct (get_section_info_keeps_files c p in_file w2) as [Hd3 Hk3].
  destruct (get_section_info c p in_file w2) as [w3 [info| | |]] eqn:Hinfo;
    simpl in Hd3, Hk3; try (subst r; simpl; rewrite Hd3, Hk3; done).
  unfold bind at 1 in Hr.
  destruct (open_output_file_new_object out_filename
              (DWORD (size in_file + extra_bss_size info
                      + extra_bss_size_static info)) w3) as (Hobj & Hnames & Hnew).
  rewrite Hk3 in Hobj.
  assert (forall other,
            (forall in_filename0, Some in_filename = Some in_filename0 ->
               output_filename (slashes in_filename0)
                 (filename_to_ansi c new_name) <> Done other) ->
            directory (open_output_file out_filename
                         (DWORD (size in_file + extra_bss_size info
                                 + extra_bss_size_static info)) w3).1 !! other
            = directory w !! other) as Hnames'.
  { intros other Hne. rewrite Hnames, Hd3; [done|].
    intros ->. by apply (Hne in_filename). }
  destruct (open_output_file out_filename _ w3) as [w4 [[out_file|]| | |]] eqn:Hopen;
    simpl in Hobj, Hnames', Hnew; try by subst r.
  destruct (Hnew _ eq_refl) as (Hfresh & _ & _ & [f Hf]).
  rewrite bind_copy_and_report in Hr.
  destruct (copy_executable_and_dump_data _ _ _ _ _) as [dumped|] eqn:Hcopy;
    [|by subst r].
  destruct (reported_world (cfg_target c) out_file dumped.2 w4)
    as (Hrd & Hrk & _ & _).
  unfold bind at 1 in Hr. unfold GetProcAddress_CheckSumMappedFile at 1 in Hr.
  cbv beta iota zeta in Hr. unfold bind in Hr.
  rewrite close_file_data_input in Hr.
  unfold close_file_data in Hr. simpl file in Hr.
  rewrite (copier_file _ _ _ _ _ _ Hcopy), Hrk, Hf in Hr. subst r. simpl.
  rewrite ?Hrd, ?Hrk.
  split; [|done]. intros id g Hg.
  rewrite lookup_insert_ne; [by apply Hobj|].
  intros <-. rewrite Hk3 in Hfresh. congruence.
Qed.

(** [unexec] aborts, with nothing printed and no file touched, when the
    operating system does not give the name of the running executable,
    when that name holds neither a slash nor a backslash, or when the
    requested name in the ANSI codepage holds no slash. *)
Theorem unexec_aborts_without_a_directory c p new_name old_name w :
  module_file_name w = None
  \/ (exists in_filename, module_file_name w = Some in_filename
        /\ (strrchr (slashes in_filename) "/" = None
            \/ strrchr (filename_to_ansi c new_name) "/" = None)) ->
  unexec c p new_name old_name w = (w, Aborted).
Proof.
  unfold unexec. rewrite bind_GetModuleFileNameA.
  intros [->|(in_filename & -> & H)]; [done|].
  unfold output_filename.
  destruct H as [->| ->]; [done|].
  by destruct (strrchr (slashes in_filename) "/").
Qed.

Lemma unexec_aborts_without_a_directory_witness :
  unexec example_config example_process "emacs" "" example_world
  = (example_world, Aborted).
Proof.
  apply unexec_aborts_without_a_directory. right.
  exists "C:\bin\temacs.exe"%string. split; [reflexivity|].
  right. reflexivity.
Defined.

(** When the executable of the running program cannot be opened,
    [unexec] prints the two progress lines and the failure with the error
    code of the system, and exits with status 1; no file is touched. *)
Theorem unexec_fails_to_open_input c p new_name old_name w in_filename
    out_filename :
  module_file_name w = Some in_filename ->
  output_filename (slashes in_filename) (filename_to_ansi c new_name)
  = Done out_filename ->
  (open_input_file (slashes in_filename) w).2 = Done None ->
  unexec c p new_name old_name w
  = (with_stdout (stdout w ++ [Dumping_from (slashes in_filename);
                               Dumping_to out_filename;
                               Failed_to_open (slashes in_filename)
                                 (last_error w)]) w,
     Exited 1).
Proof.
  intros Hm Hout Hopen. unfold unexec.
  rewrite bind_GetModuleFileNameA, Hm, Hout, bind_lift_Done, !bind_printf.
  erewrite bind_open_input_file
    by (rewrite !open_input_file_stdout; exact Hopen).
  unfold bind, GetLastError, printf, exit. simpl.
  by rewrite <- !app_assoc.
Qed.

Lemma unexec_fails_to_open_input_witness :
  let w := with_files ∅ ∅ example_world in
  unexec example_config example_process "D:/out/emacs" "" w
  = (with_stdout [Dumping_from "C:/bin/temacs.exe";
                  Dumping_to "C:/bin/emacs.exe";
                  Failed_to_open "C:/bin/temacs.exe" 0] w,
     Exited 1).
Proof.
  apply (unexec_fails_to_open_input example_config example_process
           "D:/out/emacs" "" (with_files ∅ ∅ example_world)
           "C:\bin\temacs.exe" "C:/bin/emacs.exe"); reflexivity.
Defined.

Lemma blind_ret {A} (a : A) : blind (ret a).
Proof. by intros w w'. Qed.

Lemma blind_deref {A} (o : option A) : blind (deref o).
Proof. by destruct o; intros w w'. Qed.

Lemma blind_bail {A} d s : blind (bind (printf d) (fun _ => @exit A s)).
Proof. by intros w w'. Qed.

Lemma blind_bind {A B} (m : M A) (k : A -> M B) :
  blind m -> (forall a, blind (k a)) -> blind (bind m k).
Proof.
  intros Hm Hk w w'. unfold bind. specialize (Hm w w').
  destruct (m w) as [w1 o], (m w') as [w1' o']. simpl in Hm. subst o'.
  destruct o; try done. apply Hk.
Qed.

Lemma get_section_info_blind c p p_infile : blind (get_section_info c p p_infile).
Proof.
  unfold get_section_info.
  repeat first
    [ apply blind_ret | apply blind_bail | apply blind_deref
    | apply blind_bind; [|intros ?]
    | match goal with
      | |- blind (if ?b then _ else _) => destruct b
      | |- blind (match ?x with _ => _ end) => destruct x
      | |- blind (let (_, _) := ?x in _) => destruct x
      end ].
Qed.

Lemma get_section_info_Done c p p_infile w w' info :
  (get_section_info c p p_infile w).2 = Done info ->
  get_section_info c p p_infile w' = (w', Done info).
Proof.
  intros H. rewrite (get_section_info_blind c p p_infile w w') in H.
  destruct (get_section_info c p p_infile w') as [w1 o] eqn:E.
  simpl in H. subst o.
  by rewrite (get_section_info_returns_quietly _ _ _ _ _ _ E).
Qed.

Lemma verbose_run_completes : verbose_run = (verbose_run.1, Done tt).
Proof.
  rewrite (surjective_pairing verbose_run) at 1.
  f_equal; vm_compute; reflexivity.
Qed.

(** The stages of a run that completes, and the world that it leaves. *)
Lemma unexec_Done_stages c p new_name old_name w w' :
  unexec c p new_name old_name w = (w', Done tt) ->
  exists in_filename out_filename in_file info out_file dumped obj,
    stages c p new_name w in_filename out_filename in_file info out_file dumped
    /\ stdout w'
       = stdout w ++ [Dumping_from (slashes in_filename);
                      Dumping_to out_filename]
         ++ (if be_verbose w
             then copier_report (cfg_target c) out_file dumped.2 else [])
    /\ directory w' !! out_filename = Some (file out_file)
    /\ disk w' !! file out_file = Some obj
    /\ f_image obj
       = with_nt_headers
           (set_CheckSum (checksum_of (CheckSumMappedFile w) dumped.1)
              (nt_headers (file_base dumped.1)))
           (file_base dumped.1).
Proof.
  intros Hr.
  destruct (unexec_Done_inversion _ _ _ _ _ _ Hr)
    as (in_filename & out_filename & in_file & info & w4 & out_file & dumped
        & f & Hm & Hout & Hin & Hinfo & Hopen & Hcopy & Hf & ->).
  set (sz := DWORD (size in_file + extra_bss_size info
                    + extra_bss_size_static info)) in *.
  set (o := (stdout w ++ [Dumping_from (slashes in_filename)])
            ++ [Dumping_to out_filename]) in *.
  destruct (open_output_file_with_stdout o out_filename sz w) as (Ho2 & _ & _).
  destruct (open_output_file_environment out_filename sz (with_stdout o w))
    as (Hs & _ & He).
  rewrite Hopen in Ho2, Hs, He. simpl in Ho2, Hs, He.
  pose proof (open_output_file_Done _ _ _ _ _ Hopen) as (_ & Hlink & _ & _).
  destruct (reported_world (cfg_target c) out_file dumped.2 w4)
    as (_ & _ & _ & Hrs).
  assert (be_verbose w4 = be_verbose w) as Hv
    by (unfold be_verbose; by rewrite He).
  eexists in_filename, out_filename, in_file, info, out_file, dumped, _.
  split.
  { repeat split; try done.
    by rewrite (get_section_info_blind c p in_file w (with_stdout o w)), Hinfo. }
  simpl. split.
  { rewrite Hrs, Hs, Hv. subst o. by rewrite <- !app_assoc. }
  split; [done|]. split; [apply lookup_insert_eq|]. done.
Qed.

(** What a run of [unexec] that completes has printed: the two progress
    lines, which name the executable of the running program (its
    backslashes turned into slashes) and the output file; after them,
    when the environment has the variable DEBUG_DUMP, the lines of the
    copier for each chunk that it has copied, in the order of the copy;
    and nothing else.  The chunks are those of the copy of this run: of
    the input as the run opens it, with the areas that the analyzer
    finds, into the output file as the run opens it. *)
Theorem unexec_prints_progress_then_chunks c p new_name old_name w w' :
  unexec c p new_name old_name w = (w', Done tt) ->
  exists in_filename out_filename in_file info out_file dumped,
    stages c p new_name w in_filename out_filename in_file info out_file dumped
    /\ stdout w'
       = stdout w ++ [Dumping_from (slashes in_filename);
                      Dumping_to out_filename]
         ++ (if be_verbose w
             then concat (map (chunk_report (cfg_target c) out_file) dumped.2)
             else []).
Proof.
  intros Hr.
  destruct (unexec_Done_stages _ _ _ _ _ _ Hr)
    as (in_filename & out_filename & in_file & info & out_file & dumped & obj
        & Hst & Hout & _).
  by exists in_filename, out_filename, in_file, info, out_file, dumped.
Qed.

Lemma unexec_prints_progress_then_chunks_witness :
  exists in_filename out_filename in_file info out_file dumped,
    stages example_config example_process "D:/out/emacs" verbose_world
      in_filename out_filename in_file info out_file dumped
    /\ stdout verbose_run.1
       = stdout verbose_world ++ [Dumping_from (slashes in_filename);
                                  Dumping_to out_filename]
         ++ (if be_verbose verbose_world
             then concat (map (chunk_report (cfg_target example_config)
                                 out_file) dumped.2)
             else []).
Proof.
  exact (unexec_prints_progress_then_chunks example_config example_process
           "D:/out/emacs" "" verbose_world verbose_run.1
           verbose_run_completes).
Defined.

(** The image that a run of [unexec] that completes leaves under the
    output name: it is the image that the copier has returned for this
    run (of the input as the run opens it, with the areas that the
    analyzer finds, into the output file as the run opens it), DOS header
    fields, headers and bytes, but for the checksum field; that field is
    what [CheckSumMappedFile] computes, as a [DWORD], for that image with
    the field set to 0 and the size that the copier has reached, and it
    is left 0 when the procedure is not to be had. *)
Theorem unexec_sets_checksum c p new_name old_name w w' :
  unexec c p new_name old_name w = (w', Done tt) ->
  exists in_filename out_filename in_file info out_file dumped obj,
    stages c p new_name w in_filename out_filename in_file info out_file dumped
    /\ directory w' !! out_filename = Some (file out_file)
    /\ disk w' !! file out_file = Some obj
    /\ e_magic (f_image obj) = e_magic (file_base dumped.1)
    /\ e_lfanew (f_image obj) = e_lfanew (file_base dumped.1)
    /\ contents (f_image obj) = contents (file_base dumped.1)
    /\ set_CheckSum 0 (nt_headers (f_image obj))
       = set_CheckSum 0 (nt_headers (file_base dumped.1))
    /\ CheckSum (nt_headers (f_image obj))
       = match CheckSumMappedFile w with
         | Some f =>
             DWORD (f (with_nt_headers
                         (set_CheckSum 0 (nt_headers (file_base dumped.1)))
                         (file_base dumped.1))
                      (size dumped.1))
         | None => 0
         end.
Proof.
  intros Hr.
  destruct (unexec_Done_stages _ _ _ _ _ _ Hr)
    as (in_filename & out_filename & in_file & info & out_file & dumped & obj
        & Hst & _ & Hlink & Hobj & Himg).
  exists in_filename, out_filename, in_file, info, out_file, dumped, obj.
  rewrite Himg. simpl. unfold checksum_of.
  split; [exact Hst|]. repeat split; try done.
Qed.

Lemma unexec_sets_checksum_witness :
  exists in_filename out_filename in_file info out_file dumped obj,
    stages example_config example_process "D:/out/emacs" example_world
      in_filename out_filename in_file info out_file dumped
    /\ directory example_run.1 !! out_filename = Some (file out_file)
    /\ disk example_run.1 !! file out_file = Some obj
    /\ e_magic (f_image obj) = e_magic (file_base dumped.1)
    /\ e_lfanew (f_image obj) = e_lfanew (file_base dumped.1)
    /\ contents (f_image obj) = contents (file_base dumped.1)
    /\ set_CheckSum 0 (nt_headers (f_image obj))
       = set_CheckSum 0 (nt_headers (file_base dumped.1))
    /\ CheckSum (nt_headers (f_image obj))
       = match CheckSumMappedFile example_world with
         | Some f =>
             DWORD (f (with_nt_headers
                         (set_CheckSum 0 (nt_headers (file_base dumped.1)))
                         (file_base dumped.1))
                      (size dumped.1))
         | None => 0
         end.
Proof.
  exact (unexec_sets_checksum example_config example_process
           "D:/out/emacs" "" example_world example_run.1
           example_run_completes).
Defined.

(** When the output name links to a file that can be neither deleted nor
    opened for writing, [unexec] gives up after the analysis: it prints
    the two progress lines and the failure with the error code of the
    system, and exits with status 1; the file system is as it was. *)
Theorem unexec_fails_to_replace_output c p new_name old_name w in_filename
    out_filename in_file info id f :
  module_file_name w = Some in_filename ->
  output_filename (slashes in_filename) (filename_to_ansi c new_name)
  = Done out_filename ->
  (open_input_file (slashes in_filename) w).2 = Done (Some in_file) ->
  (get_section_info c p in_file w).2 = Done info ->
  directory w !! out_filename = Some id -> disk w !! id = Some f ->
  f_protected f = true ->
  unexec c p new_name old_name w
  = (with_stdout (stdout w ++ [Dumping_from (slashes in_filename);
                               Dumping_to out_filename;
                               Failed_to_open out_filename (last_error w)]) w,
     Exited 1).
Proof.
  intros Hm Hout Hopen Hinfo Hname Hf Hprot. unfold unexec.
  rewrite bind_GetModuleFileNameA, Hm, Hout, bind_lift_Done, !bind_printf.
  erewrite bind_open_input_file
    by (rewrite !open_input_file_stdout; exact Hopen).
  set (w2 := with_stdout _ _).
  unfold bind at 1. rewrite (get_section_info_Done _ _ _ _ w2 _ Hinfo).
  unfold bind at 1.
  unfold open_output_file, bind, DeleteFileA, CreateFileA_CREATE_ALWAYS, ret.
  subst w2. simpl. rewrite Hname, Hf, Hprot. simpl. rewrite Hname, Hf, Hprot.
  unfold GetLastError, printf, exit. simpl. by rewrite <- !app_assoc.
Qed.

Lemma unexec_fails_to_replace_output_witness :
  let locked := {| f_image := blank_image; f_length := 0; f_protected := true |} in
  let w := with_files (<["C:/bin/emacs.exe"%string := 7%nat]> (directory example_world))
             (<[7%nat := locked]> (disk example_world)) example_world in
  unexec example_config example_process "D:/out/emacs" "" w
  = (with_stdout [Dumping_from "C:/bin/temacs.exe";
                  Dumping_to "C:/bin/emacs.exe";
                  Failed_to_open "C:/bin/emacs.exe" 0] w,
     Exited 1).
Proof.
  refine (unexec_fails_to_replace_output example_config example_process
            "D:/out/emacs" "" _ "C:\bin\temacs.exe" "C:/bin/emacs.exe"
            example_file example_info 7%nat
            {| f_image := blank_image; f_length := 0; f_protected := true |}
            _ _ _ _ _ _ _).
  - reflexivity.
  - reflexivity.
  - vm_compute. reflexivity.
  - vm_compute. reflexivity.
  - vm_compute. reflexivity.
  - vm_compute. reflexivity.
  - reflexivity.
Defined.

(** An input that does not carry the two signatures of an executable is
    turned down before any output file exists: [unexec] prints the two
    progress lines and the diagnostic of the first check that fails, and
    exits with status 1; the file system is as it was. *)
Theorem unexec_rejects_bad_signature c p new_name old_name w in_filename
    out_filename in_file :
  module_file_name w = Some in_filename ->
  output_filename (slashes in_filename) (filename_to_ansi c new_name)
  = Done out_filename ->
  (open_input_file (slashes in_filename) w).2 = Done (Some in_file) ->
  e_magic (file_base in_file) <> IMAGE_DOS_SIGNATURE
  \/ Signature (nt_headers (file_base in_file)) <> IMAGE_NT_SIGNATURE ->
  exists d,
    unexec c p new_name old_name w
    = (with_stdout (stdout w ++ [Dumping_from (slashes in_filename);
                                 Dumping_to out_filename; d]) w,
       Exited 1)
    /\ (e_magic (file_base in_file) <> IMAGE_DOS_SIGNATURE ->
        d = Unknown_EXE_header (name in_file))
    /\ (e_magic (file_base in_file) = IMAGE_DOS_SIGNATURE ->
        DWORD_PTR (cfg_target c)
          (base_address in_file + e_lfanew (file_base in_file)) <> 0 ->
        d = Invalid_IMAGE_NT_SIGNATURE (Signature (nt_headers (file_base in_file)))
              (name in_file)).
Proof.
  intros Hm Hout Hopen Hbad. unfold unexec.
  rewrite bind_GetModuleFileNameA, Hm, Hout, bind_lift_Done, !bind_printf.
  erewrite bind_open_input_file
    by (rewrite !open_input_file_stdout; exact Hopen).
  set (w2 := with_stdout _ _).
  unfold bind at 1. unfold get_section_info.
  assert (forall d, with_stdout (stdout w2 ++ [d]) w2
                    = with_stdout (stdout w
                                   ++ [Dumping_from (slashes in_filename);
                                       Dumping_to out_filename; d]) w) as Hw.
  { intros d. subst w2. unfold with_stdout. simpl. by rewrite <- !app_assoc. }
  destruct (Z.eqb_spec (e_magic (file_base in_file)) IMAGE_DOS_SIGNATURE)
    as [E1|E1]; cbn [negb].
  - destruct (Z.eqb_spec (DWORD_PTR (cfg_target c)
                            (base_address in_file + e_lfanew (file_base in_file)))
                0) as [E2|E2].
    + exists (Failed_to_find_IMAGE_NT_HEADER (name in_file)).
      split; [by rewrite <- Hw|]. done.
    + destruct (Z.eqb_spec (Signature (nt_headers (file_base in_file)))
                  IMAGE_NT_SIGNATURE) as [E3|E3]; cbn [negb];
        [destruct Hbad; done|].
      exists (Invalid_IMAGE_NT_SIGNATURE
                (Signature (nt_headers (file_base in_file))) (name in_file)).
      split; [by rewrite <- Hw|]. done.
  - exists (Unknown_EXE_header (name in_file)).
    split; [by rewrite <- Hw|]. done.
Qed.

Lemma unexec_rejects_bad_signature_witness :
  let junk := {| f_image := blank_image; f_length := 10; f_protected := false |} in
  let w := with_files (directory example_world) (<[0%nat := junk]> ∅)
             example_world in
  exists d,
    unexec example_config example_process "D:/out/emacs" "" w
    = (with_stdout [Dumping_from "C:/bin/temacs.exe";
                    Dumping_to "C:/bin/emacs.exe"; d] w,
       Exited 1)
    /\ d = Unknown_EXE_header "C:/bin/temacs.exe".
Proof.
  destruct (unexec_rejects_bad_signature example_config example_process
              "D:/out/emacs" ""
              (with_files (directory example_world)
                 (<[0%nat := {| f_image := blank_image; f_length := 10;
                                f_protected := false |}]> ∅) example_world)
              "C:\bin\temacs.exe" "C:/bin/emacs.exe"
              {| name := "C:/bin/temacs.exe"; size := 10; file := 0;
                 base_address := view_address; file_base := blank_image |})
    as (d & H1 & H2 & _).
  - reflexivity.
  - reflexivity.
  - vm_compute. reflexivity.
  - left. vm_compute. discriminate.
  - exists d. split; [exact H1|]. apply H2. vm_compute. discriminate.
Defined.

(** ** The analyzer: what it returns *)

(** The analysis of an image with good signatures whose two bss areas
    lie in sections [kb] and [ks]: it returns unless the data area is
    found to span sections or the areas are to be combined and lie in
    different sections; the data area is the section EMDATA when
    [find_section] finds one, and the bss areas are combined or not as
    [bss_overlap] has it. *)
Lemma get_section_info_returns c p p_infile w kb sb ks ss found :
  let t := cfg_target c in
  let im := file_base p_infile in
  let table := sections (nt_headers im) in
  let align := FileAlignment (nt_headers im) in
  let overlap :=
    bss_overlap c (my_begbss p) (DWORD_PTR t (my_endbss p - my_begbss p))
      (my_begbss_static p)
      (DWORD_PTR t (my_endbss_static p - my_begbss_static p)) in
  valid_headers c p_infile = true ->
  find_section (bytes_of_string "EMDATA") table
    (view_bytes (contents im) (section_table_end im) (size p_infile))
  = Some found ->
  (found = None ->
   rva_to_section (PTR_TO_RVA t p (my_begdata p)) table
   = rva_to_section (PTR_TO_RVA t p (my_edata p)) table) ->
  table !! kb = Some sb -> table !! ks = Some ss ->
  rva_to_section (PTR_TO_RVA t p (my_begbss p)) table = Some kb ->
  rva_to_section (PTR_TO_RVA t p (my_endbss p)) table = Some kb ->
  rva_to_section (PTR_TO_RVA t p (my_begbss_static p)) table = Some ks ->
  rva_to_section (PTR_TO_RVA t p (my_endbss_static p)) table = Some ks ->
  (overlap = true -> kb = ks) ->
  exists info,
    get_section_info c p p_infile w = (w, Done info)
    /\ (forall k s, found = Some k -> table !! k = Some s ->
          data_section info = Some k
          /\ data_start info = DWORD_PTR t (ImageBase (nt_headers im)
                                            + VirtualAddress s)
          /\ data_size info = VirtualSize s)
    /\ (found = None ->
          data_section info = rva_to_section (PTR_TO_RVA t p (my_begdata p)) table
          /\ data_start info = my_begdata p
          /\ data_size info = DWORD_PTR t (my_edata p - my_begdata p))
    /\ bss_section info = Some kb
    /\ (overlap = true ->
          bss_start info = Z.min (my_begbss p) (my_begbss_static p)
          /\ bss_size info
             = DWORD_PTR t (Z.max (my_endbss p) (my_endbss_static p)
                            - Z.min (my_begbss p) (my_begbss_static p))
          /\ extra_bss_size info
             = Z.max (bss_growth t p (my_endbss p) sb align)
                     (bss_growth t p (my_endbss_static p) ss align)
          /\ bss_section_static info = None
          /\ extra_bss_size_static info = 0)
    /\ (overlap = false ->
          bss_start info = my_begbss p
          /\ bss_size info = DWORD_PTR t (my_endbss p - my_begbss p)
          /\ extra_bss_size info = bss_growth t p (my_endbss p) sb align
          /\ bss_section_static info = Some ks
          /\ bss_start_static info = my_begbss_static p
          /\ bss_size_static info
             = DWORD_PTR t (my_endbss_static p - my_begbss_static p)
          /\ extra_bss_size_static info
             = bss_growth t p (my_endbss_static p) ss align).
Proof.
  intros t im table align overlap Hvalid Hfound Hdata Hkb Hks Hb1 He1 Hb2 He2
    Hsame.
  subst t. unfold valid_headers in Hvalid.
  apply andb_true_iff in Hvalid as [Hvalid H3].
  apply andb_true_iff in Hvalid as [H1 H2].
  unfold get_section_info.
  rewrite H1, H3. apply negb_true_iff in H2. rewrite H2. cbn [negb].
  fold im table align. rewrite Hfound, bind_deref_Some. cbv beta.
  destruct found as [k'|].
  - destruct (lookup_lt_is_Some_2 table k') as [sk Hsk].
    { eapply find_section_bound, Hfound. }
    rewrite Hsk, bind_bind, bind_deref_Some. cbv beta.
    rewrite bind_ret. cbv beta iota zeta.
    rewrite Hb1, He1, Hb2, He2, !same_section_refl. simpl option_bind.
    cbv iota. simpl mbind. rewrite Hkb, Hks, !bind_deref_Some. cbv beta.
    fold overlap. destruct overlap eqn:Hov.
    + rewrite <- (Hsame eq_refl), same_section_refl.
      eexists. split; [reflexivity|]. simpl.
      split; [intros k s [= <-] Hs; rewrite Hsk in Hs; by injection Hs as <-|].
      done.
    + eexists. split; [reflexivity|]. simpl.
      split; [intros k s [= <-] Hs; rewrite Hsk in Hs; by injection Hs as <-|].
      done.
  - unfold same_section at 1. rewrite bool_decide_eq_true_2 by by apply Hdata.
    cbn [negb]. rewrite bind_ret. cbv beta iota zeta.
    rewrite Hb1, He1, Hb2, He2, !same_section_refl. simpl option_bind.
    cbv iota. simpl mbind. rewrite Hkb, Hks, !bind_deref_Some. cbv beta.
    fold overlap. destruct overlap eqn:Hov.
    + rewrite <- (Hsame eq_refl), same_section_refl.
      eexists. split; [reflexivity|]. simpl. done.
    + eexists. split; [reflexivity|]. simpl. done.
Qed.

(** With a section named EMDATA in the image, the data area that the
    analyzer records is that section: it starts at the image base plus
    the virtual address of the section and has its virtual size, and the
    symbols [my_begdata] and [my_edata] are not looked at (they may lie
    anywhere). *)
Theorem analyzer_takes_EMDATA_section c p p_infile w k s kb sb ks ss :
  let t := cfg_target c in
  let im := file_base p_infile in
  let table := sections (nt_headers im) in
  valid_headers c p_infile = true ->
  Forall (fun s => c_string (Name s)) table ->
  locate_by_name_field (bytes_of_string "EMDATA") table = Some k ->
  table !! k = Some s ->
  table !! kb = Some sb -> table !! ks = Some ss ->
  rva_to_section (PTR_TO_RVA t p (my_begbss p)) table = Some kb ->
  rva_to_section (PTR_TO_RVA t p (my_endbss p)) table = Some kb ->
  rva_to_section (PTR_TO_RVA t p (my_begbss_static p)) table = Some ks ->
  rva_to_section (PTR_TO_RVA t p (my_endbss_static p)) table = Some ks ->
  kb = ks ->
  exists info,
    get_section_info c p p_infile w = (w, Done info)
    /\ data_section info = Some k
    /\ data_start info
       = DWORD_PTR t (ImageBase (nt_headers im) + VirtualAddress s)
    /\ data_size info = VirtualSize s.
Proof.
  intros t im table Hvalid Hnames Hloc Hk Hkb Hks Hb1 He1 Hb2 He2 Hsame.
  assert (find_section (bytes_of_string "EMDATA") table
            (view_bytes (contents im) (section_table_end im) (size p_infile))
          = Some (Some k)) as Hfound.
  { rewrite <- Hloc. apply find_section_loop_short; [|simpl; lia|done].
    repeat constructor; simpl; lia. }
  destruct (get_section_info_returns c p p_infile w kb sb ks ss (Some k)
              Hvalid Hfound ltac:(done) Hkb Hks Hb1 He1 Hb2 He2
              ltac:(done)) as (info & Hrun & Hd & _).
  exists info. split; [done|]. by apply Hd.
Qed.

Lemma analyzer_takes_EMDATA_section_witness :
  exists info,
    get_section_info example_config example_process emdata_file example_world
    = (example_world, Done info)
    /\ data_section info = Some 1%nat
    /\ data_start info = 0x402000
    /\ data_size info = 16.
Proof.
  destruct (analyzer_takes_EMDATA_section example_config example_process
              emdata_file example_world 1
              (example_section "EMDATA" 16 0x2000 16 224 0x40)
              2 (example_section ".bss" 0x100 0x3000 0 0 0x80)
              2 (example_section ".bss" 0x100 0x3000 0 0 0x80))
    as (info & H1 & H2 & H3 & H4); try reflexivity.
  - repeat constructor; simpl; lia.
  - exists info. split; [exact H1|]. split; [exact H2|].
    split; [rewrite H3|rewrite H4]; reflexivity.
Defined.

Lemma bss_overlap_apart c b1 e1 b2 e2 :
  let t := cfg_target c in
  cfg_alpha c = false ->
  0 <= b1 <= e1 -> e1 < 2 ^ ptr_bits t -> 0 <= b2 <= e2 -> e2 < 2 ^ ptr_bits t ->
  (b1 < b2 /\ e1 <= b2) \/ (b2 <= b1 /\ e2 <= b1) ->
  bss_overlap c b1 (DWORD_PTR t (e1 - b1)) b2 (DWORD_PTR t (e2 - b2)) = false.
Proof.
  intros t Halpha H1 H2 H3 H4 H. unfold bss_overlap. fold t.
  rewrite !(DWORD_PTR_small t (_ - _)) by lia.
  replace (b1 + (e1 - b1)) with e1 by lia.
  replace (b2 + (e2 - b2)) with e2 by lia.
  rewrite !DWORD_PTR_small by lia. rewrite Halpha.
  destruct (Z.ltb_spec b1 b2).
  - replace (b2 <? e1) with false; [done | symmetry; apply Z.ltb_ge; lia].
  - replace (b1 <? e2) with false; [done | symmetry; apply Z.ltb_ge; lia].
Qed.

(** Two bss areas that lie apart (the build is not one for the Alpha)
    are kept as two areas, each with the section it lies in, its own
    start and size, and its own growth; the sections may differ. *)
Theorem analyzer_keeps_areas_apart c p p_infile w kb sb ks ss :
  let t := cfg_target c in
  let table := sections (nt_headers (file_base p_infile)) in
  let align := FileAlignment (nt_headers (file_base p_infile)) in
  valid_headers c p_infile = true ->
  data_area_ok c p p_infile = true ->
  cfg_alpha c = false ->
  table !! kb = Some sb -> table !! ks = Some ss ->
  rva_to_section (PTR_TO_RVA t p (my_begbss p)) table = Some kb ->
  rva_to_section (PTR_TO_RVA t p (my_endbss p)) table = Some kb ->
  rva_to_section (PTR_TO_RVA t p (my_begbss_static p)) table = Some ks ->
  rva_to_section (PTR_TO_RVA t p (my_endbss_static p)) table = Some ks ->
  0 <= my_begbss p <= my_endbss p -> my_endbss p < 2 ^ ptr_bits t ->
  0 <= my_begbss_static p <= my_endbss_static p ->
  my_endbss_static p < 2 ^ ptr_bits t ->
  (my_begbss p < my_begbss_static p /\ my_endbss p <= my_begbss_static p)
  \/ (my_begbss_static p <= my_begbss p /\ my_endbss_static p <= my_begbss p) ->
  exists info,
    get_section_info c p p_infile w = (w, Done info)
    /\ (bss_section info = Some kb
        /\ bss_start info = my_begbss p
        /\ bss_size info = my_endbss p - my_begbss p
        /\ extra_bss_size info = bss_growth t p (my_endbss p) sb align)
    /\ (bss_section_static info = Some ks
        /\ bss_start_static info = my_begbss_static p
        /\ bss_size_static info = my_endbss_static p - my_begbss_static p
        /\ extra_bss_size_static info
           = bss_growth t p (my_endbss_static p) ss align).
Proof.
  intros t table align Hvalid Hdata Halpha Hkb Hks Hb1 He1 Hb2 He2
    R1 R2 R3 R4 Hapart.
  pose proof (bss_overlap_apart c _ _ _ _ Halpha R1 R2 R3 R4 Hapart) as Hov.
  subst t. cbv zeta in Hov.
  destruct (find_section_defined (bytes_of_string "EMDATA") table
              (view_bytes (contents (file_base p_infile))
                 (section_table_end (file_base p_infile)) (size p_infile)))
    as [found Hfound]; [vm_compute; lia|].
  unfold data_area_ok, has_EMDATA in Hdata. fold table in Hdata.
  rewrite Hfound in Hdata.
  destruct (get_section_info_returns c p p_infile w kb sb ks ss found
              Hvalid Hfound) as (info & Hrun & _ & _ & HB & _ & Hsep);
    try done.
  { intros ->. simpl in Hdata. unfold same_section in Hdata.
    by apply bool_decide_eq_true in Hdata. }
  { rewrite Hov. discriminate. }
  destruct (Hsep Hov) as (S1 & S2 & S3 & S4 & S5 & S6 & S7).
  exists info. split; [done|].
  rewrite S2, S6, !DWORD_PTR_small by lia. done.
Qed.

Lemma analyzer_keeps_areas_apart_witness :
  exists info,
    get_section_info example_config apart_process example_file example_world
    = (example_world, Done info)
    /\ bss_size info = 0x10 /\ bss_section_static info = Some 2%nat
    /\ bss_size_static info = 0x10.
Proof.
  destruct (analyzer_keeps_areas_apart example_config apart_process
              example_file example_world
              2 (example_section ".bss" 0x100 0x3000 0 0 0x80)
              2 (example_section ".bss" 0x100 0x3000 0 0 0x80))
    as (info & H1 & (_ & _ & H2 & _) & (H3 & _ & H4 & _));
    try reflexivity; try (simpl; lia).
  exists info. split; [exact H1|]. split; [rewrite H2; reflexivity|].
  split; [exact H3 | rewrite H4; reflexivity].
Defined.

(** In a build for the Alpha the two bss areas are combined whether they
    intersect or not: when they lie in one section, the one area that
    results runs from the lower start to the higher end, the gap between
    them included; when they lie in different sections the analyzer
    prints its diagnostic and exits with status 1. *)
Theorem analyzer_combines_on_alpha c p p_infile w kb sb ks ss :
  let t := cfg_target c in
  let table := sections (nt_headers (file_base p_infile)) in
  valid_headers c p_infile = true ->
  data_area_ok c p p_infile = true ->
  cfg_alpha c = true ->
  table !! kb = Some sb -> table !! ks = Some ss ->
  rva_to_section (PTR_TO_RVA t p (my_begbss p)) table = Some kb ->
  rva_to_section (PTR_TO_RVA t p (my_endbss p)) table = Some kb ->
  rva_to_section (PTR_TO_RVA t p (my_begbss_static p)) table = Some ks ->
  rva_to_section (PTR_TO_RVA t p (my_endbss_static p)) table = Some ks ->
  0 <= my_begbss p <= my_endbss p -> my_endbss p < 2 ^ ptr_bits t ->
  0 <= my_begbss_static p <= my_endbss_static p ->
  my_endbss_static p < 2 ^ ptr_bits t ->
  (kb = ks ->
   exists info,
     get_section_info c p p_infile w = (w, Done info)
     /\ bss_section info = Some kb
     /\ bss_start info = Z.min (my_begbss p) (my_begbss_static p)
     /\ bss_size info = Z.max (my_endbss p) (my_endbss_static p) - bss_start info
     /\ bss_section_static info = None
     /\ extra_bss_size_static info = 0)
  /\ (kb <> ks ->
      get_section_info c p p_infile w
      = (with_stdout (stdout w ++ [BSS_data_not_in_a_single_section]) w,
         Exited 1)).
Proof.
  intros t table Hvalid Hdata Halpha Hkb Hks Hb1 He1 Hb2 He2 R1 R2 R3 R4.
  assert (bss_overlap c (my_begbss p) (DWORD_PTR t (my_endbss p - my_begbss p))
            (my_begbss_static p)
            (DWORD_PTR t (my_endbss_static p - my_begbss_static p)) = true)
    as Hov.
  { unfold bss_overlap. rewrite Halpha.
    by repeat match goal with |- context [if ?b then _ else _] => destruct b end. }
  subst t.
  destruct (find_section_defined (bytes_of_string "EMDATA") table
              (view_bytes (contents (file_base p_infile))
                 (section_table_end (file_base p_infile)) (size p_infile)))
    as [found Hfound]; [vm_compute; lia|].
  unfold data_area_ok, has_EMDATA in Hdata. fold table in Hdata.
  rewrite Hfound in Hdata.
  assert (found = None ->
          rva_to_section (PTR_TO_RVA (cfg_target c) p (my_begdata p)) table
          = rva_to_section (PTR_TO_RVA (cfg_target c) p (my_edata p)) table)
    as Hdata'.
  { intros ->. simpl in Hdata. unfold same_section in Hdata.
    by apply bool_decide_eq_true in Hdata. }
  split.
  - intros Hsame.
    destruct (get_section_info_returns c p p_infile w kb sb ks ss found
                Hvalid Hfound Hdata' Hkb Hks Hb1 He1 Hb2 He2 ltac:(done))
      as (info & Hrun & _ & _ & HB & Hm & _).
    destruct (Hm Hov) as (M1 & M2 & M3 & M4 & M5).
    exists info. split; [done|]. split; [done|]. split; [done|].
    rewrite M2, M1, DWORD_PTR_small by lia. done.
  - intros Hne. unfold valid_headers in Hvalid.
    apply andb_true_iff in Hvalid as [Hvalid H3].
    apply andb_true_iff in Hvalid as [H1 H2].
    unfold get_section_info.
    rewrite H1, H3. apply negb_true_iff in H2. rewrite H2. cbn [negb].
    fold table. rewrite Hfound, bind_deref_Some. cbv beta.
    assert (negb (same_section (Some kb) (Some ks)) = true) as Hdiff.
    { unfold same_section. rewrite bool_decide_eq_false_2; [done|congruence]. }
    destruct found as [k'|].
    + destruct (lookup_lt_is_Some_2 table k') as [sk Hsk].
      { eapply find_section_bound, Hfound. }
      rewrite Hsk, bind_bind, bind_deref_Some. cbv beta.
      rewrite bind_ret. cbv beta iota zeta.
      rewrite Hb1, He1, Hb2, He2, !same_section_refl. simpl option_bind.
      cbv iota. simpl mbind. rewrite Hkb, Hks, !bind_deref_Some. cbv beta.
      rewrite Hov, Hdiff. apply printf_exit.
    + unfold same_section at 1.
      rewrite bool_decide_eq_true_2 by by apply Hdata'.
      cbn [negb]. rewrite bind_ret. cbv beta iota zeta.
      rewrite Hb1, He1, Hb2, He2, !same_section_refl. simpl option_bind.
      cbv iota. simpl mbind. rewrite Hkb, Hks, !bind_deref_Some. cbv beta.
      rewrite Hov, Hdiff. apply printf_exit.
Qed.

Lemma analyzer_combines_on_alpha_witness :
  exists info,
    get_section_info alpha_config apart_process example_file example_world
    = (example_world, Done info)
    /\ bss_start info = 0x403000 /\ bss_size info = 0x30
    /\ bss_section_static info = None.
Proof.
  destruct (analyzer_combines_on_alpha alpha_config apart_process
              example_file example_world
              2 (example_section ".bss" 0x100 0x3000 0 0 0x80)
              2 (example_section ".bss" 0x100 0x3000 0 0 0x80))
    as [H _]; try reflexivity; try (simpl; lia).
  destruct (H eq_refl) as (info & H1 & _ & H2 & H3 & H4 & _).
  exists info. split; [exact H1|]. split; [rewrite H2; reflexivity|].
  split; [rewrite H3, H2; reflexivity | exact H4].
Defined.

(** ** The name of the output file *)

Lemma string_length_append (x y : string) :
  String.length (x +:+ y) = (String.length x + String.length y)%nat.
Proof. induction x as [|a x IH]; simpl; [done|]. by rewrite IH. Qed.

Lemma substring_whole (y : string) : substring 0 (String.length y) y = y.
Proof. induction y as [|b y IH]; simpl; [done|]. by rewrite IH. Qed.

Lemma substring_append_r (x y : string) :
  substring (String.length x) (String.length y) (x +:+ y) = y.
Proof. induction x as [|a x IH]; simpl; [apply substring_whole | done]. Qed.

(** The name under which [unexec] writes, whenever it gets as far as
    having one: it ends in ".exe", and with its terminator it fits the
    buffer of [MAX_PATH] bytes that holds it. *)
Theorem output_filename_ends_in_exe in_filename new_name_a out_filename :
  output_filename in_filename new_name_a = Done out_filename ->
  string_from (String.length out_filename - 4) out_filename = ".exe"%string
  /\ (String.length out_filename < MAX_PATH)%nat.
Proof.
  unfold output_filename.
  destruct (strrchr in_filename "/") as [p|]; [|discriminate].
  destruct (strrchr new_name_a "/") as [q|]; [|discriminate].
  set (name := (string_upto p in_filename +:+ string_from q new_name_a)%string).
  repeat case_bool_decide; try discriminate.
  - destruct (String.eqb _ ".exe") eqn:E; [|discriminate].
    intros [= <-]. apply String.eqb_eq in E. split; [done|lia].
  - destruct (String.eqb _ ".exe") eqn:E.
    + intros [= <-]. apply String.eqb_eq in E. split; [done|lia].
    + intros [= <-]. rewrite string_length_append. simpl String.length.
      split; [|lia]. unfold string_from. rewrite string_length_append.
      simpl String.length.
      replace (String.length name + 4 - 4)%nat with (String.length name) by lia.
      replace (String.length name + 4 - String.length name)%nat
        with (String.length ".exe") by (simpl; lia).
      apply substring_append_r.
Qed.

Lemma output_filename_ends_in_exe_witness :
  string_from (String.length "C:/bin/emacs.exe" - 4) "C:/bin/emacs.exe"
  = ".exe"%string
  /\ (String.length "C:/bin/emacs.exe" < MAX_PATH)%nat.
Proof.
  apply (output_filename_ends_in_exe "C:/bin/temacs.exe" "D:/out/emacs").
  reflexivity.
Defined.

(** ** The copier: the debug directory, and an image without raw data *)

Lemma get32_set32 m a v : 0 <= v < 2 ^ 32 -> get32 (set32 m a v) a = v.
Proof.
  intros Hv. unfold get32, set32.
  replace ((a <=? a) && (a <? a + 4)) with true
    by (symmetry; apply andb_true_iff; split; [apply Z.leb_le | apply Z.ltb_lt]; lia).
  replace ((a <=? a + 1) && (a + 1 <? a + 4)) with true
    by (symmetry; apply andb_true_iff; split; [apply Z.leb_le | apply Z.ltb_lt]; lia).
  replace ((a <=? a + 2) && (a + 2 <? a + 4)) with true
    by (symmetry; apply andb_true_iff; split; [apply Z.leb_le | apply Z.ltb_lt]; lia).
  replace ((a <=? a + 3) && (a + 3 <? a + 4)) with true
    by (symmetry; apply andb_true_iff; split; [apply Z.leb_le | apply Z.ltb_lt]; lia).
  replace (a - a) with 0 by lia. replace (a + 1 - a) with 1 by lia.
  replace (a + 2 - a) with 2 by lia. replace (a + 3 - a) with 3 by lia.
  change 255 with (Z.ones 8). rewrite !Z.land_ones, !Z.shiftr_div_pow2 by lia.
  change (2 ^ (8 * 0)) with 1. change (2 ^ (8 * 1)) with 256.
  change (2 ^ (8 * 2)) with 65536. change (2 ^ (8 * 3)) with 16777216.
  change (2 ^ 8) with 256. change (2 ^ 16) with 65536.
  change (2 ^ 24) with 16777216. change (2 ^ 32) with 4294967296 in Hv.
  rewrite Z.div_1_r.
  Z.div_mod_to_equations. lia.
Qed.

Lemma get32_same m m' a :
  (forall x, a <= x < a + 4 -> m' x = m x) -> get32 m' a = get32 m a.
Proof. intros H. unfold get32. rewrite !H by lia. done. Qed.

Lemma ADJUST_OFFSET_range t var src dst v :
  ADJUST_OFFSET t var src dst = Some v -> 0 <= v < 2 ^ 32.
Proof.
  unfold ADJUST_OFFSET. destruct (Z.eqb_spec var 0) as [->|_].
  - intros [= <-]. lia.
  - destruct (relocate_offset _ _ _ _); [|discriminate].
    intros [= <-]. apply DWORD_range.
Qed.

Lemma patch_debug_entries_fields t src dst n :
  forall entry m m',
    patch_debug_entries t src dst entry n m = Some m' ->
    forall j, 0 <= j < Z.of_nat n ->
      let field := entry + sizeof_debug_directory * j + debug_PointerToRawData in
      ADJUST_OFFSET t (get32 m field) src dst = Some (get32 m' field).
Proof.
  induction n as [|n IH]; intros entry m m' H j Hj; [lia|].
  simpl in H.
  destruct (ADJUST_OFFSET t (get32 m (entry + debug_PointerToRawData)) src dst)
    as [v|] eqn:Hv; [|discriminate]. simpl in H.
  unfold sizeof_debug_directory, debug_PointerToRawData in *.
  destruct (decide (j = 0)) as [->|Hne]; cbv zeta.
  - rewrite Z.mul_0_r, Z.add_0_r, Hv. f_equal.
    rewrite (get32_same (set32 m (entry + 24) v) m').
    + symmetry. apply get32_set32. by eapply ADJUST_OFFSET_range.
    + intros x Hx. apply (patch_debug_entries_frame _ _ _ _ _ _ _ _ H).
      intros j' Hj'. unfold sizeof_debug_directory, debug_PointerToRawData.
      lia.
  - specialize (IH _ _ _ H (j - 1) ltac:(lia)). cbv zeta in IH.
    replace (entry + 28 + 28 * (j - 1) + 24) with (entry + 28 * j + 24)
      in IH by lia.
    rewrite <- IH. f_equal. symmetry. apply get32_same.
    intros x Hx. unfold set32. ranges; reflexivity.
Qed.

(** The debug directory of the output: the raw-data pointer of each of
    its entries (the four bytes at offset 24 of the entry, in the section
    of the output that holds the directory) is the value that the copied
    bytes held there passed through [ADJUST_OFFSET]: 0 stays 0, any other
    offset is relocated. *)
Theorem copier_relocates_debug_pointers t p info p_infile p_outfile out l
    last k section :
  let hs := nt_headers (file_base p_infile) in
  let hn := nt_headers (file_base out) in
  let copied := view (after_remainder t p info p_infile p_outfile last) in
  copy_executable_and_dump_data t p info p_infile p_outfile = Some (out, l) ->
  last_raw (sections hs) = Some last ->
  rva_to_section (DebugDirectory hn).1 (sections hn) = Some k ->
  sections hn !! k = Some section ->
  forall j, 0 <= j < (DebugDirectory hn).2 / sizeof_debug_directory ->
    let field := RVA_TO_OFFSET t (DebugDirectory hn).1 section
                 + sizeof_debug_directory * j + debug_PointerToRawData in
    ADJUST_OFFSET t (get32 copied field) (sections hs) (sections hn)
    = Some (get32 (contents (file_base out)) field).
Proof.
  intros hs hn copied Hrun Hlast Hk Hsec j Hj field.
  destruct (copier_result _ _ _ _ _ _ _ Hrun)
    as (last' & table' & ini & unini & symtab & m & Hlast' & _ & Hdebug
        & _ & Hbase).
  fold hs in Hlast'. assert (last' = last) as -> by congruence.
  fold hn copied in Hdebug.
  assert (contents (file_base out) = m) as -> by (by rewrite Hbase).
  unfold patch_debug_directory in Hdebug. rewrite Hk, Hsec in Hdebug.
  simpl in Hdebug.
  apply (patch_debug_entries_fields _ _ _ _ _ _ _ Hdebug). lia.
Qed.

Lemma debug_copy_runs :
  copy_executable_and_dump_data Win32 example_process debug_info debug_file
    example_output = Some (debug_out, debug_chunks).
Proof. vm_compute. reflexivity. Qed.

Lemma copier_relocates_debug_pointers_witness :
  let hn := nt_headers (file_base debug_out) in
  let last := example_section ".rdata" 32 0x4000 32 224 0x40 in
  let section := example_section ".rdata" 32 0x4000 32 272 0x40 in
  let field := RVA_TO_OFFSET Win32 (DebugDirectory hn).1 section
               + sizeof_debug_directory * 0 + debug_PointerToRawData in
  ADJUST_OFFSET Win32
    (get32 (view (after_remainder Win32 example_process debug_info debug_file
                    example_output last)) field)
    (sections (nt_headers (file_base debug_file))) (sections hn)
  = Some (get32 (contents (file_base debug_out)) field).
Proof.
  refine (copier_relocates_debug_pointers Win32 example_process debug_info
            debug_file example_output debug_out debug_chunks
            (example_section ".rdata" 32 0x4000 32 224 0x40) 2
            (example_section ".rdata" 32 0x4000 32 272 0x40)
            debug_copy_runs _ _ _ 0 _).
  - reflexivity.
  - vm_compute. reflexivity.
  - vm_compute. reflexivity.
  - vm_compute. split; congruence.
Defined.

(** An image in which no section has raw data (one without sections
    among them) is outside what the copier can take: looking for the last
    section with raw data, it scans below the section table. *)
Theorem copier_needs_raw_data t p info p_infile p_outfile :
  Forall (fun s => PointerToRawData s = 0)
    (sections (nt_headers (file_base p_infile))) ->
  copy_executable_and_dump_data t p info p_infile p_outfile = None.
Proof.
  intros Hall. rewrite copier_unfold. cbv zeta.
  destruct (last_raw _) as [last|] eqn:E; [|done].
  assert (is_Some (last_raw (sections (nt_headers (file_base p_infile)))))
    as Hs by eauto.
  apply last_raw_is_Some in Hs as (s & Hin & Hne).
  by pose proof (proj1 (Forall_forall _ _) Hall s Hin).
Qed.

Lemma copier_needs_raw_data_witness :
  copy_executable_and_dump_data Win32 example_process example_info bare_file
    example_output = None.
Proof.
  apply copier_needs_raw_data. repeat constructor.
Defined.

(** * Properties of w32reg *)

Lemma tolower_nonzero c : c <> 0 -> tolower c <> 0.
Proof.
  unfold tolower. intros H.
  destruct (Z.leb_spec 65 c), (Z.leb_spec c 90); simpl; lia.
Qed.

Lemma strnicmp_entry resource : forall e rest,
  c_string resource -> c_string e ->
  exists d, strnicmp (e ++ 0 :: rest) (resource ++ [0]) (length resource)
            = Some d
    /\ (d = 0 <-> map tolower (take (length resource) e) = map tolower resource).
Proof.
  induction resource as [|y resource IH]; intros e rest Hr He; simpl.
  - by exists 0.
  - apply Forall_cons in Hr as [Hy Hr]. destruct e as [|x e]; simpl.
    + pose proof (tolower_nonzero y Hy).
      destruct (tolower y) eqn:E; [done| |];
        (eexists; split; [reflexivity|]; split; [discriminate|discriminate]).
    + apply Forall_cons in He as [Hx He].
      destruct (Z.eqb_spec (tolower x) (tolower y)) as [E|E].
      * destruct (Z.eqb_spec x 0); [done|].
        destruct (IH e rest Hr He) as (d & Hd & Hiff).
        exists d. split; [done|]. rewrite Hiff. split; [congruence|].
        by intros [= _ ->].
      * eexists. split; [done|]. split; [lia|]. by intros [= ? _].
Qed.

Lemma string_at_entry e rest : c_string e -> string_at (e ++ 0 :: rest) = Some e.
Proof.
  induction e as [|x e IH]; intros He; simpl; [done|].
  apply Forall_cons in He as [Hx He].
  destruct (Z.eqb_spec x 0); [done|]. by rewrite IH.
Qed.

Lemma past_nul_entry e rest : c_string e -> past_nul (e ++ 0 :: rest) = Some rest.
Proof.
  induction e as [|x e IH]; intros He; simpl; [done|].
  apply Forall_cons in He as [Hx He].
  destruct (Z.eqb_spec x 0); [done|]. by apply IH.
Qed.

Lemma rdb_entry_colon resource e rest :
  c_string e ->
  map tolower (take (length resource) e) = map tolower resource ->
  exists ch, (e ++ 0 :: rest) !! length resource = Some ch
    /\ (ch = 58 <-> e !! length resource = Some 58)
    /\ (ch = 58 ->
        string_at (drop (S (length resource)) (e ++ 0 :: rest))
        = Some (entry_value resource e)).
Proof.
  intros He Ed.
  assert (length resource <= length e)%nat as Hlen.
  { apply (f_equal length) in Ed. rewrite !length_map, length_take in Ed. lia. }
  destruct (decide (length resource < length e)%nat) as [Hlt|Hge].
  - destruct (lookup_lt_is_Some_2 e _ Hlt) as [ch Hch].
    exists ch. rewrite lookup_app_l by done. split; [done|].
    split; [rewrite Hch; split; congruence|]. intros _.
    rewrite drop_app_le by lia. apply string_at_entry. by apply Forall_drop.
  - exists 0. rewrite lookup_app_r by lia.
    replace (length resource - length e)%nat with 0%nat by lia.
    split; [done|]. split; [|done].
    rewrite (lookup_ge_None_2 e) by lia. done.
Qed.

Lemma rdb_loop_step fuel e rest resource :
  c_string resource -> c_string e -> e <> [] ->
  w32_get_rdb_resource_loop (S fuel) (e ++ 0 :: rest) resource
  = if entry_matches resource e then Some (Some (entry_value resource e))
    else w32_get_rdb_resource_loop fuel rest resource.
Proof.
  intros Hr He Hne.
  assert (exists x, head (e ++ 0 :: rest) = Some x /\ x <> 0) as (x & Hx & Hx0).
  { destruct e as [|x e']; [done|]. apply Forall_cons in He as [? _].
    by exists x. }
  destruct (strnicmp_entry resource e rest Hr He) as (d & Hd & Hiff).
  pose proof (past_nul_entry e rest He) as Hp.
  pose proof (rdb_entry_colon resource e rest He) as Hcolon.
  unfold entry_matches.
  set (v := e ++ 0 :: rest) in *.
  cbn [w32_get_rdb_resource_loop]. rewrite Hx. cbn [mbind option_bind].
  destruct (Z.eqb_spec x 0); [done|]. rewrite Hd. cbn [mbind option_bind].
  destruct (Z.eqb_spec d 0) as [Ed|Ed].
  - apply Hiff in Ed. rewrite (bool_decide_eq_true_2 _ Ed). cbn [andb].
    destruct (Hcolon Ed) as (ch & Hch & Hc & Hv). rewrite Hch.
    cbn [mbind option_bind].
    destruct (Z.eqb_spec ch 58) as [E|E].
    + rewrite bool_decide_eq_true_2 by by apply Hc. by rewrite (Hv E).
    + rewrite bool_decide_eq_false_2 by (by rewrite <- Hc).
      by rewrite Hp.
  - rewrite bool_decide_eq_false_2 by (by rewrite <- Hiff). cbn [andb].
    cbn [mbind option_bind]. by rewrite Hp.
Qed.

Lemma rdb_loop_entries resource entries : forall fuel,
  c_string resource ->
  Forall (fun e => c_string e /\ e <> []) entries ->
  (length (rdb_of entries) <= fuel)%nat ->
  w32_get_rdb_resource_loop fuel (rdb_of entries) resource
  = Some (first_match resource entries).
Proof.
  intros fuel Hr. revert fuel.
  induction entries as [|e entries IH]; intros fuel Hall Hfuel.
  - destruct fuel; simpl in *; [lia|done].
  - apply Forall_cons in Hall as [[He Hne] Hall].
    unfold rdb_of in *. cbn [map concat] in *. rewrite <- !app_assoc in *.
    cbn [app] in *. rewrite length_app in Hfuel. cbn [length] in Hfuel.
    destruct fuel as [|fuel]; [lia|].
    rewrite rdb_loop_step by done.
    unfold first_match. cbn [find].
    destruct (entry_matches resource e); [done|].
    apply IH; [done|lia].
Qed.

(** [w32_get_rdb_resource] on a resource string that is laid out well
    (entries that are non-empty strings, each with its terminator, and a
    terminator after the last): the result is the value of the first
    entry that starts with the name asked for, in whatever case, followed
    by a colon, and a null pointer when there is none; the search reads
    nothing beyond the string. *)
Theorem w32_get_rdb_resource_first_match resource entries :
  c_string resource ->
  Forall (fun e => c_string e /\ e <> []) entries ->
  w32_get_rdb_resource (rdb_of entries) resource
  = Some (first_match resource entries).
Proof.
  intros Hr Hall. unfold w32_get_rdb_resource.
  by apply rdb_loop_entries.
Qed.

Lemma w32_get_rdb_resource_first_match_witness :
  w32_get_rdb_resource
    (rdb_of [bytes_of_string "emacs.font:Courier";
             bytes_of_string "Emacs.Background:navy"])
    (bytes_of_string "emacs.background")
  = Some (Some (bytes_of_string "navy")).
Proof.
  rewrite w32_get_rdb_resource_first_match.
  - reflexivity.
  - repeat constructor; simpl; lia.
  - repeat constructor; simpl; (lia || discriminate).
Defined.

Lemma strnicmp_tolower n : forall a b b',
  map tolower b = map tolower b' -> strnicmp a b n = strnicmp a b' n.
Proof.
  induction n as [|n IH]; intros a b b' E; simpl; [done|].
  destruct a as [|x a]; [done|].
  destruct b as [|y b], b' as [|y' b']; simpl in E; try done.
  injection E as -> E. by rewrite (IH a b b' E).
Qed.

Lemma rdb_loop_tolower fuel : forall value resource resource',
  map tolower resource = map tolower resource' ->
  w32_get_rdb_resource_loop fuel value resource
  = w32_get_rdb_resource_loop fuel value resource'.
Proof.
  induction fuel as [|fuel IH]; intros value resource resource' E;
    cbn [w32_get_rdb_resource_loop]; [done|].
  assert (length resource = length resource') as ->
    by (apply (f_equal length) in E; by rewrite !length_map in E).
  rewrite (strnicmp_tolower _ value (resource ++ [0]) (resource' ++ [0]))
    by (by rewrite !map_app, E).
  destruct (head value) as [c|]; cbn [mbind option_bind]; [|done].
  destruct (c =? 0); [done|].
  destruct (strnicmp _ _ _) as [d|]; cbn [mbind option_bind]; [|done].
  destruct (if d =? 0 then _ else _) as [[|]|]; cbn [mbind option_bind];
    try done.
  destruct (past_nul value) as [value'|]; cbn [mbind option_bind]; [|done].
  by apply IH.
Qed.

(** The name asked for is compared without regard to case: two names
    that differ in the case of their letters only get the same answer
    from every resource string, well laid out or not. *)
Theorem w32_get_rdb_resource_ignores_case rdb resource resource' :
  map tolower resource = map tolower resource' ->
  w32_get_rdb_resource rdb resource = w32_get_rdb_resource rdb resource'.
Proof. apply rdb_loop_tolower. Qed.

Lemma w32_get_rdb_resource_ignores_case_witness :
  w32_get_rdb_resource SYSTEM_DEFAULT_RESOURCES
    (bytes_of_string "Emacs.Menu.AttributeBackground")
  = w32_get_rdb_resource SYSTEM_DEFAULT_RESOURCES
      (bytes_of_string "emacs.menu.attributeBackground").
Proof.
  apply w32_get_rdb_resource_ignores_case. reflexivity.
Defined.

Lemma system_default_entries_well_formed :
  Forall (fun e => c_string e /\ e <> []) system_default_entries.
Proof.
  repeat constructor; try discriminate; vm_compute; discriminate.
Qed.

Lemma trykey_typed_values reg hive name class dwexptype :
  trykey reg hive name class dwexptype
  = first_of [typed_value reg hive name dwexptype;
              typed_value reg hive class dwexptype].
Proof.
  unfold trykey, typed_value, has_value_of_type.
  destruct (reg hive) as [k|]; cbn [mbind option_bind first_of]; [|done].
  destruct (k name) as [[ty data]|] eqn:En; cbn [mbind option_bind fst snd].
  - destruct (ty =? dwexptype); cbn [mbind option_bind].
    + by rewrite En.
    + destruct (k class) as [[ty' data']|] eqn:Ec; cbn [mbind option_bind fst snd];
        [|done].
      destruct (ty' =? dwexptype); cbn [mbind option_bind]; [|done].
      by rewrite Ec.
  - destruct (k class) as [[ty' data']|] eqn:Ec; cbn [mbind option_bind fst snd];
      [|done].
    destruct (ty' =? dwexptype); cbn [mbind option_bind]; [|done].
    by rewrite Ec.
Qed.

(** The order in which [w32_get_string_resource] looks for a resource,
    given a resource string that is laid out well (or none): in the
    string by name, then by class; unless X resources are inhibited, in
    the registry, for the current user before the local machine and by
    name before class, taking only values of type [REG_SZ]; and last, by
    name only, among the system defaults.  The answer is that of the
    first place that has one, a null pointer if none has. *)
Theorem w32_get_string_resource_order inhibit reg entries name class :
  c_string name -> c_string class ->
  (forall es, entries = Some es ->
     Forall (fun e => c_string e /\ e <> []) es) ->
  w32_get_string_resource inhibit reg (rdb_of <$> entries) name class
  = Some (first_of (lookup_order inhibit reg entries name class)).
Proof.
  intros Hn Hc Hes. unfold w32_get_string_resource, lookup_order.
  assert (forall tail : list (option (list Z)),
            (if inhibit then Some None
             else w32_get_string_resource_1 reg name class REG_SZ)
            = Some (first_of tail) ->
            match (match rdb_of <$> entries with
                   | Some rdb =>
                       w32_get_rdb_resource rdb name
                       ≫= λ resource, match resource with
                                      | Some v => Some (Some v)
                                      | None => w32_get_rdb_resource rdb class
                                      end
                   | None => Some None
                   end) ≫= (λ from_rdb, match from_rdb with
                                        | Some v => Some (Some v)
                                        | None =>
                                            if inhibit then Some None
                                            else w32_get_string_resource_1 reg
                                                   name class REG_SZ
                                        end)
            with r => r end
            = Some (first_of (match entries with
                              | Some entries =>
                                  [first_match name entries;
                                   first_match class entries]
                              | None => []
                              end ++ tail))) as Hrdb.
  { intros tail Htail. destruct entries as [es|]; cbn [fmap option_fmap option_map].
    - specialize (Hes es eq_refl).
      unfold w32_get_rdb_resource.
      rewrite !rdb_loop_entries by done. cbn [mbind option_bind app first_of].
      destruct (first_match name es); [done|].
      destruct (first_match class es); [done|]. done.
    - done. }
  apply Hrdb. destruct inhibit; [done|].
  unfold w32_get_string_resource_1.
  rewrite !trykey_typed_values. cbn [first_of].
  unfold w32_get_rdb_resource, SYSTEM_DEFAULT_RESOURCES.
  change (concat (map (fun e => e ++ [0]) system_default_entries) ++ [0])
    with (rdb_of system_default_entries).
  rewrite rdb_loop_entries by (done || apply system_default_entries_well_formed).
  destruct (typed_value reg HKEY_CURRENT_USER name REG_SZ); [done|].
  destruct (typed_value reg HKEY_CURRENT_USER class REG_SZ); [done|].
  destruct (typed_value reg HKEY_LOCAL_MACHINE name REG_SZ); [done|].
  destruct (typed_value reg HKEY_LOCAL_MACHINE class REG_SZ); [done|].
  by destruct (first_match name system_default_entries).
Qed.

Lemma w32_get_string_resource_order_witness :
  w32_get_string_resource false example_registry
    (Some (rdb_of [bytes_of_string "emacs.cursorColor:red"]))
    (bytes_of_string "emacs.font") (bytes_of_string "Emacs.Font")
  = Some (Some (bytes_of_string "Courier")).
Proof.
  rewrite (w32_get_string_resource_order false example_registry
             (Some [bytes_of_string "emacs.cursorColor:red"])).
  - reflexivity.
  - repeat constructor; simpl; lia.
  - repeat constructor; simpl; lia.
  - intros es [= <-]. repeat constructor; simpl; (lia || discriminate).
Defined.

(** * Properties of movemail *)

(** ** Runs and what holds of them *)

Lemma wp_inv {R} (p : prog R) inv post h : wp p inv post h -> inv h.
Proof. destruct p; simpl; tauto. Qed.

Lemma wp_traces {R} (p : prog R) inv post : forall h tr,
  wp p inv post h -> traces p tr -> inv (h ++ tr).
Proof.
  induction p as [r|X c k IH| |]; intros h tr Hwp Htr;
    (destruct tr as [|e tr];
     [rewrite app_nil_r; by eapply wp_inv | simpl in Htr; try done]).
  destruct Htr as (x & -> & Htr). destruct Hwp as [_ Hwp].
  specialize (IH x _ _ (Hwp x) Htr). by rewrite <- app_assoc in IH.
Qed.

Lemma wp_returns {R} (p : prog R) inv post : forall h tr r,
  wp p inv post h -> returns p tr r -> post (h ++ tr) r.
Proof.
  induction p as [r'|X c k IH| |]; intros h tr r Hwp Hr; simpl in Hr; try done.
  - destruct Hr as [-> ->]. rewrite app_nil_r. apply Hwp.
  - destruct tr as [|e tr]; [done|]. destruct Hr as (x & -> & Hr).
    destruct Hwp as [_ Hwp].
    specialize (IH x _ _ _ (Hwp x) Hr). by rewrite <- app_assoc in IH.
Qed.

Lemma wp_and_then {R S} (p : prog R) (k : R -> prog S) inv post : forall h,
  wp p inv (fun h' r => wp (k r) inv post h') h ->
  wp (and_then p k) inv post h.
Proof.
  induction p as [r|X c f IH| |]; intros h Hwp; simpl in *.
  - apply Hwp.
  - destruct Hwp as [Hi Hwp]. split; [done|]. intros x. apply IH, Hwp.
  - tauto.
  - tauto.
Qed.

Lemma wp_weaken {R} (p : prog R) inv (post post' : list event -> R -> Prop) :
  (forall h r, post h r -> post' h r) ->
  forall h, wp p inv post h -> wp p inv post' h.
Proof.
  intros Hpost. induction p as [r|X c f IH| |]; intros h Hwp; simpl in *.
  - destruct Hwp. split; [done|]. by apply Hpost.
  - destruct Hwp as [Hi Hwp]. split; [done|]. intros x. apply IH, Hwp.
  - done.
  - done.
Qed.

Lemma snoc_split {A} (h pre post : list A) (e e' : A) :
  h ++ [e] = pre ++ e' :: post ->
  (post = [] /\ pre = h /\ e' = e)
  \/ exists post', post = post' ++ [e] /\ h = pre ++ e' :: post'.
Proof.
  destruct post as [|x post _] using rev_ind.
  - intros H. apply app_inj_tail in H as [-> ->]. by left.
  - intros H. right. exists post.
    rewrite app_comm_cons, app_assoc in H.
    apply app_inj_tail in H as [-> ->]. done.
Qed.

Lemma retrieved_snoc h e : retrieved (h ++ [e]) = retrieved h ++ retrieved_by e.
Proof. unfold retrieved. by rewrite map_app, concat_app; simpl; rewrite app_nil_r. Qed.

Lemma deleted_snoc h e : deleted (h ++ [e]) = deleted h ++ deleted_by e.
Proof. unfold deleted. by rewrite map_app, concat_app; simpl; rewrite app_nil_r. Qed.

Lemma counted_snoc h e : counted (h ++ [e]) = counted h ++ counted_by e.
Proof. unfold counted. by rewrite map_app, concat_app; simpl; rewrite app_nil_r. Qed.

Lemma written_snoc h e : written (h ++ [e]) = written h ++ written_by e.
Proof. unfold written. by rewrite map_app, concat_app; simpl; rewrite app_nil_r. Qed.

Lemma existsb_snoc {A} (f : A -> bool) h e :
  existsb f (h ++ [e]) = existsb f h || f e.
Proof. rewrite existsb_app. simpl. by rewrite orb_false_r. Qed.

Lemma numbers_snoc n : forall first step,
  numbers (S n) first step = numbers n first step ++ [first + Z.of_nat n * step].
Proof.
  induction n as [|n IH]; intros first step.
  - simpl. f_equal. lia.
  - change (numbers (S (S n)) first step)
      with (first :: numbers (S n) (first + step) step).
    rewrite IH. simpl. do 3 f_equal. rewrite Nat2Z.inj_succ. ring.
Qed.

Lemma length_numbers n first step : length (numbers n first step) = n.
Proof. revert first. induction n as [|n IH]; intros first; simpl; [done|]. by rewrite IH. Qed.

Lemma protocol_nil outfile preserve reverse_order :
  protocol outfile preserve reverse_order [].
Proof.
  split.
  - intros pre i ok post H. by destruct pre.
  - intros pre file ok post H. by destruct pre.
  - by left.
  - by left.
Qed.

Lemma protocol_plain outfile preserve reverse_order h e :
  protocol outfile preserve reverse_order h -> plain e ->
  protocol outfile preserve reverse_order (h ++ [e]).
Proof.
  intros [H1 H2 H3 H4] (P1 & P2 & P3 & P4 & P5 & _). split.
  - intros pre i ok post E. apply snoc_split in E as [(_ & _ & <-)|(post' & _ & E)];
      [done | by eapply H1].
  - intros pre file ok post E.
    apply snoc_split in E as [(_ & _ & <-)|(post' & _ & E)];
      [done | by eapply H2].
  - by rewrite retrieved_snoc, counted_snoc, P3, P5, !app_nil_r.
  - by rewrite deleted_snoc, counted_snoc, P4, P5, !app_nil_r.
Qed.

Lemma protocol_fclose outfile preserve reverse_order h ok :
  protocol outfile preserve reverse_order h ->
  protocol outfile preserve reverse_order (h ++ [Ev fclose ok]).
Proof.
  intros [H1 H2 H3 H4]. split.
  - intros pre i a post E. apply snoc_split in E as [(_ & _ & E)|(post' & _ & E)];
      [done | by eapply H1].
  - intros pre file a post E.
    apply snoc_split in E as [(_ & _ & E)|(post' & _ & E)];
      [done | by eapply H2].
  - by rewrite retrieved_snoc, counted_snoc, !app_nil_r.
  - by rewrite deleted_snoc, counted_snoc, !app_nil_r.
Qed.

Lemma wp_bind {R S} (p : prog R) (k : R -> prog S) inv
    (mid : list event -> R -> Prop) post h :
  wp p inv mid h ->
  (forall h' r, inv h' -> mid h' r -> wp (k r) inv post h') ->
  wp (and_then p k) inv post h.
Proof.
  intros Hp Hk. apply wp_and_then. revert h Hp.
  induction p as [r|X c f IH| |]; intros h Hwp; simpl in *.
  - destruct Hwp as [Hi Hm]. split; [done|]. by apply Hk.
  - destruct Hwp as [Hi Hwp]. split; [done|]. intros x. apply IH, Hwp.
  - done.
  - done.
Qed.

(** ** The parts of [popmail] that write a message *)

Lemma tidy_mono {R} (good : R -> bool) (p : prog R) :
  forall w, tidy good true p -> tidy good w p.
Proof.
  induction p as [r|X c k IH| |]; intros w H; simpl in *; try done.
  - auto.
  - intros x. destruct (H x) as [Hp Ht]. split; [done|]. by apply IH.
Qed.

Lemma tidy_and_then {R S} (good : R -> bool) (good' : S -> bool)
    (p : prog R) (k : R -> prog S) :
  (forall r, good r = true -> tidy good' false (k r)) ->
  (forall r, good r = false -> tidy good' true (k r)) ->
  forall w, tidy good w p -> tidy good' w (and_then p k).
Proof.
  intros Hgood Hbad. induction p as [r|X c f IH| |]; intros w H; simpl in *;
    try done.
  - destruct (good r) eqn:E.
    + destruct w; [by specialize (H eq_refl) | by apply Hgood].
    + by apply tidy_mono, Hbad.
  - intros x. destruct (H x) as [Hp Ht]. split; [done|]. by apply IH.
Qed.

Section Protocol.

Variables (outfile : list Z) (preserve reverse_order : bool).

Local Abbreviation inv := (protocol outfile preserve reverse_order).

Lemma gist_plain h e :
  plain e -> went_wrong e = false -> gist_of (h ++ [e]) = gist_of h.
Proof.
  intros (_ & P2 & P3 & P4 & P5 & P6) Hw. unfold gist_of.
  rewrite retrieved_snoc, counted_snoc, deleted_snoc, !existsb_snoc,
    P2, P3, P4, P5, P6, Hw, !app_nil_r, !orb_false_r.
  done.
Qed.

Lemma tidy_wp {R} (good : R -> bool) (p : prog R) g : forall w h,
  tidy good w p -> inv h -> (w = false -> gist_of h = g) ->
  wp p inv (fun h' r => good r = true -> gist_of h' = g) h.
Proof.
  induction p as [r|X c k IH| |]; intros w h Ht Hinv Hn; simpl in *;
    try done.
  - split; [done|]. intros Hg. apply Hn. destruct w; [|done].
    rewrite (Ht eq_refl) in Hg. done.
  - split; [done|]. intros x. destruct (Ht x) as [Hp Hk].
    apply (IH x _ _ Hk); [by apply protocol_plain|].
    intros Hw. apply orb_false_iff in Hw as [-> Hw].
    rewrite gist_plain by done. by apply Hn.
Qed.

Lemma wp_plain {R X} (c : call X) (k : X -> prog R) post h :
  inv h -> (forall x, plain (Ev c x)) ->
  (forall x, inv (h ++ [Ev c x]) -> wp (k x) inv post (h ++ [Ev c x])) ->
  wp (Call c k) inv post h.
Proof.
  intros Hi Hp Hk. split; [done|]. intros x. apply Hk.
  by apply protocol_plain.
Qed.

(** The parts that write to the mailbox file make plain calls only. *)
Ltac tidy_call :=
  let x := fresh "x" in
  intros x; split; [by repeat split|]; simpl.

Lemma tidy_mbx_delimit_begin b : tidy (fun ok : bool => ok) false (mbx_delimit_begin b).
Proof.
  unfold mbx_delimit_begin. tidy_call. destruct x; simpl; [|done].
  tidy_call. destruct (x.1 =? 0); simpl.
  - tidy_call. done.
  - tidy_call. by destruct x0.
Qed.

Lemma tidy_mbx_delimit_end : tidy (fun ok : bool => ok) false mbx_delimit_end.
Proof. unfold mbx_delimit_end. tidy_call. by destruct x. Qed.

Lemma tidy_write_line line len :
  tidy (fun ok : bool => ok) false (write_line line len).
Proof.
  unfold write_line. case_match; [done|]. tidy_call.
  apply orb_false_iff in H as [H1 H2].
  rewrite length_take, Nat2Z.inj_min, Z2Nat.id by lia.
  rewrite Z.min_l by lia.
  destruct (x =? len); simpl; [|done]. tidy_call. by destruct x0.
Qed.

Lemma tidy_unquoted line len :
  tidy (fun ok : bool => ok) false (unquoted line len).
Proof.
  unfold unquoted. case_match; [|done]. case_match.
  - tidy_call. destruct x; simpl; [|done]. apply tidy_write_line.
  - apply tidy_write_line.
Qed.

Lemma tidy_mbx_write b line len :
  tidy (fun ok : bool => ok) false (mbx_write b line len).
Proof.
  unfold mbx_write. case_match; [|apply tidy_unquoted].
  case_match; [|done]. case_match; [|apply tidy_unquoted].
  tidy_call. destruct x; simpl; [|done]. apply tidy_unquoted.
Qed.

Lemma tidy_pop_retr_end ret w :
  (w = true -> ret <> 0) -> tidy (fun ok : bool => ok) w (pop_retr_end ret).
Proof.
  intros Hw. unfold pop_retr_end. destruct (Z.eqb_spec ret 0) as [E|E]; simpl.
  - intros ->. by destruct Hw.
  - tidy_call. tidy_call. done.
Qed.

Lemma tidy_pop_retr_loop b turns :
  tidy (fun ok : bool => ok) false (pop_retr_loop b turns).
Proof.
  induction turns as [|turns IH]; [done|].
  simpl. intros r. split; [by repeat split|].
  destruct (Z.ltb_spec r.1 0) as [Hlt|Hge]; simpl.
  - apply tidy_pop_retr_end. lia.
  - destruct r.2 as [line|]; simpl.
    + rewrite andb_false_r. simpl.
      apply (tidy_and_then (fun ok : bool => ok)); [| |apply tidy_mbx_write].
      * intros [|] Hr; [|done]. simpl. apply IH.
      * intros [|] Hr; [done|]. simpl. tidy_call. tidy_call. tidy_call. done.
    + apply tidy_pop_retr_end. rewrite andb_true_r.
      intros Hw. apply negb_true_iff, Z.eqb_neq in Hw. done.
Qed.

(** ** The calls that the protocol is about *)

Local Arguments wp : simpl never.

Lemma retrieval_order_numbers rev nmsgs n :
  retrieval_order rev nmsgs n
  = numbers n (first_number rev nmsgs) (increment_of rev).
Proof. by destruct rev. Qed.

Lemma protocol_stat h x :
  inv h -> retrieved h = [] -> deleted h = [] ->
  inv (h ++ [Ev pop_stat x]).
Proof.
  intros [H1 H2 H3 H4] Hr Hd. split.
  - intros pre i ok post E.
    apply snoc_split in E as [(_ & _ & E)|(post' & _ & E)];
      [done | by eapply H1].
  - intros pre file ok post E.
    apply snoc_split in E as [(_ & _ & E)|(post' & _ & E)];
      [done | by eapply H2].
  - left. by rewrite retrieved_snoc, Hr.
  - left. by rewrite deleted_snoc, Hd.
Qed.

Lemma protocol_open h ok nmsgs :
  inv h -> counted h = [nmsgs] -> nmsgs <> 0 -> existsb is_open h = false ->
  inv (h ++ [Ev (open_O_EXCL outfile) ok]).
Proof.
  intros [H1 H2 H3 H4] Hc Hn Ho. split.
  - intros pre i a post E.
    apply snoc_split in E as [(_ & _ & E)|(post' & _ & E)];
      [done | by eapply H1].
  - intros pre file a post E.
    apply snoc_split in E as [(_ & -> & E)|(post' & _ & E)];
      [|by eapply H2].
    inversion E. eauto.
  - by rewrite retrieved_snoc, counted_snoc, !app_nil_r.
  - by rewrite deleted_snoc, counted_snoc, !app_nil_r.
Qed.

Lemma protocol_retrieve h ok nmsgs k :
  inv h -> counted h = [nmsgs] ->
  retrieved h = retrieval_order reverse_order nmsgs k ->
  (k < Z.to_nat nmsgs)%nat ->
  inv (h ++ [Ev (pop_retrieve_first
                   (first_number reverse_order nmsgs
                    + Z.of_nat k * increment_of reverse_order)) ok]).
Proof.
  intros [H1 H2 H3 H4] Hc Hr Hk. split.
  - intros pre i a post E.
    apply snoc_split in E as [(_ & _ & E)|(post' & _ & E)];
      [done | by eapply H1].
  - intros pre file a post E.
    apply snoc_split in E as [(_ & _ & E)|(post' & _ & E)];
      [done | by eapply H2].
  - right. exists nmsgs.
    rewrite retrieved_snoc, counted_snoc, app_nil_r, Hr, length_app. simpl.
    rewrite !retrieval_order_numbers, length_numbers, Nat.add_1_r.
    rewrite numbers_snoc. split; [done|]. split; [lia|done].
  - by rewrite deleted_snoc, counted_snoc, !app_nil_r.
Qed.

Lemma protocol_delete h ok nmsgs j :
  inv h -> preserve = false -> existsb went_wrong h = false ->
  existsb closed_well h = true -> counted h = [nmsgs] ->
  retrieved h = retrieval_order reverse_order nmsgs (Z.to_nat nmsgs) ->
  deleted h = numbers j 1 1 -> (j < Z.to_nat nmsgs)%nat ->
  inv (h ++ [Ev (pop_delete (1 + Z.of_nat j)) ok]).
Proof.
  intros [H1 H2 H3 H4] Hp Hw Hcl Hc Hr Hd Hj. split.
  - intros pre i a post E.
    apply snoc_split in E as [(_ & -> & E)|(post' & _ & E)];
      [|by eapply H1].
    eauto 10.
  - intros pre file a post E.
    apply snoc_split in E as [(_ & _ & E)|(post' & _ & E)];
      [done | by eapply H2].
  - by rewrite retrieved_snoc, counted_snoc, !app_nil_r.
  - right. exists nmsgs.
    rewrite deleted_snoc, counted_snoc, app_nil_r, Hd, length_app. simpl.
    rewrite length_numbers, Nat.add_1_r, numbers_snoc.
    split; [done|]. split; [lia|]. do 2 f_equal. lia.
Qed.

Lemma gist_retrieve h i :
  gist_of (h ++ [Ev (pop_retrieve_first i) true])
  = Gist (counts (gist_of h)) (asked (gist_of h) ++ [i])
      (removed (gist_of h)) (wrong (gist_of h)) (closed (gist_of h))
      (opened (gist_of h)).
Proof.
  unfold gist_of. simpl.
  by rewrite retrieved_snoc, counted_snoc, deleted_snoc, !existsb_snoc,
    !app_nil_r, !orb_false_r.
Qed.

Lemma gist_delete h i :
  gist_of (h ++ [Ev (pop_delete i) true])
  = Gist (counts (gist_of h)) (asked (gist_of h))
      (removed (gist_of h) ++ [i]) (wrong (gist_of h)) (closed (gist_of h))
      (opened (gist_of h)).
Proof.
  unfold gist_of. simpl.
  by rewrite retrieved_snoc, counted_snoc, deleted_snoc, !existsb_snoc,
    !app_nil_r, !orb_false_r.
Qed.

(** ** One message *)

Ltac wp_plain_call :=
  apply wp_plain; [done | by repeat split |]; intros ? ?.

Ltac wp_plain_as x :=
  apply wp_plain; [done | by repeat split |]; intros x ?.

Lemma wp_pop_retr b turns h nmsgs k d w c o :
  inv h ->
  gist_of h = Gist [nmsgs] (retrieval_order reverse_order nmsgs k) d w c o ->
  (k < Z.to_nat nmsgs)%nat ->
  wp (pop_retr b turns (first_number reverse_order nmsgs
                        + Z.of_nat k * increment_of reverse_order))
    inv
    (fun h' r => r = true ->
       gist_of h' = Gist [nmsgs] (retrieval_order reverse_order nmsgs (S k))
                      d w c o) h.
Proof.
  intros Hi Hg Hk.
  assert (Hc : counted h = [nmsgs]) by (by injection Hg).
  assert (Hr : retrieved h = retrieval_order reverse_order nmsgs k)
    by (by injection Hg).
  split; [done|]. intros ok.
  pose proof (protocol_retrieve h ok nmsgs k Hi Hc Hr Hk) as Hi'.
  destruct ok; cbn [negb].
  - eapply wp_weaken;
      [|eapply (tidy_wp (fun ok : bool => ok) _ _ false);
        [apply tidy_pop_retr_loop|done|intros _; reflexivity]].
    simpl. intros h' r H ->. rewrite (H eq_refl), gist_retrieve, Hg. simpl.
    by rewrite !retrieval_order_numbers, numbers_snoc.
  - wp_plain_call. wp_plain_call. done.
Qed.

Lemma wp_retrieve_message b turns h nmsgs k d w c o :
  inv h ->
  gist_of h = Gist [nmsgs] (retrieval_order reverse_order nmsgs k) d w c o ->
  (k < Z.to_nat nmsgs)%nat ->
  wp (retrieve_message b turns (first_number reverse_order nmsgs
                                + Z.of_nat k * increment_of reverse_order))
    inv
    (fun h' r => r = true ->
       gist_of h' = Gist [nmsgs] (retrieval_order reverse_order nmsgs (S k))
                      d w c o) h.
Proof.
  intros Hi Hg Hk. unfold retrieve_message.
  eapply wp_bind;
    [eapply (tidy_wp (fun ok : bool => ok) _ _ false);
       [apply tidy_mbx_delimit_begin|done|intros _; exact Hg]|].
  intros h1 [|] Hi1 Hg1; cbn [negb]; [|done].
  eapply wp_bind; [apply (wp_pop_retr _ _ _ _ _ _ _ _ _ Hi1 (Hg1 eq_refl) Hk)|].
  intros h2 [|] Hi2 Hg2; cbn [negb]; [|done].
  eapply wp_bind;
    [eapply (tidy_wp (fun ok : bool => ok) _ _ false);
       [apply tidy_mbx_delimit_end|done|intros _; by apply Hg2]|].
  intros h3 [|] Hi3 Hg3; cbn [negb]; [|done].
  wp_plain_call. split; [done|]. intros ->.
  rewrite gist_plain by (by repeat split). by apply Hg3.
Qed.

(** ** The two loops *)

Lemma wp_retrieve_messages b turns nmsgs d w c o n : forall k h,
  inv h ->
  gist_of h = Gist [nmsgs] (retrieval_order reverse_order nmsgs k) d w c o ->
  (k <= Z.to_nat nmsgs)%nat ->
  wp (retrieve_messages b turns n
        (first_number reverse_order nmsgs
         + Z.of_nat k * increment_of reverse_order)
        (last_number reverse_order nmsgs) (increment_of reverse_order))
    inv
    (fun h' r => r = true ->
       gist_of h' = Gist [nmsgs]
                      (retrieval_order reverse_order nmsgs (Z.to_nat nmsgs))
                      d w c o) h.
Proof.
  induction n as [|n IH]; intros k h Hi Hg Hk.
  - cbn [retrieve_messages]. case_match; [done|]. case_match; [done|].
    split; [done|]. intros _.
    apply Z.leb_gt in H0.
    assert (k = Z.to_nat nmsgs) as ->; [|done].
    unfold first_number, last_number, increment_of in H0.
    destruct reverse_order; lia.
  - cbn [retrieve_messages]. case_match; [done|].
    destruct (Z.leb_spec
      ((first_number reverse_order nmsgs
        + Z.of_nat k * increment_of reverse_order) * increment_of reverse_order)
      (last_number reverse_order nmsgs * increment_of reverse_order))
      as [Hle|Hgt].
    + assert (k < Z.to_nat nmsgs)%nat as Hlt.
      { unfold first_number, last_number, increment_of in Hle.
        destruct reverse_order; lia. }
      eapply wp_bind; [apply (wp_retrieve_message _ _ _ _ _ _ _ _ _ Hi Hg Hlt)|].
      intros h1 [|] Hi1 Hg1; cbn [negb].
      * case_match; [|done].
        replace (first_number reverse_order nmsgs
                 + Z.of_nat k * increment_of reverse_order
                 + increment_of reverse_order)
          with (first_number reverse_order nmsgs
                + Z.of_nat (S k) * increment_of reverse_order) by lia.
        apply IH; [done|by apply Hg1|lia].
      * wp_plain_as e.
        eapply (wp_bind _ _ _ (fun _ _ => True)).
        { destruct (e =? 0); [done|]. wp_plain_call. done. }
        intros h2 _ Hi2 _. wp_plain_call.
        split; [done|]. intros ok. split; [by apply protocol_fclose|done].
    + split; [done|]. intros _.
      assert (k = Z.to_nat nmsgs) as ->; [|done].
      unfold first_number, last_number, increment_of in Hgt.
      destruct reverse_order; lia.
Qed.

Lemma wp_delete_messages nmsgs n : forall j h,
  inv h -> preserve = false ->
  gist_of h = Gist [nmsgs]
                (retrieval_order reverse_order nmsgs (Z.to_nat nmsgs))
                (numbers j 1 1) false true true ->
  (j <= Z.to_nat nmsgs)%nat ->
  wp (delete_messages n (1 + Z.of_nat j) nmsgs) inv
    (fun h' r => r = true ->
       gist_of h' = Gist [nmsgs]
                      (retrieval_order reverse_order nmsgs (Z.to_nat nmsgs))
                      (numbers (Z.to_nat nmsgs) 1 1) false true true) h.
Proof.
  induction n as [|n IH]; intros j h Hi Hp Hg Hj.
  - cbn [delete_messages]. destruct (Z.leb_spec (1 + Z.of_nat j) nmsgs) as [Hle|Hgt]; [done|].
    split; [done|]. intros _.
    assert (j = Z.to_nat nmsgs) as -> by lia. done.
  - cbn [delete_messages]. destruct (Z.leb_spec (1 + Z.of_nat j) nmsgs) as [Hle|Hgt].
    + split; [done|]. intros ok.
      injection Hg as Hc Hr Hd Hw Hcl Ho.
      assert (inv (h ++ [Ev (pop_delete (1 + Z.of_nat j)) ok])) as Hi'
        by (apply (protocol_delete h ok nmsgs j); (done || lia)).
      destruct ok; cbn [negb].
      * case_match; [|done].
        replace (1 + Z.of_nat j + 1) with (1 + Z.of_nat (S j)) by lia.
        apply IH; [done|done| |lia].
        rewrite gist_delete. unfold gist_of.
        cbn [counts asked removed wrong closed opened].
        rewrite Hc, Hr, Hd, Hw, Hcl, Ho, numbers_snoc.
        do 3 f_equal. lia.
      * wp_plain_call. wp_plain_call. done.
    + split; [done|]. intros _.
      assert (j = Z.to_nat nmsgs) as -> by lia. done.
Qed.

(** ** [popmail] as a whole *)

Lemma popmail_numbers nmsgs :
  (if reverse_order then (nmsgs, 1, -1) else (1, nmsgs, 1))
  = (first_number reverse_order nmsgs, last_number reverse_order nmsgs,
     increment_of reverse_order).
Proof. by destruct reverse_order. Qed.

Lemma wp_popmail b turns mailbox password :
  wp (popmail b turns mailbox outfile preserve password reverse_order) inv
    (fun h r => r = EXIT_SUCCESS ->
       gist_of h = Gist [0] [] [] false false false
       \/ exists nmsgs, nmsgs <> 0
            /\ gist_of h
               = Gist [nmsgs]
                   (retrieval_order reverse_order nmsgs (Z.to_nat nmsgs))
                   (if preserve then [] else numbers (Z.to_nat nmsgs) 1 1)
                   false true true
            /\ last h = Some (Ev pop_quit true)) [].
Proof.
  unfold popmail.
  destruct (match strchr_colon mailbox with
            | Some (u, h) => (u, Some h)
            | None => (mailbox, None)
            end) as [user hostname].
  pose proof (protocol_nil outfile preserve reverse_order) as Hi0.
  wp_plain_as server. destruct server; cbn [negb]; [|wp_plain_call; done].
  split; [done|]. intros stat.
  assert (inv (([] ++ [Ev (pop_open hostname user password) true])
               ++ [Ev pop_stat stat])) as Hi1 by (by apply protocol_stat).
  destruct stat as [nmsgs|]; [|wp_plain_call; done].
  destruct (Z.eqb_spec nmsgs 0) as [->|Hn].
  { wp_plain_call. split; [done|]. intros _. by left. }
  split; [done|]. intros mbfi.
  match goal with |- wp _ _ _ ?h => assert (inv h) as Hi2
    by (by apply (protocol_open _ _ nmsgs)) end.
  destruct mbfi; cbn [negb]; [|wp_plain_call; wp_plain_call; done].
  wp_plain_as owned.
  eapply (wp_bind _ _ _ (fun h' _ =>
            gist_of h' = Gist [nmsgs] [] [] false false true)).
  { destruct owned; [done|]. wp_plain_call. done. }
  intros h3 ours Hi3 Hg3.
  destruct ours; cbn [negb]; [|wp_plain_call; wp_plain_call; done].
  wp_plain_as mbf.
  destruct mbf; cbn [negb];
    [|wp_plain_call; wp_plain_call; wp_plain_call; wp_plain_call; done].
  rewrite popmail_numbers.
  eapply wp_bind.
  { pose proof (wp_retrieve_messages b turns nmsgs [] false false true
                  turns 0%nat (h3 ++ [Ev fdopen true])) as Hloop.
    change (Z.of_nat 0 * increment_of reverse_order) with 0 in Hloop.
    rewrite Z.add_0_r in Hloop. apply Hloop; [done| |lia].
    rewrite gist_plain by (by repeat split). rewrite Hg3.
    by rewrite retrieval_order_numbers. }
  cbv beta. intros h4 retrieved Hi4 Hg4.
  destruct retrieved; cbn [negb]; [|done].
  specialize (Hg4 eq_refl).
  wp_plain_as synced.
  eapply (wp_bind _ _ _ (fun h' _ => gist_of h' = gist_of h4)).
  { destruct synced.
    - split; [done|]. by rewrite gist_plain by (by repeat split).
    - wp_plain_call. split; [done|].
      by rewrite !gist_plain by (by repeat split). }
  intros h5 sync_failed Hi5 Hg5.
  destruct sync_failed.
  { wp_plain_call. split; [done|]. intros ok.
    split; [by apply protocol_fclose|done]. }
  split; [done|]. intros closed.
  match goal with |- wp _ _ _ ?h => assert (inv h) as Hi6
    by (by apply protocol_fclose) end.
  destruct closed; cbn [negb]; [|wp_plain_call; done].
  eapply (wp_bind _ _ _ (fun h' r => r = true ->
            gist_of h' = Gist [nmsgs]
                   (retrieval_order reverse_order nmsgs (Z.to_nat nmsgs))
                   (if preserve then [] else numbers (Z.to_nat nmsgs) 1 1)
                   false true true)).
  { assert (gist_of (h5 ++ [Ev fclose true])
            = Gist [nmsgs]
                (retrieval_order reverse_order nmsgs (Z.to_nat nmsgs))
                [] false true true) as Hg6.
    { rewrite Hg4 in Hg5. injection Hg5 as Hc Hr Hd Hw Hcl Ho.
      unfold gist_of.
      rewrite retrieved_snoc, counted_snoc, deleted_snoc, !existsb_snoc,
        Hc, Hr, Hd, Hw, Hcl, Ho, !app_nil_r. done. }
    pose proof (wp_delete_messages nmsgs turns 0%nat
                  (h5 ++ [Ev fclose true]) Hi6) as Hdel.
    destruct preserve; [done|].
    apply Hdel; [done|done|lia]. }
  cbv beta. intros h7 deleted Hi7 Hg7.
  destruct deleted; cbn [negb]; [|done].
  specialize (Hg7 eq_refl).
  wp_plain_as quit. destruct quit; cbn [negb]; [|wp_plain_call; done].
  split; [done|]. intros _. right. exists nmsgs.
  split; [done|]. split.
  - by rewrite gist_plain by (by repeat split).
  - by rewrite last_snoc.
Qed.

End Protocol.

(** ** What a run of [popmail] shows *)

Lemma returns_traces {R} (p : prog R) : forall tr r,
  returns p tr r -> traces p tr.
Proof.
  induction p as [r'|X c k IH| |]; intros tr r Hr; simpl in Hr; try done.
  - by destruct Hr as [-> _].
  - destruct tr as [|e tr]; [done|]. destruct Hr as (x & -> & Hr).
    simpl. eauto.
Qed.

Lemma example_fetch_returns :
  returns (popmail example_build 2 example_mailbox example_outfile false
             None false) example_fetch EXIT_SUCCESS.
Proof.
  unfold example_fetch, example_fetched, example_writes. simpl.
  repeat (eexists; split; [reflexivity|]; simpl). done.
Qed.

Lemma starts_with_newline expected : forall l n rest,
  starts_with l expected = Some false -> 10 ∉ expected ->
  starts_with (take n l ++ 10 :: rest) expected = Some false.
Proof.
  induction expected as [|e expected IH]; intros l n rest Hs Hn;
    [by destruct l|].
  apply not_elem_of_cons in Hn as [Hne Hn].
  assert (starts_with (10 :: rest) (e :: expected) = Some false) as H10.
  { cbn [starts_with]. by destruct (Z.eqb_spec 10 e). }
  destruct n as [|n]; [by rewrite take_0|].
  destruct l as [|x l]; [by rewrite take_nil|].
  change (take (S n) (x :: l)) with (x :: take n l).
  cbn [app starts_with] in *.
  destruct (x =? e); [by apply IH|done].
Qed.

(** [popmail], the loop of [pop_delete]: a message is deleted on the
    server only when the mail is not to be preserved, and after every
    message that the server has counted has been asked for, in the order
    of retrieval, with no failed retrieval, write or flush, and the
    mailbox file has been closed well. *)
Theorem popmail_deletes_last b turns mailbox outfile preserve password
    reverse_order tr pre i ok post :
  traces (popmail b turns mailbox outfile preserve password reverse_order) tr ->
  tr = pre ++ Ev (pop_delete i) ok :: post ->
  preserve = false
  /\ existsb went_wrong pre = false
  /\ existsb closed_well pre = true
  /\ exists nmsgs, counted pre = [nmsgs]
       /\ retrieved pre
          = retrieval_order reverse_order nmsgs (Z.to_nat nmsgs).
Proof.
  intros Htr E.
  pose proof (wp_traces _ _ _ [] tr
                (wp_popmail outfile preserve reverse_order b turns mailbox
                   password) Htr) as Hinv.
  simpl in Hinv. by eapply (deletes_last _ _ _ _ Hinv).
Qed.

Lemma popmail_deletes_last_witness :
  false = false
  /\ existsb went_wrong example_fetched = false
  /\ existsb closed_well example_fetched = true
  /\ exists nmsgs, counted example_fetched = [nmsgs]
       /\ retrieved example_fetched
          = retrieval_order false nmsgs (Z.to_nat nmsgs).
Proof.
  apply (popmail_deletes_last example_build 2 example_mailbox
           example_outfile false None false example_fetch example_fetched
           1 true [Ev pop_quit true]).
  - exact (returns_traces _ _ _ example_fetch_returns).
  - reflexivity.
Defined.

(** [popmail], the two loops over the messages: the messages are
    asked for in the order 1, 2, ... or, with [reverse_order], downwards
    from the number that the server has counted, none twice and no more
    than counted; they are deleted in the order 1, 2, ... *)
Theorem popmail_message_order b turns mailbox outfile preserve password
    reverse_order tr :
  traces (popmail b turns mailbox outfile preserve password reverse_order) tr ->
  (retrieved tr = []
   \/ exists nmsgs, counted tr = [nmsgs]
        /\ (length (retrieved tr) <= Z.to_nat nmsgs)%nat
        /\ retrieved tr
           = retrieval_order reverse_order nmsgs (length (retrieved tr)))
  /\ (deleted tr = []
      \/ exists nmsgs, counted tr = [nmsgs]
           /\ (length (deleted tr) <= Z.to_nat nmsgs)%nat
           /\ deleted tr = numbers (length (deleted tr)) 1 1).
Proof.
  intros Htr.
  pose proof (wp_traces _ _ _ [] tr
                (wp_popmail outfile preserve reverse_order b turns mailbox
                   password) Htr) as Hinv.
  simpl in Hinv. split.
  - apply (retrieves_in_order _ _ _ _ Hinv).
  - apply (deletes_in_order _ _ _ _ Hinv).
Qed.

Lemma popmail_message_order_witness :
  (retrieved example_fetch = []
   \/ exists nmsgs, counted example_fetch = [nmsgs]
        /\ (length (retrieved example_fetch) <= Z.to_nat nmsgs)%nat
        /\ retrieved example_fetch
           = retrieval_order false nmsgs (length (retrieved example_fetch)))
  /\ (deleted example_fetch = []
      \/ exists nmsgs, counted example_fetch = [nmsgs]
           /\ (length (deleted example_fetch) <= Z.to_nat nmsgs)%nat
           /\ deleted example_fetch
              = numbers (length (deleted example_fetch)) 1 1).
Proof.
  apply (popmail_message_order example_build 2 example_mailbox
           example_outfile false None false example_fetch).
  exact (returns_traces _ _ _ example_fetch_returns).
Defined.

(** [popmail], the call of [open]: the only file that is made is
    [outfile], it is made once, and only after the server has counted a
    number of messages that is not 0. *)
Theorem popmail_makes_outfile_once b turns mailbox outfile preserve password
    reverse_order tr pre file ok post :
  traces (popmail b turns mailbox outfile preserve password reverse_order) tr ->
  tr = pre ++ Ev (open_O_EXCL file) ok :: post ->
  file = outfile
  /\ existsb is_open pre = false
  /\ existsb is_open post = false
  /\ exists nmsgs, counted pre = [nmsgs] /\ nmsgs <> 0.
Proof.
  intros Htr E.
  pose proof (wp_traces _ _ _ [] tr
                (wp_popmail outfile preserve reverse_order b turns mailbox
                   password) Htr) as Hinv.
  simpl in Hinv.
  destruct (opens_after_count _ _ _ _ Hinv _ _ _ _ E) as (Hf & Hpre & Hn).
  repeat split; try done.
  destruct (existsb is_open post) eqn:Hpost; [|done].
  apply existsb_exists in Hpost as (e & Hin & He).
  apply in_split in Hin as (l1 & l2 & ->).
  destruct e as [X c x]. destruct c; try done.
  rewrite app_comm_cons, app_assoc in E.
  destruct (opens_after_count _ _ _ _ Hinv _ _ _ _ E) as (_ & Hpre' & _).
  rewrite existsb_app in Hpre'. simpl in Hpre'.
  by rewrite orb_true_r in Hpre'.
Qed.

Lemma popmail_makes_outfile_once_witness :
  let pre := take 2 example_fetch in
  let post := drop 3 example_fetch in
  example_outfile = example_outfile
  /\ existsb is_open pre = false
  /\ existsb is_open post = false
  /\ exists nmsgs, counted pre = [nmsgs] /\ nmsgs <> 0.
Proof.
  intros pre post.
  apply (popmail_makes_outfile_once example_build 2 example_mailbox
           example_outfile false None false example_fetch pre
           example_outfile true post).
  - exact (returns_traces _ _ _ example_fetch_returns).
  - reflexivity.
Defined.

(** [popmail], its result: when [popmail] returns [EXIT_SUCCESS],
    either the server has counted 0 messages and no file has been made,
    or the file has been made and closed well, every message counted has
    been asked for with no failed retrieval, write or flush, every message
    has been deleted unless the mail is to be preserved (then none), and
    the last call is a [pop_quit] that did well. *)
Theorem popmail_success b turns mailbox outfile preserve password
    reverse_order tr :
  returns (popmail b turns mailbox outfile preserve password reverse_order)
    tr EXIT_SUCCESS ->
  (counted tr = [0] /\ retrieved tr = [] /\ deleted tr = []
   /\ existsb is_open tr = false)
  \/ exists nmsgs, nmsgs <> 0
       /\ counted tr = [nmsgs]
       /\ retrieved tr = retrieval_order reverse_order nmsgs (Z.to_nat nmsgs)
       /\ deleted tr
          = (if preserve then [] else numbers (Z.to_nat nmsgs) 1 1)
       /\ existsb went_wrong tr = false
       /\ existsb closed_well tr = true
       /\ existsb is_open tr = true
       /\ last tr = Some (Ev pop_quit true).
Proof.
  intros Hr.
  pose proof (wp_returns _ _ _ [] tr _
                (wp_popmail outfile preserve reverse_order b turns mailbox
                   password) Hr eq_refl) as [Hg|(nmsgs & Hn & Hg & Hl)];
    simpl in *.
  - left. by injection Hg.
  - right. exists nmsgs. injection Hg as Hc Hret Hd Hw Hcl Ho. done.
Qed.

Lemma popmail_success_witness :
  (counted example_fetch = [0] /\ retrieved example_fetch = []
   /\ deleted example_fetch = [] /\ existsb is_open example_fetch = false)
  \/ exists nmsgs, nmsgs <> 0
       /\ counted example_fetch = [nmsgs]
       /\ retrieved example_fetch
          = retrieval_order false nmsgs (Z.to_nat nmsgs)
       /\ deleted example_fetch
          = (if false then [] else numbers (Z.to_nat nmsgs) 1 1)
       /\ existsb went_wrong example_fetch = false
       /\ existsb closed_well example_fetch = true
       /\ existsb is_open example_fetch = true
       /\ last example_fetch = Some (Ev pop_quit true).
Proof.
  exact (popmail_success example_build 2 example_mailbox example_outfile
           false None false example_fetch example_fetch_returns).
Defined.

(** [mbx_write] with [MOVEMAIL_QUOTE_POP_FROM_LINES]: what a call of
    [mbx_write] that returns [true] has written to the mailbox file does
    not start with "From ". *)
Theorem mbx_write_quotes_From b line len tr :
  MOVEMAIL_QUOTE_POP_FROM_LINES b = true ->
  returns (mbx_write b line len) tr true ->
  IS_FROM_LINE (written tr) = Some false.
Proof.
  intros Hq Hr. unfold mbx_write in Hr. rewrite Hq in Hr.
  assert (forall l n tr', IS_FROM_LINE l = Some false ->
            returns (write_line l n) tr' true ->
            IS_FROM_LINE (written tr') = Some false) as Hline.
  { intros l n tr' Hl Hw. unfold write_line in Hw.
    destruct ((n <? 0) || (Z.of_nat (length l) <? n)); [done|].
    destruct tr' as [|e tr']; [done|]. destruct Hw as (x & -> & Hw).
    destruct (x =? n); [|by destruct Hw].
    destruct tr' as [|e tr']; [done|]. destruct Hw as (y & -> & Hw).
    destruct Hw as [-> _]. unfold written. simpl.
    apply starts_with_newline; [done|].
    change (10 ∉ [70; 114; 111; 109; 32]).
    rewrite !not_elem_of_cons. repeat split; try done. apply not_elem_of_nil. }
  assert (forall tr', IS_FROM_LINE line = Some false ->
            returns (unquoted line len) tr' true ->
            IS_FROM_LINE (written tr') = Some false) as Hun.
  { intros tr' Hl Hu. unfold unquoted in Hu.
    destruct (line !! 0%nat) as [c|] eqn:E0; [|done].
    destruct (c =? 31); [|by eapply Hline].
    destruct tr' as [|e tr']; [done|]. destruct Hu as (x & -> & Hu).
    done. }
  destruct (IS_FROM_LINE line) as [[|]|] eqn:E; [|by apply Hun|done].
  destruct tr as [|e tr]; [done|]. destruct Hr as (x & -> & Hr). done.
Qed.

Lemma mbx_write_quotes_From_witness :
  IS_FROM_LINE (written example_writes) = Some false.
Proof.
  apply (mbx_write_quotes_From example_build example_line 9 example_writes).
  - reflexivity.
  - simpl. repeat (eexists; split; [reflexivity|]; simpl). done.
Defined.

(** ** The format of [movemail_strftime] *)

Lemma store_written bytes : forall w k fmt',
  store ((Some <$> w) ++ replicate k None) (length w) bytes = Some fmt' ->
  (length bytes <= k)%nat
  /\ fmt' = (Some <$> (w ++ bytes)) ++ replicate (k - length bytes) None.
Proof.
  induction bytes as [|c bytes IH]; intros w k fmt' H; simpl in H.
  - injection H as <-. split; [simpl; lia|]. by rewrite app_nil_r, Nat.sub_0_r.
  - rewrite length_app, length_fmap, length_replicate in H.
    destruct (Nat.ltb_spec (length w) (length w + k)) as [Hlt|]; [|done].
    destruct k as [|k]; [lia|].
    replace (<[length w:=Some c]> ((Some <$> w) ++ replicate (S k) None))
      with ((Some <$> (w ++ [c])) ++ replicate k None) in H.
    + replace (S (length w)) with (length (w ++ [c])) in H
        by (rewrite length_app; simpl; lia).
      apply IH in H as [Hle ->]. split; [simpl; lia|].
      by rewrite <- app_assoc.
    + rewrite insert_app_r_alt by (rewrite length_fmap; lia).
      rewrite length_fmap, Nat.sub_diag, fmap_app, <- app_assoc. done.
Qed.

Lemma movemail_strftime_fmt_written n : forall format w k buf q,
  (length format <= n)%nat ->
  Forall (fun c => c <> 0) format -> Forall (fun c => c <> 0) w ->
  movemail_strftime_fmt format ((Some <$> w) ++ replicate k None) (length w)
  = Some (buf, q) ->
  exists written,
    length written = q /\ Forall (fun c => c <> 0) written
    /\ (length written <= length w + k)%nat
    /\ buf = (Some <$> written)
             ++ replicate (length w + k - length written) None.
Proof.
  induction n as [|n IH]; intros format w k buf q Hn Hf Hw H.
  { destruct format; [|simpl in Hn; lia]. injection H as <- <-.
    exists w. repeat split; [done|lia|]. by rewrite Nat.add_comm, Nat.add_sub. }
  destruct format as [|c rest].
  { injection H as <- <-.
    exists w. repeat split; [done|lia|]. by rewrite Nat.add_comm, Nat.add_sub. }
  apply Forall_cons in Hf as [Hc Hrest]. simpl in Hn.
  assert (forall bytes rest',
    (length rest' <= n)%nat -> Forall (fun c => c <> 0) rest' ->
    Forall (fun c => c <> 0) bytes ->
    (fmt' ← store ((Some <$> w) ++ replicate k None) (length w) bytes;
     movemail_strftime_fmt rest' fmt' (length w + length bytes))
    = Some (buf, q) ->
    exists written,
      length written = q /\ Forall (fun c => c <> 0) written
      /\ (length written <= length w + k)%nat
      /\ buf = (Some <$> written)
               ++ replicate (length w + k - length written) None) as Hstep.
  { intros bytes rest' Hlen Hr Hb Hs.
    destruct (store _ _ bytes) as [fmt'|] eqn:Es; [|done]. simpl in Hs.
    apply store_written in Es as [Hle ->].
    rewrite <- length_app in Hs.
    apply IH in Hs as (written & Hq & Hnz & Hlw & ->);
      [|done|done|by apply Forall_app].
    rewrite length_app in Hlw |- *.
    exists written. repeat split; [done|done|lia|]. do 2 f_equal. lia. }
  cbn [movemail_strftime_fmt] in H.
  destruct (c =? 37) eqn:E37.
  - destruct rest as [|d rest'].
    + apply (Hstep [c] []); [simpl; lia|done|by repeat constructor|exact H].
    + apply Forall_cons in Hrest as [Hd Hrest']. simpl in Hn.
      destruct (d =? 101).
      { apply (Hstep (bytes_of_string "%d") rest');
          [lia|done|by repeat constructor|exact H]. }
      destruct (d =? 84).
      { apply (Hstep (bytes_of_string "%H:%M:%S") rest');
          [lia|done|by repeat constructor|exact H]. }
      destruct (d =? 37).
      { apply (Hstep [c; d] rest');
          [lia|done|by repeat constructor|exact H]. }
      apply (Hstep [c] (d :: rest'));
        [simpl; lia|by constructor|by repeat constructor|exact H].
  - apply (Hstep [c] rest); [lia|done|by repeat constructor|exact H].
Qed.

(** [movemail_strftime], the loop that builds [fmt]: when the loop ends,
    [fmt] holds the characters written, none of them the terminator, and
    after them only bytes that have never been written: the format that
    is handed to [strftime] has not been terminated. *)
Theorem movemail_strftime_leaves_fmt_unterminated size format buf q :
  Forall (fun c => c <> 0) format ->
  movemail_strftime_fmt format (fmt_array size) 0 = Some (buf, q) ->
  exists written,
    length written = q /\ Forall (fun c => c <> 0) written
    /\ (q <= size + 6)%nat
    /\ buf = (Some <$> written) ++ replicate (size + 6 - q) None.
Proof.
  intros Hf H.
  apply (movemail_strftime_fmt_written (length format) format [] (size + 6))
    in H as (written & Hq & Hnz & Hle & ->); [|done|done|done].
  simpl in *. exists written. by rewrite <- Hq.
Qed.

Lemma movemail_strftime_leaves_fmt_unterminated_witness :
  let buf :=
    (Some <$> bytes_of_string "From movemail %a %b %d %H:%M:%S %Y" ++ [10])
    ++ replicate 71 None in
  exists written,
    length written = 35%nat /\ Forall (fun c => c <> 0) written
    /\ (35 <= 100 + 6)%nat
    /\ buf = (Some <$> written) ++ replicate (100 + 6 - 35) None.
Proof.
  intros buf.
  apply (movemail_strftime_leaves_fmt_unterminated 100 from_line_format
           buf 35).
  - repeat constructor; done.
  - reflexivity.
Defined.
